(** * A crawler that downloads PDFs: scrap.py

  A shallow embedding of [scrap.py] and of the parts of the Python
  standard library ([urllib.parse], CPython 3.11) and of [requests]
  that decide its behaviour, followed by the properties of the URL
  canonicaliser, the retrying fetcher and the crawl engine.

  Strings are sequences of 8-bit characters; characters above 127 are
  opaque (no case mapping). *)

From Stdlib Require Import Ascii ZArith Lia.
From stdpp Require Import base option list gmap sets strings.

Local Open Scope char_scope.

(** ** Python [str] operations *)

Module Str.

Definition ord (c : ascii) : nat := nat_of_ascii c.

Definition eqc (a b : ascii) : bool := Ascii.eqb a b.

(** [c in s] *)
Fixpoint contains (c : ascii) (s : string) : bool :=
  match s with
  | EmptyString => false
  | String a s' => eqc a c || contains c s'
  end.

(** [s.find(c)], [None] standing for -1 *)
Fixpoint find (c : ascii) (s : string) : option nat :=
  match s with
  | EmptyString => None
  | String a s' => if eqc a c then Some 0 else S <$> find c s'
  end.

(** [s[:n]] *)
Fixpoint take (n : nat) (s : string) : string :=
  match n, s with
  | S n', String a s' => String a (take n' s')
  | _, _ => EmptyString
  end.

(** [s[n:]] *)
Fixpoint drop (n : nat) (s : string) : string :=
  match n, s with
  | S n', String _ s' => drop n' s'
  | _, _ => s
  end.

(** [s.find(c, start)] as an absolute index *)
Definition find_from (c : ascii) (start : nat) (s : string) : option nat :=
  (λ i, start + i) <$> find c (drop start s).

(** [s.rfind(c)] *)
Fixpoint rfind (c : ascii) (s : string) : option nat :=
  match s with
  | EmptyString => None
  | String a s' =>
      match rfind c s' with
      | Some i => Some (S i)
      | None => if eqc a c then Some 0 else None
      end
  end.

(** [s.split(c, 1)] when [c in s]: the text before and after the first [c] *)
Fixpoint split1 (c : ascii) (s : string) : string * string :=
  match s with
  | EmptyString => (EmptyString, EmptyString)
  | String a s' =>
      if eqc a c then (EmptyString, s')
      else let '(l, r) := split1 c s' in (String a l, r)
  end.

(** [s.split(c)]: never empty *)
Fixpoint split (c : ascii) (s : string) : list string :=
  match s with
  | EmptyString => [EmptyString]
  | String a s' =>
      if eqc a c then EmptyString :: split c s'
      else match split c s' with
           | h :: t => String a h :: t
           | [] => [String a EmptyString]
           end
  end.

(** [sep.join(l)] *)
Fixpoint join (sep : string) (l : list string) : string :=
  match l with
  | [] => EmptyString
  | [x] => x
  | x :: l' => x +:+ sep +:+ join sep l'
  end.

(** [l[-1]] of a list from [split] *)
Definition last_item (l : list string) : string := List.last l EmptyString.

Fixpoint all (p : ascii → bool) (s : string) : bool :=
  match s with
  | EmptyString => true
  | String a s' => p a && all p s'
  end.

Fixpoint filter (p : ascii → bool) (s : string) : string :=
  match s with
  | EmptyString => EmptyString
  | String a s' => if p a then String a (filter p s') else filter p s'
  end.

(** [s.lstrip(chars)] with [chars] given as a predicate *)
Fixpoint lstrip (p : ascii → bool) (s : string) : string :=
  match s with
  | EmptyString => EmptyString
  | String a s' => if p a then lstrip p s' else s
  end.

Definition rstrip (p : ascii → bool) (s : string) : string :=
  String.rev (lstrip p (String.rev s)).

Definition strip (p : ascii → bool) (s : string) : string :=
  rstrip p (lstrip p s).

Definition is_upper (c : ascii) : bool :=
  (65 <=? ord c)%nat && (ord c <=? 90)%nat.

Definition is_lower (c : ascii) : bool :=
  (97 <=? ord c)%nat && (ord c <=? 122)%nat.

Definition is_digit (c : ascii) : bool :=
  (48 <=? ord c)%nat && (ord c <=? 57)%nat.

(** [c.isascii() and c.isalpha()] *)
Definition is_ascii_alpha (c : ascii) : bool := is_upper c || is_lower c.

Definition lower_char (c : ascii) : ascii :=
  if is_upper c then ascii_of_nat (ord c + 32) else c.

(** [s.lower()] *)
Fixpoint lower (s : string) : string :=
  match s with
  | EmptyString => EmptyString
  | String a s' => String (lower_char a) (lower s')
  end.

(** [s.isascii()] *)
Definition isascii (s : string) : bool := all (λ c, (ord c <? 128)%nat) s.

(** [s.startswith(p)] *)
Fixpoint startswith (s p : string) : bool :=
  match p, s with
  | EmptyString, _ => true
  | String b p', String a s' => eqc a b && startswith s' p'
  | String _ _, EmptyString => false
  end.

(** [s.endswith(p)] *)
Definition endswith (s p : string) : bool :=
  bool_decide (drop (String.length s - String.length p) s = p).

(** truthiness of a string: [if s] *)
Definition nonempty (s : string) : bool :=
  match s with EmptyString => false | _ => true end.

End Str.

(** ** [urllib.parse] (CPython 3.11) *)

(** [urlsplit] raises [ValueError] on a netloc whose brackets do not hold a
  valid IPv6 or IPvFuture address, and on a non-ASCII netloc that NFKC
  normalisation turns into one with a delimiter.  Both checks go through
  the [ipaddress], [re] and [unicodedata] modules; they are taken as
  parameters ([true] when the check passes). *)
Class NetlocChecks := {
check_bracketed_netloc : string → bool;
checknetloc_nfkc : string → bool
}.

(** The checks that accept every netloc. *)
Definition lenient_checks : NetlocChecks :=
{| check_bracketed_netloc := λ _, true; checknetloc_nfkc := λ _, true |}.

Record ParseResult := mkParseResult {
scheme : string;
netloc : string;
path : string;
params : string;
query : string;
fragment : string
}.

Definition uses_relative : list string :=
[""; "ftp"; "http"; "gopher"; "nntp"; "imap";
 "wais"; "file"; "https"; "shttp"; "mms";
 "prospero"; "rtsp"; "rtspu"; "sftp";
 "svn"; "svn+ssh"; "ws"; "wss"]%string.

Definition uses_netloc : list string :=
[""; "ftp"; "http"; "gopher"; "nntp"; "telnet";
 "imap"; "wais"; "file"; "mms"; "https"; "shttp";
 "snews"; "prospero"; "rtsp"; "rtspu"; "rsync";
 "svn"; "svn+ssh"; "sftp"; "nfs"; "git"; "git+ssh";
 "ws"; "wss"]%string.

Definition uses_params : list string :=
[""; "ftp"; "hdl"; "prospero"; "http"; "imap";
 "https"; "shttp"; "rtsp"; "rtspu"; "sip"; "sips";
 "mms"; "sftp"; "tel"]%string.

Definition scheme_chars (c : ascii) : bool :=
Str.is_lower c || Str.is_upper c || Str.is_digit c
|| Str.eqc c "+" || Str.eqc c "-" || Str.eqc c ".".

(** membership in [_WHATWG_C0_CONTROL_OR_SPACE] *)
Definition c0_control_or_space (c : ascii) : bool := (Str.ord c <=? 32)%nat.

(** membership in [_UNSAFE_URL_BYTES_TO_REMOVE] *)
Definition unsafe_url_byte (c : ascii) : bool :=
Str.eqc c "009" || Str.eqc c "013" || Str.eqc c "010".

Definition member (s : string) (l : list string) : bool := bool_decide (s ∈ l).

Section urllib.
Context `{NC : NetlocChecks}.

(** [_splitnetloc(url, start)] *)
Definition _splitnetloc (url : string) (start : nat) : string * string :=
  let delim :=
    foldl (λ delim c,
             match Str.find_from c start url with
             | Some wdelim => Nat.min delim wdelim
             | None => delim
             end)
          (String.length url) ["/"; "?"; "#"] in
  (Str.take (delim - start) (Str.drop start url), Str.drop delim url).

(** [_checknetloc(netloc)]: [true] when it returns, [false] when it raises *)
Definition _checknetloc (netloc : string) : bool :=
  if negb (Str.nonempty netloc) || Str.isascii netloc then true
  else checknetloc_nfkc netloc.

(** [urlsplit(url, scheme)]; [None] when it raises [ValueError] *)
Definition urlsplit (url scheme : string)
  : option (string * string * string * string * string) :=
  let url := Str.lstrip c0_control_or_space url in
  let scheme := Str.strip c0_control_or_space scheme in
  let url := Str.filter (λ c, negb (unsafe_url_byte c)) url in
  let scheme := Str.filter (λ c, negb (unsafe_url_byte c)) scheme in
  let '(scheme, url) :=
    match Str.find ":" url, url with
    | Some (S i), String c0 _ =>
        if Str.is_ascii_alpha c0 && Str.all scheme_chars (Str.take (S i) url)
        then (Str.lower (Str.take (S i) url), Str.drop (S i + 1) url)
        else (scheme, url)
    | _, _ => (scheme, url)
    end in
  let '(netloc, url, ok) :=
    if Str.startswith url "//" then
      let '(netloc, url) := _splitnetloc url 2 in
      let lb := Str.contains "[" netloc in
      let rb := Str.contains "]" netloc in
      if (lb && negb rb) || (rb && negb lb) then (netloc, url, false)
      else if lb && rb then (netloc, url, check_bracketed_netloc netloc)
      else (netloc, url, true)
    else (EmptyString, url, true) in
  let '(url, fragment) :=
    if Str.contains "#" url then Str.split1 "#" url else (url, EmptyString) in
  let '(url, query) :=
    if Str.contains "?" url then Str.split1 "?" url else (url, EmptyString) in
  if ok && _checknetloc netloc
  then Some (scheme, netloc, url, query, fragment)
  else None.

(** [_splitparams(url)] *)
Definition _splitparams (url : string) : string * string :=
  if Str.contains "/" url then
    match Str.find_from ";" (default 0 (Str.rfind "/" url)) url with
    | None => (url, EmptyString)
    | Some i => (Str.take i url, Str.drop (i + 1) url)
    end
  else
    match Str.find ";" url with
    | None => (url, EmptyString)
    | Some i => (Str.take i url, Str.drop (i + 1) url)
    end.

(** [urlparse(url, scheme)] *)
Definition urlparse (url scheme : string) : option ParseResult :=
  '(scheme, netloc, url, query, fragment) ← urlsplit url scheme;
  let '(url, params) :=
    if member scheme uses_params && Str.contains ";" url
    then _splitparams url else (url, EmptyString) in
  Some (mkParseResult scheme netloc url params query fragment).

(** [urlunsplit((scheme, netloc, url, query, fragment))] *)
Definition urlunsplit (scheme netloc url query fragment : string) : string :=
  let url :=
    if Str.nonempty netloc
       || (Str.nonempty scheme && member scheme uses_netloc
           && negb (Str.startswith url "//"))
    then
      let url :=
        if Str.nonempty url && negb (Str.startswith url "/")
        then "/" +:+ url else url in
      "//" +:+ netloc +:+ url
    else url in
  let url := if Str.nonempty scheme then scheme +:+ ":" +:+ url else url in
  let url := if Str.nonempty query then url +:+ "?" +:+ query else url in
  let url := if Str.nonempty fragment then url +:+ "#" +:+ fragment else url in
  url.

(** [urlunparse(components)] *)
Definition urlunparse (p : ParseResult) : string :=
  let url :=
    if Str.nonempty (params p) then path p +:+ ";" +:+ params p else path p in
  urlunsplit (scheme p) (netloc p) url (query p) (fragment p).

(** [segments[1:-1] = filter(None, segments[1:-1])] *)
Definition filter_middle (segments : list string) : list string :=
  match segments with
  | [] => []
  | [x] => [x]
  | h :: t =>
      h :: List.filter Str.nonempty (removelast t) ++ [List.last t EmptyString]
  end.

(** the loop of [urljoin] that builds [resolved_path]; popping an empty
    list raises [IndexError], which the loop ignores *)
Definition resolve_segments (segments : list string) : list string :=
  foldl (λ resolved_path seg,
           if bool_decide (seg = ".."%string) then removelast resolved_path
           else if bool_decide (seg = "."%string) then resolved_path
           else resolved_path ++ [seg])
        [] segments.

(** [urljoin(base, url)] *)
Definition urljoin (base url : string) : option string :=
  if negb (Str.nonempty base) then Some url
  else if negb (Str.nonempty url) then Some base
  else
    b ← urlparse base EmptyString;
    u ← urlparse url (scheme b);
    if negb (bool_decide (scheme u = scheme b))
       || negb (member (scheme u) uses_relative)
    then Some url
    else if member (scheme u) uses_netloc && Str.nonempty (netloc u)
    then Some (urlunparse u)
    else
      let netloc' :=
        if member (scheme u) uses_netloc then netloc b else netloc u in
      if negb (Str.nonempty (path u)) && negb (Str.nonempty (params u)) then
        let query' := if Str.nonempty (query u) then query u else query b in
        Some (urlunparse (mkParseResult (scheme u) netloc' (path b) (params b)
                                        query' (fragment u)))
      else
        let base_parts := Str.split "/" (path b) in
        let base_parts :=
          if Str.nonempty (Str.last_item base_parts)
          then removelast base_parts else base_parts in
        let segments :=
          if Str.startswith (path u) "/" then Str.split "/" (path u)
          else filter_middle (base_parts ++ Str.split "/" (path u)) in
        let resolved_path := resolve_segments segments in
        let resolved_path :=
          if member (Str.last_item segments) ["."; ".."]%string
          then resolved_path ++ [EmptyString] else resolved_path in
        let joined := Str.join "/" resolved_path in
        Some (urlunparse
                (mkParseResult (scheme u) netloc'
                               (if Str.nonempty joined then joined else "/")
                               (params u) (query u) (fragment u))).

(** [urldefrag(url)]: the URL without its fragment, and the fragment *)
Definition urldefrag (url : string) : option (string * string) :=
  if Str.contains "#" url then
    p ← urlparse url EmptyString;
    Some (urlunparse (mkParseResult (scheme p) (netloc p) (path p) (params p)
                                    (query p) EmptyString),
          fragment p)
  else Some (url, EmptyString).

(** ** The URL canonicaliser of scrap.py *)

(** [build_absolute_url(current_url, href)]; [None] when [urllib] raises
    [ValueError] *)
Definition build_absolute_url (current_url href : string) : option string :=
  joined_url ← urljoin current_url href;
  parsed_join ← urlparse joined_url EmptyString;
  if Str.contains "?" (query parsed_join) then
    let correct_query := Str.last_item (Str.split "?" (query parsed_join)) in
    Some (urlunparse (mkParseResult (scheme parsed_join) (netloc parsed_join)
                                    (path parsed_join) (params parsed_join)
                                    correct_query (fragment parsed_join)))
  else Some joined_url.

End urllib.

(** ** Effects: the network, the file system, time *)

(** The exceptions the code distinguishes.  [RequestException] stands for
    any instance of [requests.exceptions.RequestException] ([HTTPError],
    [ConnectionError], [Timeout], ...), [ValueError] for the one of
    [urllib.parse], [OtherException] for any other [Exception]. *)
Inductive exn := RequestException | ValueError | OtherException.

Inductive result (A : Type) :=
| Ok (a : A)
| Raise (e : exn).
Arguments Ok {A} a.
Arguments Raise {A} e.

(** the keyword arguments passed on to [session.get] *)
Record kwargs := mkKwargs { stream : bool; timeout : Z }.

Record Response := mkResponse { status_code : Z; text : string }.

(** what one call of [session.get] does *)
Inductive outcome :=
| Returns (r : Response)
| Throws (e : exn).

(** The world outside the program: the [n]-th interaction with it decides
    what a GET answers and whether writing a body to a file completes;
    [find_all_href] stands for BeautifulSoup: the [href] of every
    [<a href=...>] of a page, in document order. *)
Class Env := {
  session_get : nat → string → kwargs → outcome;
  find_all_href : string → list string;
  write_body : nat → string → Response → bool
}.

(** The file system when the crawl is set up: whether
    [logging.FileHandler(log_file, mode='w')] can open the log file,
    whether [os.path.exists] finds the download folder, and whether
    [os.makedirs] can create it.  [FileHandler] and [makedirs] raise
    [OSError] when they cannot. *)
Class FileSystem := {
  open_log_file : string → bool;
  path_exists : string → bool;
  makedirs : string → bool
}.

(** What the program does to the world.  [EvPageRequest], [EvDownload] and
    [EvEnqueue] mark the call of line 124, the call of line 141 and the
    [append] of line 146; [EvLogFile] and [EvMakedirs] are the opening of
    the log file and the creation of the download folder at set-up. *)
Inductive event :=
| EvGet (url : string) (kw : kwargs)
| EvSleep (seconds : Z)
| EvPoliteDelay
| EvPageRequest (url : string)
| EvDownload (pdf_url : string)
| EvWrite (pdf_url file_path : string) (ok : bool)
| EvEnqueue (url : string)
| EvLogFile (log_file : string)
| EvMakedirs (download_folder : string).

#[global] Instance kwargs_eq_dec : EqDecision kwargs.
Proof. solve_decision. Defined.

#[global] Instance event_eq_dec : EqDecision event.
Proof. solve_decision. Defined.

(** [log] holds the events, the latest first. *)
Record world := mkWorld { clock : nat; log : list event }.

(** the events in the order they happened *)
Definition trace (w : world) : list event := rev (log w).

Definition W (A : Type) : Type := world → result A * world.

#[global] Instance W_ret : MRet W := λ A a w, (Ok a, w).

#[global] Instance W_bind : MBind W := λ A B f m w,
  match m w with
  | (Ok a, w') => f a w'
  | (Raise e, w') => (Raise e, w')
  end.

Definition raise {A} (e : exn) : W A := λ w, (Raise e, w).

Definition emit (e : event) : W unit :=
  λ w, (Ok tt, mkWorld (clock w) (e :: log w)).

(** a [ValueError] of [urllib.parse] *)
Definition lift {A} (o : option A) : W A :=
  match o with
  | Some a => mret a
  | None => raise ValueError
  end.

(** [try: body / except <catches>: handler] *)
Definition try_except {A} (body : W A) (catches : exn → bool) (handler : W A)
  : W A :=
  λ w, match body w with
       | (Raise e, w') => if catches e then handler w' else (Raise e, w')
       | r => r
       end.

(** [for x in l: body(x)], threading the local variables [v] *)
Fixpoint for_each {A V} (l : list A) (body : A → V → W V) (v : V) : W V :=
  match l with
  | [] => mret v
  | x :: l' => v' ← body x v; for_each l' body v'
  end.

Definition is_RequestException (e : exn) : bool :=
  match e with RequestException => true | _ => false end.

(** ** scrap.py *)

Definition RETRIES : nat := 3.
Definition BACKOFF_FACTOR : Z := 1.

Section scrap.
Context `{NC : NetlocChecks} `{E : Env} `{FS : FileSystem}.

(** [setup_logging(log_file)]: building the [FileHandler] opens the log
    file for writing *)
Definition setup_logging (log_file : string) : W unit :=
  if open_log_file log_file then emit (EvLogFile log_file)
  else raise OtherException.

(** [os.makedirs(download_folder)] *)
Definition os_makedirs (download_folder : string) : W unit :=
  if makedirs download_folder then emit (EvMakedirs download_folder)
  else raise OtherException.

(** [session.get(url, **kwargs)] *)
Definition get (url : string) (kw : kwargs) : W Response :=
  λ w, let w' := mkWorld (S (clock w)) (EvGet url kw :: log w) in
       match session_get (clock w) url kw with
       | Returns r => (Ok r, w')
       | Throws e => (Raise e, w')
       end.

(** [response.raise_for_status()] of [requests]: raises [HTTPError], a
    [RequestException], when [400 <= status_code < 600] *)
Definition raise_for_status (r : Response) : W unit :=
  if (400 <=? status_code r)%Z && (status_code r <? 600)%Z
  then raise RequestException else mret tt.

(** [time.sleep(seconds)] in the retry loop *)
Definition sleep (seconds : Z) : W unit := emit (EvSleep seconds).

(** the [for attempt in ...] loop of [make_request_with_retries] *)
Fixpoint attempts (range : list nat) (url : string) (kw : kwargs)
  : W (option Response) :=
  match range with
  | [] => mret None
  | attempt :: range' =>
      try_except
        (response ← get url kw;
         raise_for_status response;;
         mret (Some response))
        is_RequestException
        (if (attempt + 1 =? RETRIES)%nat then mret None
         else
           let sleep_time := (BACKOFF_FACTOR * 2 ^ Z.of_nat attempt)%Z in
           sleep sleep_time;;
           attempts range' url kw)
  end.

Definition make_request_with_retries (url : string) (kw : kwargs)
  : W (option Response) :=
  attempts (seq 0 RETRIES) url kw.

(** [os.path.basename] and [os.path.join] of [posixpath] *)
Definition basename (p : string) : string :=
  match Str.rfind "/" p with
  | Some i => Str.drop (i + 1) p
  | None => p
  end.

Definition path_join (a p : string) : string :=
  if Str.startswith p "/" then p
  else if negb (Str.nonempty a) || Str.endswith a "/" then a +:+ p
  else a +:+ "/" +:+ p.

(** [with open(file_path, 'wb') as f: ...]: any failure is an exception *)
Definition write_file (pdf_url file_path : string) (response : Response)
  : W unit :=
  λ w, let ok := write_body (clock w) file_path response in
       let w' := mkWorld (S (clock w)) (EvWrite pdf_url file_path ok :: log w) in
       if ok then (Ok tt, w') else (Raise OtherException, w').

Definition download_pdf (pdf_url download_folder : string) : W bool :=
  try_except
    (response ← make_request_with_retries pdf_url (mkKwargs true 30);
     match response with
     | None => mret false
     | Some response =>
         parsed ← lift (urlparse pdf_url EmptyString);
         let filename := basename (path parsed) in
         let filename :=
           if Str.nonempty filename then filename
           else "downloaded_file.pdf"%string in
         let file_path := path_join download_folder filename in
         write_file pdf_url file_path response;;
         mret true
     end)
    (λ _, true)
    (mret false).

(** the local variables of [crawl_and_download_pdfs] *)
Record vars := mkVars {
  urls_to_visit : list string;
  visited_urls : gset string;
  downloaded_pdf_urls : gset string
}.

(** [absolute_url.lower().endswith('.pdf')] *)
Definition is_pdf (absolute_url : string) : bool :=
  Str.endswith (Str.lower absolute_url) ".pdf".

(** the body of [for link in soup.find_all('a', href=True)] *)
Definition process_link (start_url download_folder current_url : string)
    (href : string) (v : vars) : W vars :=
  absolute_url ← lift (build_absolute_url current_url href);
  '(normalized_absolute_url, _) ← lift (urldefrag absolute_url);
  if is_pdf absolute_url then
    if bool_decide (absolute_url ∉ downloaded_pdf_urls v) then
      emit (EvDownload absolute_url);;
      ok ← download_pdf absolute_url download_folder;
      if ok : bool then
        mret (mkVars (urls_to_visit v) (visited_urls v)
                     ({[absolute_url]} ∪ downloaded_pdf_urls v))
      else mret v
    else mret v
  else if Str.startswith normalized_absolute_url start_url
          && bool_decide (normalized_absolute_url ∉ visited_urls v) then
    if bool_decide (absolute_url ∉ urls_to_visit v) then
      emit (EvEnqueue absolute_url);;
      mret (mkVars (urls_to_visit v ++ [absolute_url]) (visited_urls v)
                   (downloaded_pdf_urls v))
    else mret v
  else mret v.

(** the body of [while urls_to_visit], entered with [current_url] at the
    head of the list *)
Definition crawl_iteration (start_url download_folder : string)
    (current_url : string) (rest : list string) (v : vars) : W vars :=
  let v := mkVars rest (visited_urls v) (downloaded_pdf_urls v) in
  '(normalized_url, _) ← lift (urldefrag current_url);
  if bool_decide (normalized_url ∈ visited_urls v) then mret v
  else
    let v := mkVars (urls_to_visit v) ({[normalized_url]} ∪ visited_urls v)
                    (downloaded_pdf_urls v) in
    emit EvPoliteDelay;;
    emit (EvPageRequest current_url);;
    response ← make_request_with_retries current_url (mkKwargs false 15);
    match response with
    | None => mret v
    | Some response =>
        for_each (find_all_href (text response))
                 (process_link start_url download_folder current_url) v
    end.

(** [while urls_to_visit: ...]; [None] when [fuel] iterations were not
    enough *)
Fixpoint crawl_loop (fuel : nat) (start_url download_folder : string)
    (v : vars) (w : world) : option (result vars * world) :=
  match fuel with
  | 0 => None
  | S fuel' =>
      match urls_to_visit v with
      | [] => Some (Ok v, w)
      | current_url :: rest =>
          match crawl_iteration start_url download_folder current_url rest v w
          with
          | (Ok v', w') => crawl_loop fuel' start_url download_folder v' w'
          | (Raise e, w') => Some (Raise e, w')
          end
      end
  end.

Definition initial_vars (start_url : string) : vars :=
  mkVars [start_url] ∅ ∅.

Definition initial_world : world := mkWorld 0 [].

(** the lines of [crawl_and_download_pdfs] before its loop *)
Definition set_up (download_folder log_file : string) : W unit :=
  setup_logging log_file;;
  if negb (path_exists download_folder) then os_makedirs download_folder
  else mret tt.

(** [crawl_and_download_pdfs(start_url, download_folder, log_file)]: the
    set-up and the loop, with the local variables at the end for the totals
    that the last lines log *)
Definition crawl_and_download_pdfs (fuel : nat)
    (start_url download_folder log_file : string)
  : option (result vars * world) :=
  match set_up download_folder log_file initial_world with
  | (Ok _, w) =>
      crawl_loop fuel start_url download_folder (initial_vars start_url) w
  | (Raise e, w) => Some (Raise e, w)
  end.

End scrap.


(** * Specification vocabulary *)

(** ** The retrying fetcher *)

Section fetcher_spec.
Context `{E : Env}.

(** The [c]-th interaction, a GET of [url], answers with a response that
    [raise_for_status] accepts. *)
Definition succeeds (c : nat) (url : string) (kw : kwargs) (resp : Response)
  : Prop :=
  session_get c url kw = Returns resp
  ∧ ¬ (400 ≤ status_code resp < 600)%Z.

(** The [c]-th interaction, a GET of [url], ends in a [RequestException]:
    raised by [session.get], or by [raise_for_status] on a 4xx or 5xx
    status. *)
Definition fails (c : nat) (url : string) (kw : kwargs) : Prop :=
  session_get c url kw = Throws RequestException
  ∨ ∃ resp, session_get c url kw = Returns resp
            ∧ (400 ≤ status_code resp < 600)%Z.

(** The [c]-th interaction, a GET of [url], raises something that is not a
    [RequestException]. *)
Definition crashes (c : nat) (url : string) (kw : kwargs) (e : exn) : Prop :=
  session_get c url kw = Throws e ∧ e ≠ RequestException.

(** [k] failed attempts from attempt number [i] on, each followed by its
    back-off *)
Definition backoff_trace (url : string) (kw : kwargs) (i k : nat)
  : list event :=
  flat_map (λ j, [EvGet url kw; EvSleep (BACKOFF_FACTOR * 2 ^ Z.of_nat j)])
           (seq i k).

(** the body of the [try] of one attempt *)
Definition attempt_body (url : string) (kw : kwargs) : W (option Response) :=
  response ← get url kw;
  raise_for_status response;;
  mret (Some response).

End fetcher_spec.

Definition is_get (e : event) : bool :=
  match e with EvGet _ _ => true | _ => false end.

Definition is_sleep (e : event) : bool :=
  match e with EvSleep _ => true | _ => false end.

(** the events of the network and of the retry loop *)
Definition is_net (e : event) : bool := is_get e || is_sleep e.

Definition count_gets (tr : list event) : nat := length (List.filter is_get tr).

Definition after_get (url : string) (kw : kwargs) (w : world) : world :=
  mkWorld (S (clock w)) (EvGet url kw :: log w).

(** ** What the log says *)

(** the URLs of the page requests, the downloads, the enqueues and the
    completed file writes of a log, the latest first *)
Definition page_requests (l : list event) : list string :=
  omap (λ e, match e with EvPageRequest u => Some u | _ => None end) l.

Definition downloads (l : list event) : list string :=
  omap (λ e, match e with EvDownload u => Some u | _ => None end) l.

Definition enqueued (l : list event) : list string :=
  omap (λ e, match e with EvEnqueue u => Some u | _ => None end) l.

Definition written (l : list event) : list string :=
  omap (λ e, match e with EvWrite u _ true => Some u | _ => None end) l.

(** an event that is none of the four above *)
Definition is_quiet (e : event) : bool :=
  match e with
  | EvGet _ _ | EvSleep _ | EvPoliteDelay | EvWrite _ _ false
  | EvLogFile _ | EvMakedirs _ => true
  | _ => false
  end.

Section crawl_spec.
Context `{NC : NetlocChecks} `{E : Env}.

(** the fragment-stripped form of a URL, the key of the visited set *)
Definition normalized (url : string) : option string := fst <$> urldefrag url.

(** the fragment-stripped forms of the page requests of a log *)
Definition page_keys (l : list event) : list (option string) :=
  normalized <$> page_requests l.

(** The events, latest first, that a call [download_pdf(pdf_url, _)]
    returning [ok] adds: GETs and sleeps, the first of them a GET of
    [pdf_url], and then at most one file write, which completes exactly when
    [ok]. *)
Definition download_events (pdf_url : string) (ok : bool) (tr : list event)
  : Prop :=
  ∃ file_path tr',
    (tr = tr' ∧ ok = false ∨ tr = EvWrite pdf_url file_path ok :: tr')
    ∧ Forall (λ e, is_net e = true) tr'
    ∧ ∃ tr'', tr' = tr'' ++ [EvGet pdf_url (mkKwargs true 30)].

(** One link of a page, resolved to [absolute_url] with fragment-stripped
    form [n]: what the loop body does with it. *)
Inductive link_step (start_url absolute_url n : string) (v : vars) (w : world)
  : result vars * world → Prop :=
| link_pdf_known :
    is_pdf absolute_url = true →
    absolute_url ∈ downloaded_pdf_urls v →
    link_step start_url absolute_url n v w (Ok v, w)
| link_pdf_download ok tr w' :
    is_pdf absolute_url = true →
    absolute_url ∉ downloaded_pdf_urls v →
    download_events absolute_url ok tr →
    log w' = tr ++ EvDownload absolute_url :: log w →
    link_step start_url absolute_url n v w
      (Ok (if ok then mkVars (urls_to_visit v) (visited_urls v)
                             ({[absolute_url]} ∪ downloaded_pdf_urls v)
           else v), w')
| link_enqueue :
    is_pdf absolute_url = false →
    Str.startswith n start_url = true →
    n ∉ visited_urls v →
    absolute_url ∉ urls_to_visit v →
    link_step start_url absolute_url n v w
      (Ok (mkVars (urls_to_visit v ++ [absolute_url]) (visited_urls v)
                  (downloaded_pdf_urls v)),
       mkWorld (clock w) (EvEnqueue absolute_url :: log w))
| link_discard :
    is_pdf absolute_url = false →
    ¬ (Str.startswith n start_url = true ∧ (n ∉ visited_urls v)
       ∧ (absolute_url ∉ urls_to_visit v)) →
    link_step start_url absolute_url n v w (Ok v, w).

(** [post I F x]: the outcome [x] of a piece of the crawl leaves the local
    variables and the world in [I], or has raised and leaves the world in
    [F]. *)
Definition post (I : vars → world → Prop) (F : world → Prop)
    (x : result vars * world) : Prop :=
  match x with
  | (Ok v, w) => I v w
  | (Raise _, w) => F w
  end.

(** the crawl after at most [n] iterations of its loop *)
Fixpoint crawl_steps (n : nat) (start_url download_folder : string)
    (v : vars) (w : world) : result vars * world :=
  match n with
  | 0 => (Ok v, w)
  | S n' =>
      match urls_to_visit v with
      | [] => (Ok v, w)
      | current_url :: rest =>
          match crawl_iteration start_url download_folder current_url rest v w
          with
          | (Ok v', w') => crawl_steps n' start_url download_folder v' w'
          | (Raise e, w') => (Raise e, w')
          end
      end
  end.

(** ** Invariants of the crawl *)

(** No two page requests of the log share a fragment-stripped form, and
    each of these forms is in the visited set. *)
Definition pages_inv (v : vars) (w : world) : Prop :=
  NoDup (page_keys (log w))
  ∧ ∀ o, o ∈ page_keys (log w) → ∃ k, o = Some k ∧ k ∈ visited_urls v.


(** Every download call and every completed write of the log concerns a
    URL with no completed write before it. *)
Fixpoint downloads_ok (l : list event) : Prop :=
  match l with
  | [] => True
  | e :: older =>
      match e with
      | EvDownload u | EvWrite u _ true => u ∉ written older
      | _ => True
      end ∧ downloads_ok older
  end.

(** The downloaded set holds the URLs whose file write completed. *)
Definition downloads_inv (v : vars) (w : world) : Prop :=
  (∀ u, u ∈ downloaded_pdf_urls v ↔ u ∈ written (log w))
  ∧ downloads_ok (log w).

(** ** Scope and discoverable URLs *)

(** the start URL, and the links that the loop body takes for pages of
    the crawl *)
Definition in_scope (start_url u : string) : bool :=
  bool_decide (u = start_url)
  || negb (is_pdf u)
     && match normalized u with
        | Some n => Str.startswith n start_url
        | None => false
        end.






End crawl_spec.

(** * Example worlds *)

(** a server that answers 503 twice and then 200 *)
Definition flaky_env : Env := {|
  session_get := λ c _ _,
    if (c <? 2)%nat then Returns (mkResponse 503 EmptyString)
    else Returns (mkResponse 200 "ok"%string);
  find_all_href := λ _, [];
  write_body := λ _ _ _, true
|}.

(** a site whose start page links to one page under two fragments *)
Definition fragment_env : Env := {|
  session_get := λ _ url _,
    if bool_decide (url = "https://s.test/"%string)
    then Returns (mkResponse 200 "index"%string)
    else Returns (mkResponse 200 EmptyString);
  find_all_href := λ body,
    if bool_decide (body = "index"%string)
    then ["page#a"; "page#b"]%string else [];
  write_body := λ _ _ _, true
|}.


(** a site whose start page and whose page [a] both link to one PDF *)
Definition pdf_env : Env := {|
  session_get := λ _ url _,
    if bool_decide (url = "https://s.test/"%string)
    then Returns (mkResponse 200 "index"%string)
    else if bool_decide (url = "https://s.test/a"%string)
    then Returns (mkResponse 200 "a"%string)
    else Returns (mkResponse 200 "%PDF"%string);
  find_all_href := λ body,
    if bool_decide (body = "index"%string) then ["a"; "doc.pdf"]%string
    else if bool_decide (body = "a"%string) then ["doc.pdf"]%string
    else [];
  write_body := λ _ _ _, true
|}.

(** the same site when the first three GETs of the PDF answer 503 *)
Definition failing_pdf_env : Env := {|
  session_get := λ c url kw,
    if bool_decide (url = "https://s.test/doc.pdf"%string) && (c <? 4)%nat
    then Returns (mkResponse 503 EmptyString)
    else @session_get pdf_env c url kw;
  find_all_href := @find_all_href pdf_env;
  write_body := λ _ _ _, true
|}.

(** a server that answers every GET with 304 Not Modified *)
Definition not_modified_env : Env := {|
  session_get := λ _ _ _, Returns (mkResponse 304 EmptyString);
  find_all_href := λ _, [];
  write_body := λ _ _ _, true
|}.

(** a network that is down for the first GET and broken for the second *)
Definition crashing_env : Env := {|
  session_get := λ c _ _,
    if (c <? 1)%nat then Throws RequestException else Throws OtherException;
  find_all_href := λ _, [];
  write_body := λ _ _ _, true
|}.

(** a site whose start page has a link with an unclosed bracket in its
    host between two links to pages *)
Definition broken_link_env : Env := {|
  session_get := λ _ _ _, Returns (mkResponse 200 "index"%string);
  find_all_href := λ _, ["a"; "//["; "b"]%string;
  write_body := λ _ _ _, true
|}.

(** a network that is down *)
Definition down_env : Env := {|
  session_get := λ _ _ _, Throws RequestException;
  find_all_href := λ _, [];
  write_body := λ _ _ _, true
|}.


(** a disk on which any file or folder with a name can be created, and on
    which the download folder is not there yet *)
Definition fresh_disk : FileSystem := {|
  open_log_file := Str.nonempty;
  path_exists := λ _, false;
  makedirs := Str.nonempty
|}.

(** * Further vocabulary *)

Definition is_write (e : event) : bool :=
  match e with EvWrite _ _ _ => true | _ => false end.

(** the seconds slept in the retry loops of a list of events *)
Fixpoint total_sleep (tr : list event) : Z :=
  match tr with
  | [] => 0
  | EvSleep s :: tr' => s + total_sleep tr'
  | _ :: tr' => total_sleep tr'
  end.

Definition count_sleeps (tr : list event) : nat :=
  length (List.filter is_sleep tr).

Section names.
Context `{NC : NetlocChecks}.

(** the name of the file in which [download_pdf] stores [pdf_url] *)
Definition download_filename (pdf_url : string) : option string :=
  parsed ← urlparse pdf_url EmptyString;
  let filename := basename (path parsed) in
  Some (if Str.nonempty filename then filename
        else "downloaded_file.pdf"%string).

End names.

Definition is_polite (e : event) : bool :=
  match e with EvPoliteDelay => true | _ => false end.

Definition is_page_request (e : event) : bool :=
  match e with EvPageRequest _ => true | _ => false end.

(** Every page request of the log has the polite delay as the event just
    before it. *)
Fixpoint polite_ok (l : list event) : Prop :=
  match l with
  | [] => True
  | EvPageRequest _ :: older =>
      (∃ older', older = EvPoliteDelay :: older') ∧ polite_ok older
  | _ :: older => polite_ok older
  end.

Definition polite_inv (w : world) : Prop :=
  polite_ok (log w)
  ∧ length (List.filter is_polite (log w)) = length (page_requests (log w)).

(** The sizes of the two sets are the numbers of page requests and of
    completed file writes. *)
Definition totals_inv (v : vars) (w : world) : Prop :=
  size (visited_urls v) = length (page_requests (log w))
  ∧ size (downloaded_pdf_urls v) = length (written (log w)).

Section order_spec.
Context `{NC : NetlocChecks} `{E : Env}.

(** The URLs put in the frontier, in order, are those taken from it
    followed by those still in it; the pages requested were taken from it,
    in that order. *)
Definition queue_inv (start_url : string) (v : vars) (w : world) : Prop :=
  ∃ popped,
    start_url :: rev (enqueued (log w)) = popped ++ urls_to_visit v
    ∧ rev (page_requests (log w)) `sublist_of` popped.

(** Whatever is in the frontier or was requested as a page is in scope. *)
Definition scope_inv (start_url : string) (v : vars) (w : world) : Prop :=
  ∀ u, u ∈ urls_to_visit v ++ page_requests (log w) →
       in_scope start_url u = true.

End order_spec.

Section resolution.
Context `{NC : NetlocChecks}.

(** [urllib] resolves [href] against [current_url] and strips the fragment
    of the result, without a [ValueError] *)
Definition resolves (current_url href : string) : Prop :=
  ∃ a n f, build_absolute_url current_url href = Some a
           ∧ urldefrag a = Some (n, f).

End resolution.

(** The events of one call of [make_request_with_retries(url, **kw)]:
    sleeps and at most 3 GETs, all of [url] with [kw]. *)
Definition fetch_events (url : string) (kw : kwargs) (tr : list event) : Prop :=
  Forall (λ e, e = EvGet url kw ∨ is_sleep e = true) tr
  ∧ (count_gets tr ≤ 3)%nat.

(** the call under way at the end of a log (the latest first), a page
    request or a download, with the keyword arguments of its GETs *)
Fixpoint current_call (l : list event) : option (string * kwargs) :=
  match l with
  | [] => None
  | EvPageRequest u :: _ => Some (u, mkKwargs false 15)
  | EvDownload u :: _ => Some (u, mkKwargs true 30)
  | _ :: older => current_call older
  end.

(** the number of GETs made since that call *)
Fixpoint gets_since_call (l : list event) : nat :=
  match l with
  | [] => 0
  | EvPageRequest _ :: _ | EvDownload _ :: _ => 0
  | EvGet _ _ :: older => S (gets_since_call older)
  | _ :: older => gets_since_call older
  end.

(** Each GET of the log is a GET for the latest call before it, and the
    first, second or third GET since that call. *)
Fixpoint calls_ok (l : list event) : Prop :=
  match l with
  | [] => True
  | e :: older =>
      match e with
      | EvGet u kw =>
          current_call older = Some (u, kw) ∧ (gets_since_call older < 3)%nat
      | _ => True
      end ∧ calls_ok older
  end.

(** Every GET of the log belongs to a page request, made with
    [timeout=15], or to a download, made with [stream=True, timeout=30];
    there are at most 3 GETs for each of these; every download is of a PDF
    link. *)
Definition gets_ok (l : list event) : Prop :=
  (∀ u kw, EvGet u kw ∈ l →
           kw = mkKwargs false 15 ∧ u ∈ page_requests l
           ∨ kw = mkKwargs true 30 ∧ u ∈ downloads l)
  ∧ (count_gets l ≤ 3 * (length (page_requests l) + length (downloads l)))%nat
  ∧ Forall (λ u, is_pdf u = true) (downloads l)
  ∧ calls_ok l.

Section visited_spec.
Context `{NC : NetlocChecks} `{E : Env}.

(** The visited set holds exactly the fragment-stripped forms of the pages
    requested. *)
Definition visited_inv (v : vars) (w : world) : Prop :=
  ∀ k, k ∈ visited_urls v ↔ Some k ∈ page_keys (log w).

End visited_spec.

(** ** The log is write-only *)

(** the world [w] with the events [older] before all of its own *)
Definition with_older (older : list event) (w : world) : world :=
  mkWorld (clock w) (log w ++ older).

(** [m] does not read the log: events that happened before change nothing
    but the log itself. *)
Definition framed {A} (m : W A) : Prop :=
  ∀ older w, m (with_older older w)
             = let '(r, w') := m w in (r, with_older older w').

Definition is_set_up (e : event) : bool :=
  match e with EvLogFile _ | EvMakedirs _ => true | _ => false end.

(** ** The parts of a URL that [urlsplit] returns *)

(** no tab, carriage return or line feed *)
Definition safe (s : string) : bool :=
  Str.all (λ c, negb (unsafe_url_byte c)) s.

(** the characters at which [_splitnetloc] ends the netloc *)
Definition delimiter (c : ascii) : Prop :=
  c = "/"%char ∨ c = "?"%char ∨ c = "#"%char.

(** no scheme, or a scheme as [urlsplit] returns it: in lower case, made
    of scheme characters, the first a letter *)
Definition is_scheme (s : string) : Prop :=
  s = EmptyString
  ∨ ∃ c0 t, s = Str.lower (String c0 t)
            ∧ Str.is_ascii_alpha c0 = true
            ∧ Str.all scheme_chars (String c0 t) = true.

Section netloc_checks.
Context `{NC : NetlocChecks}.

(** the checks of [urlsplit] on the netloc: brackets, then
    [_checknetloc] *)
Definition netloc_ok (n : string) : bool :=
  (let lb := Str.contains "[" n in
   let rb := Str.contains "]" n in
   if (lb && negb rb) || (rb && negb lb) then false
   else if lb && rb then check_bracketed_netloc n
   else true)
  && _checknetloc n.

(** the steps of [urlsplit]: the scheme, the netloc with the check of its
    brackets, and the cut at the first [#] and then at the first [?] *)
Definition scheme_step (url : string) : string * string :=
  match Str.find ":" url, url with
  | Some (S i), String c0 _ =>
      if Str.is_ascii_alpha c0 && Str.all scheme_chars (Str.take (S i) url)
      then (Str.lower (Str.take (S i) url), Str.drop (S i + 1) url)
      else (EmptyString, url)
  | _, _ => (EmptyString, url)
  end.

Definition netloc_step (url : string) : string * string * bool :=
  if Str.startswith url "//" then
    let '(netloc, url) := _splitnetloc url 2 in
    let lb := Str.contains "[" netloc in
    let rb := Str.contains "]" netloc in
    if (lb && negb rb) || (rb && negb lb) then (netloc, url, false)
    else if lb && rb then (netloc, url, check_bracketed_netloc netloc)
    else (netloc, url, true)
  else (EmptyString, url, true).

Definition cut (c : ascii) (url : string) : string * string :=
  if Str.contains c url then Str.split1 c url else (url, EmptyString).

End netloc_checks.

(** * The log is write-only *)

Lemma framed_ret {A} (a : A) : framed (mret a).
Proof. by intros older w. Qed.

Lemma framed_raise {A} (e : exn) : framed (raise (A:=A) e).
Proof. by intros older w. Qed.

Lemma framed_emit (e : event) : framed (emit e).
Proof. by intros older w. Qed.

Lemma framed_lift {A} (o : option A) : framed (lift o).
Proof. destruct o; [apply framed_ret | apply framed_raise]. Qed.

Lemma framed_bind {A B} (m : W A) (f : A → W B) :
  framed m → (∀ a, framed (f a)) → framed (m ≫= f).
Proof.
  intros Hm Hf older w. unfold mbind, W_bind. rewrite Hm.
  destruct (m w) as [[a|e] w']; [apply Hf|done].
Qed.

Lemma framed_try {A} (body : W A) catches (handler : W A) :
  framed body → framed handler → framed (try_except body catches handler).
Proof.
  intros Hb Hh older w. unfold try_except. rewrite Hb.
  destruct (body w) as [[a|e] w']; [done|].
  destruct (catches e); [apply Hh|done].
Qed.

Lemma framed_for_each {A V} (l : list A) (body : A → V → W V) :
  (∀ x v, framed (body x v)) → ∀ v, framed (for_each l body v).
Proof.
  intros Hbody. induction l as [|x l IH]; intros v; cbn [for_each].
  - apply framed_ret.
  - apply framed_bind; [apply Hbody|apply IH].
Qed.

Section frame.
Context `{NC : NetlocChecks} `{E : Env}.

Lemma framed_get url kw : framed (get url kw).
Proof.
  intros older w. unfold get. cbn [with_older clock log].
  by destruct (session_get (clock w) url kw).
Qed.

Lemma framed_raise_for_status r : framed (raise_for_status r).
Proof.
  unfold raise_for_status.
  destruct (_ && _); [apply framed_raise | apply framed_ret].
Qed.

Lemma framed_attempts range url kw : framed (attempts range url kw).
Proof.
  induction range as [|attempt range IH]; cbn [attempts].
  - apply framed_ret.
  - apply framed_try.
    + apply framed_bind; [apply framed_get|]. intros r.
      apply framed_bind; [apply framed_raise_for_status|]. intros _.
      apply framed_ret.
    + destruct (attempt + 1 =? RETRIES)%nat; [apply framed_ret|].
      apply framed_bind; [apply framed_emit|]. intros _. exact IH.
Qed.

Lemma framed_write_file pdf_url file_path response :
  framed (write_file pdf_url file_path response).
Proof.
  intros older w. unfold write_file. cbn [with_older clock log].
  by destruct (write_body (clock w) file_path response).
Qed.

Lemma framed_download_pdf pdf_url download_folder :
  framed (download_pdf pdf_url download_folder).
Proof.
  apply framed_try; [|apply framed_ret].
  apply framed_bind; [apply framed_attempts|]. intros [response|];
    [|apply framed_ret].
  apply framed_bind; [apply framed_lift|]. intros parsed.
  apply framed_bind; [apply framed_write_file|]. intros _. apply framed_ret.
Qed.

Lemma framed_process_link start_url download_folder current_url href v :
  framed (process_link start_url download_folder current_url href v).
Proof.
  apply framed_bind; [apply framed_lift|]. intros absolute_url.
  apply framed_bind; [apply framed_lift|]. intros [n f].
  destruct (is_pdf absolute_url).
  - case_bool_decide; [|apply framed_ret].
    apply framed_bind; [apply framed_emit|]. intros _.
    apply framed_bind; [apply framed_download_pdf|]. intros [|];
      apply framed_ret.
  - destruct (_ && _); [|apply framed_ret].
    case_bool_decide; [|apply framed_ret].
    apply framed_bind; [apply framed_emit|]. intros _. apply framed_ret.
Qed.

Lemma framed_crawl_iteration start_url download_folder current_url rest v :
  framed (crawl_iteration start_url download_folder current_url rest v).
Proof.
  apply framed_bind; [apply framed_lift|]. intros [n f].
  case_bool_decide; [apply framed_ret|].
  apply framed_bind; [apply framed_emit|]. intros _.
  apply framed_bind; [apply framed_emit|]. intros _.
  apply framed_bind; [apply framed_attempts|]. intros [response|];
    [|apply framed_ret].
  apply framed_for_each. intros. apply framed_process_link.
Qed.

(** The loop does the same whatever happened before it. *)
Lemma crawl_loop_frame start_url download_folder older fuel : ∀ v w,
  crawl_loop fuel start_url download_folder v (with_older older w)
  = (λ x, (x.1, with_older older x.2))
    <$> crawl_loop fuel start_url download_folder v w.
Proof.
  induction fuel as [|fuel IH]; intros v w; [done|]. cbn [crawl_loop].
  destruct (urls_to_visit v) as [|current_url rest]; [done|].
  rewrite framed_crawl_iteration.
  destruct (crawl_iteration _ _ _ _ _ _) as [[v'|e] w']; [apply IH|done].
Qed.

Lemma crawl_steps_frame start_url download_folder older n : ∀ v w,
  crawl_steps n start_url download_folder v (with_older older w)
  = let x := crawl_steps n start_url download_folder v w in
    (x.1, with_older older x.2).
Proof.
  induction n as [|n IH]; intros v w; [done|]. cbn [crawl_steps].
  destruct (urls_to_visit v) as [|current_url rest]; [done|].
  rewrite framed_crawl_iteration.
  destruct (crawl_iteration _ _ _ _ _ _) as [[v'|e] w']; [apply IH|done].
Qed.

Context `{FS : FileSystem}.

(** The set-up makes no request.  It raises, or leaves the events of the
    log file and of the download folder. *)
Lemma set_up_cases download_folder log_file :
  set_up download_folder log_file initial_world
  = if open_log_file log_file then
      if path_exists download_folder
      then (Ok tt, mkWorld 0 [EvLogFile log_file])
      else if makedirs download_folder
           then (Ok tt, mkWorld 0 [EvMakedirs download_folder;
                                   EvLogFile log_file])
           else (Raise OtherException, mkWorld 0 [EvLogFile log_file])
    else (Raise OtherException, initial_world).
Proof.
  unfold set_up, setup_logging, os_makedirs, mbind, W_bind.
  destruct (open_log_file log_file); [|done]. cbn.
  destruct (path_exists download_folder); [done|]. cbn.
  by destruct (makedirs download_folder).
Qed.

(** [crawl_and_download_pdfs] is its loop run from an empty log, with the
    events of the set-up before those of the loop. *)
Lemma crawl_and_download_pdfs_loop fuel start_url download_folder log_file :
  crawl_and_download_pdfs fuel start_url download_folder log_file
  = match set_up download_folder log_file initial_world with
    | (Ok _, w0) =>
        (λ x, (x.1, with_older (log w0) x.2))
        <$> crawl_loop fuel start_url download_folder
              (initial_vars start_url) initial_world
    | (Raise e, w0) => Some (Raise e, w0)
    end.
Proof.
  unfold crawl_and_download_pdfs.
  pose proof (set_up_cases download_folder log_file) as Hs.
  destruct (set_up download_folder log_file initial_world) as [[[]|e] w0];
    [|done].
  rewrite <- crawl_loop_frame. f_equal.
  destruct (open_log_file log_file); [|done].
  destruct (path_exists download_folder); [by injection Hs as ->|].
  destruct (makedirs download_folder); [by injection Hs as ->|done].
Qed.

Lemma set_up_events download_folder log_file r w0 :
  set_up download_folder log_file initial_world = (r, w0) →
  Forall (λ e, is_set_up e = true) (log w0).
Proof.
  rewrite set_up_cases. destruct (open_log_file log_file).
  - destruct (path_exists download_folder); [|destruct (makedirs _)];
      intros [= <- <-]; by repeat constructor.
  - intros [= <- <-]. constructor.
Qed.

End frame.

(** The events of the set-up are none of those that the crawl counts. *)
Lemma set_up_is_quiet l :
  Forall (λ e, is_set_up e = true) l →
  page_requests l = [] ∧ enqueued l = [] ∧ downloads l = [] ∧ written l = []
  ∧ List.filter is_get l = [].
Proof.
  induction 1 as [|e l He _ IH]; [done|].
  unfold page_requests, enqueued, downloads, written in *.
  destruct e; try discriminate He; cbn [omap List.filter is_get]; exact IH.
Qed.
(** * The retrying fetcher *)

Section fetcher.
Context `{E : Env}.

Lemma attempts_cons attempt range url kw :
  attempts (attempt :: range) url kw
  = try_except (attempt_body url kw) is_RequestException
      (if (attempt + 1 =? RETRIES)%nat then mret None
       else sleep (BACKOFF_FACTOR * 2 ^ Z.of_nat attempt);;
            attempts range url kw).
Proof. reflexivity. Qed.

Lemma attempt_body_succeeds url kw w resp :
  succeeds (clock w) url kw resp →
  attempt_body url kw w = (Ok (Some resp), after_get url kw w).
Proof.
  intros [Hget Hst]. unfold attempt_body, mbind, W_bind, get.
  rewrite Hget. unfold raise_for_status.
  destruct ((400 <=? status_code resp)%Z && (status_code resp <? 600)%Z) eqn:Hb;
    [|reflexivity].
  apply andb_true_iff in Hb as [H1 H2]. exfalso. apply Hst. lia.
Qed.

Lemma attempt_body_fails url kw w :
  fails (clock w) url kw →
  attempt_body url kw w = (Raise RequestException, after_get url kw w).
Proof.
  intros [Hget | (resp & Hget & Hst)];
    unfold attempt_body, mbind, W_bind, get; rewrite Hget; [reflexivity|].
  unfold raise_for_status.
  replace ((400 <=? status_code resp)%Z && (status_code resp <? 600)%Z)
    with true; [reflexivity|].
  symmetry. apply andb_true_iff. lia.
Qed.

Lemma attempt_body_crashes url kw w e :
  crashes (clock w) url kw e →
  attempt_body url kw w = (Raise e, after_get url kw w).
Proof.
  intros [Hget _]. unfold attempt_body, mbind, W_bind, get. by rewrite Hget.
Qed.

(** every attempt succeeds, fails or crashes *)
Lemma attempt_cases c url kw :
  (∃ resp, succeeds c url kw resp) ∨ fails c url kw
  ∨ (∃ e, crashes c url kw e).
Proof.
  unfold succeeds, fails, crashes.
  destruct (session_get c url kw) as [resp | e] eqn:Hget.
  - destruct (decide (400 ≤ status_code resp < 600)%Z); [right; left|left];
      eauto.
  - destruct e; eauto; right; right; eexists; split; eauto; discriminate.
Qed.

Lemma succeeds_not_fails c url kw resp :
  succeeds c url kw resp → fails c url kw → False.
Proof.
  intros [Hget Hst] [Hf | (r & Hf & Hr)]; rewrite Hget in Hf; [discriminate|].
  injection Hf as <-. auto.
Qed.

(** A run of the loop over the attempts [i, i+1, ..., i+n-1] in which the
    first [k] fail and the next one succeeds. *)
Lemma attempts_first_success url kw resp n : ∀ i k w,
  (k < n)%nat →
  (i + n = RETRIES)%nat →
  (∀ j, (j < k)%nat → fails (clock w + j) url kw) →
  succeeds (clock w + k) url kw resp →
  ∃ w', attempts (seq i n) url kw w = (Ok (Some resp), w')
        ∧ clock w' = (clock w + S k)%nat
        ∧ log w' = EvGet url kw :: rev (backoff_trace url kw i k) ++ log w.
Proof.
  induction n as [|n IH]; intros i k w Hk Hi Hfail Hsucc; [lia|].
  cbn [seq]. rewrite attempts_cons. unfold try_except.
  destruct k as [|k].
  - rewrite Nat.add_0_r in Hsucc.
    rewrite (attempt_body_succeeds _ _ _ _ Hsucc).
    eexists; split; [reflexivity|]. split; simpl; [lia|reflexivity].
  - pose proof (Hfail 0%nat ltac:(lia)) as H0. rewrite Nat.add_0_r in H0.
    rewrite (attempt_body_fails _ _ _ H0). cbn [is_RequestException].
    destruct (i + 1 =? RETRIES)%nat eqn:Hlast.
    { apply Nat.eqb_eq in Hlast. lia. }
    unfold sleep, emit, mbind, W_bind. cbn [after_get clock log].
    destruct (IH (S i) k
                (mkWorld (S (clock w))
                   (EvSleep (BACKOFF_FACTOR * 2 ^ Z.of_nat i)
                      :: EvGet url kw :: log w)))
      as (w' & Hrun & Hclock & Hlog).
    + lia.
    + lia.
    + intros j Hj. cbn [clock].
      replace (S (clock w) + j)%nat with (clock w + S j)%nat by lia.
      apply Hfail. lia.
    + cbn [clock].
      replace (S (clock w) + k)%nat with (clock w + S k)%nat by lia. done.
    + exists w'. split; [exact Hrun|]. split.
      * rewrite Hclock. cbn [clock]. lia.
      * rewrite Hlog. cbn [log]. unfold backoff_trace. cbn [seq flat_map].
        rewrite !rev_app_distr. cbn [rev app].
        rewrite <- !app_assoc. reflexivity.
Qed.

(** A run of the loop over the attempts [i, ..., RETRIES-1] in which all
    fail: the last failure returns [None] without a sleep. *)
Lemma attempts_all_fail url kw n : ∀ i w,
  (i + S n = RETRIES)%nat →
  (∀ j, (j < S n)%nat → fails (clock w + j) url kw) →
  ∃ w', attempts (seq i (S n)) url kw w = (Ok None, w')
        ∧ clock w' = (clock w + S n)%nat
        ∧ log w' = EvGet url kw :: rev (backoff_trace url kw i n) ++ log w.
Proof.
  induction n as [|n IH]; intros i w Hi Hfail.
  - cbn [seq]. rewrite attempts_cons. unfold try_except.
    pose proof (Hfail 0%nat ltac:(lia)) as H0. rewrite Nat.add_0_r in H0.
    rewrite (attempt_body_fails _ _ _ H0). cbn [is_RequestException].
    destruct (i + 1 =? RETRIES)%nat eqn:Hlast.
    + eexists; split; [reflexivity|]. split; simpl; [lia|reflexivity].
    + apply Nat.eqb_neq in Hlast. lia.
  - cbn [seq]. rewrite attempts_cons. unfold try_except.
    pose proof (Hfail 0%nat ltac:(lia)) as H0. rewrite Nat.add_0_r in H0.
    rewrite (attempt_body_fails _ _ _ H0). cbn [is_RequestException].
    destruct (i + 1 =? RETRIES)%nat eqn:Hlast.
    { apply Nat.eqb_eq in Hlast. lia. }
    unfold sleep, emit, mbind, W_bind. cbn [after_get clock log].
    destruct (IH (S i)
                (mkWorld (S (clock w))
                   (EvSleep (BACKOFF_FACTOR * 2 ^ Z.of_nat i)
                      :: EvGet url kw :: log w)))
      as (w' & Hrun & Hclock & Hlog).
    + lia.
    + intros j Hj. cbn [clock].
      replace (S (clock w) + j)%nat with (clock w + S j)%nat by lia.
      apply Hfail. lia.
    + exists w'. split; [exact Hrun|]. split.
      * rewrite Hclock. cbn [clock]. lia.
      * rewrite Hlog. cbn [log]. unfold backoff_trace.
        change (seq i (S n)) with (i :: seq (S i) n).
        cbn [flat_map]. rewrite !rev_app_distr. cbn [rev app].
        rewrite <- !app_assoc. reflexivity.
Qed.

(** Whatever the world answers, the loop over [n] attempts adds events of
    the network only, with at most [n] GETs, the first of them (there is
    one when [n > 0]) the first event added. *)
Lemma attempts_events url kw n : ∀ i w,
  ∃ tr, log (attempts (seq i n) url kw w).2 = tr ++ log w
        ∧ Forall (λ e, is_net e = true) tr
        ∧ (count_gets tr ≤ n)%nat
        ∧ ((0 < n)%nat → ∃ tr'', tr = tr'' ++ [EvGet url kw]).
Proof.
  induction n as [|n IH]; intros i w.
  - exists []. simpl. split; [done|]. split; [constructor|]. split; [done|lia].
  - cbn [seq]. rewrite attempts_cons.
    unfold try_except, attempt_body, mbind, W_bind, get.
    set (w1 := mkWorld (S (clock w)) (EvGet url kw :: log w)).
    assert (Hone : ∃ tr, log w1 = tr ++ log w
                         ∧ Forall (λ e, is_net e = true) tr
                         ∧ (count_gets tr ≤ S n)%nat
                         ∧ ((0 < S n)%nat → ∃ tr'', tr = tr'' ++ [EvGet url kw])).
    { exists [EvGet url kw]. split; [done|]. split; [by repeat constructor|].
      split; [unfold count_gets; simpl; lia|]. intros _. by exists []. }
    assert (Hhandler : ∃ tr,
      log ((if (i + 1 =? RETRIES)%nat then mret None
            else sleep (BACKOFF_FACTOR * 2 ^ Z.of_nat i);;
                 attempts (seq (S i) n) url kw) w1).2 = tr ++ log w
      ∧ Forall (λ e, is_net e = true) tr ∧ (count_gets tr ≤ S n)%nat
      ∧ ((0 < S n)%nat → ∃ tr'', tr = tr'' ++ [EvGet url kw])).
    { destruct (i + 1 =? RETRIES)%nat; [exact Hone|].
      unfold sleep, emit, mbind, W_bind. cbn [clock log].
      destruct (IH (S i) (mkWorld (clock w1)
                            (EvSleep (BACKOFF_FACTOR * 2 ^ Z.of_nat i) :: log w1)))
        as (tr & Hlog & Hnet & Hcount & _).
      exists (tr ++ [EvSleep (BACKOFF_FACTOR * 2 ^ Z.of_nat i); EvGet url kw]).
      split; [|split; [|split]].
      - rewrite Hlog. cbn [log]. subst w1. cbn [log].
        rewrite <- app_assoc. reflexivity.
      - apply Forall_app. split; [done|]. by repeat constructor.
      - unfold count_gets in *. rewrite List.filter_app, length_app. simpl. lia.
      - intros _. exists (tr ++ [EvSleep (BACKOFF_FACTOR * 2 ^ Z.of_nat i)]).
        by rewrite <- app_assoc. }
    destruct (session_get (clock w) url kw) as [resp | e].
    + unfold raise_for_status.
      destruct ((400 <=? status_code resp)%Z && (status_code resp <? 600)%Z).
      * cbn [raise is_RequestException]. exact Hhandler.
      * exact Hone.
    + destruct e; cbn [is_RequestException]; [exact Hhandler | exact Hone ..].
Qed.

(** A response that [make_request_with_retries] returns is the answer to
    one of its GETs. *)
Lemma attempts_response url kw n : ∀ i w resp w',
  attempts (seq i n) url kw w = (Ok (Some resp), w') →
  ∃ c, session_get c url kw = Returns resp.
Proof.
  induction n as [|n IH]; intros i w resp w'; [done|].
  cbn [seq]. rewrite attempts_cons.
  unfold try_except, attempt_body, mbind, W_bind, get.
  assert (Hhandler : ∀ w1,
    (if (i + 1 =? RETRIES)%nat then mret None
     else sleep (BACKOFF_FACTOR * 2 ^ Z.of_nat i);;
          attempts (seq (S i) n) url kw) w1 = (Ok (Some resp), w') →
    ∃ c, session_get c url kw = Returns resp).
  { intros w1. destruct (i + 1 =? RETRIES)%nat; [done|].
    unfold sleep, emit, mbind, W_bind. apply IH. }
  destruct (session_get (clock w) url kw) as [r | e] eqn:Hget.
  - unfold raise_for_status.
    destruct ((400 <=? status_code r)%Z && (status_code r <? 600)%Z).
    + cbn [raise is_RequestException]. apply Hhandler.
    + intros [= -> _]. eauto.
  - destruct e; cbn [is_RequestException]; [apply Hhandler | done ..].
Qed.

End fetcher.

Lemma count_gets_rev tr : count_gets (rev tr) = count_gets tr.
Proof.
  unfold count_gets. induction tr as [|e tr IH]; [done|].
  simpl. rewrite List.filter_app, length_app, IH. simpl.
  destruct (is_get e); simpl; lia.
Qed.

(** C3. [make_request_with_retries] issues at most 3 GETs.  When the first
    [k < 3] attempts fail and the next one succeeds, it returns that
    response, and what it did is: each failed attempt [j] followed by a sleep
    of [BACKOFF_FACTOR * 2^j] seconds, then the successful GET, nothing
    after it.  When all three attempts fail it returns [None], having slept
    1 s after attempt 0 and 2 s after attempt 1, and not after the last. *)
Theorem make_request_with_retries_schedule `{E : Env}
    (url : string) (kw : kwargs) (w : world) :
  let '(r, w') := make_request_with_retries url kw w in
  ∃ tr, trace w' = trace w ++ tr
    ∧ (count_gets tr ≤ 3)%nat
    ∧ (∀ k resp, (k < 3)%nat →
         (∀ j, (j < k)%nat → fails (clock w + j) url kw) →
         succeeds (clock w + k) url kw resp →
         r = Ok (Some resp)
         ∧ tr = backoff_trace url kw 0 k ++ [EvGet url kw])
    ∧ ((∀ j, (j < 3)%nat → fails (clock w + j) url kw) →
         r = Ok None
         ∧ tr = [EvGet url kw; EvSleep 1; EvGet url kw; EvSleep 2;
                 EvGet url kw]).
Proof.
  destruct (make_request_with_retries url kw w) as [r w'] eqn:Hrun.
  unfold make_request_with_retries in Hrun.
  destruct (attempts_events url kw RETRIES 0 w) as (tr0 & Hlog & _ & Hcount & _).
  rewrite Hrun in Hlog. cbn [snd] in Hlog.
  exists (rev tr0). split; [|split; [|split]].
  - unfold trace. rewrite Hlog. apply rev_app_distr.
  - rewrite count_gets_rev. exact Hcount.
  - intros k resp Hk Hfail Hsucc.
    destruct (attempts_first_success url kw resp RETRIES 0 k w Hk eq_refl
                Hfail Hsucc) as (w'' & Hrun' & _ & Hlog').
    pose proof (eq_trans (eq_sym Hrun) Hrun') as Heq.
    injection Heq as -> ->. split; [done|].
    rewrite Hlog in Hlog'.
    change (EvGet url kw :: rev (backoff_trace url kw 0 k) ++ log w)
      with ((EvGet url kw :: rev (backoff_trace url kw 0 k)) ++ log w)
      in Hlog'.
    apply app_inv_tail in Hlog'. rewrite Hlog'. cbn [rev].
    by rewrite rev_involutive.
  - intros Hfail.
    destruct (attempts_all_fail url kw 2 0 w eq_refl Hfail)
      as (w'' & Hrun' & _ & Hlog').
    pose proof (eq_trans (eq_sym Hrun) Hrun') as Heq.
    injection Heq as -> ->. split; [done|].
    rewrite Hlog in Hlog'.
    change (EvGet url kw :: rev (backoff_trace url kw 0 2) ++ log w)
      with ((EvGet url kw :: rev (backoff_trace url kw 0 2)) ++ log w)
      in Hlog'.
    apply app_inv_tail in Hlog'. rewrite Hlog'. reflexivity.
Qed.

Lemma make_request_with_retries_schedule_witness :
  let url := "https://x/"%string in
  let kw := mkKwargs false 15 in
  @make_request_with_retries flaky_env url kw initial_world
  = (Ok (Some (mkResponse 200 "ok"%string)),
     mkWorld 3 (rev [EvGet url kw; EvSleep 1; EvGet url kw; EvSleep 2;
                     EvGet url kw])).
Proof.
  intros url kw.
  pose proof (@make_request_with_retries_schedule flaky_env url kw
                initial_world) as H.
  destruct (@make_request_with_retries flaky_env url kw initial_world)
    as [r w'] eqn:Hrun.
  destruct H as (tr & Htrace & _ & Hsucc & _).
  destruct (Hsucc 2%nat (mkResponse 200 "ok"%string)) as [Hr Htr].
  - lia.
  - intros j Hj. right. exists (mkResponse 503 EmptyString).
    destruct j as [|[|j]]; [split; [reflexivity | simpl; lia] ..|lia].
  - split; [reflexivity | simpl; lia].
  - rewrite <- Hrun. reflexivity.
Defined.

(** * The URL canonicaliser *)

(** closed equations between values are settled by evaluation *)
Ltac evaluated := vm_compute; reflexivity.

Lemma split_nonempty c s : Str.split c s ≠ [].
Proof.
  destruct s as [|a s]; simpl; [done|].
  destruct (Str.eqc a c); [done|]. by destruct (Str.split c s).
Qed.

Lemma app_String a s1 s2 : String a s1 +:+ s2 = String a (s1 +:+ s2).
Proof. reflexivity. Qed.

Lemma last_cons_ne (x : string) l d : l ≠ [] → List.last (x :: l) d = List.last l d.
Proof. by destruct l. Qed.

Lemma split_without c s : Str.contains c s = false → Str.split c s = [s].
Proof.
  induction s as [|b s IH]; simpl; [done|].
  intros [Hb Hs]%orb_false_iff. by rewrite Hb, (IH Hs).
Qed.

Lemma split_single c s h : Str.split c s = [h] → Str.contains c s = false.
Proof.
  revert h. induction s as [|b s IH]; intros h; simpl; [done|].
  pose proof (split_nonempty c s) as Hne.
  destruct (Str.eqc b c).
  - intros [= _ Hnil]. done.
  - destruct (Str.split c s) as [|h1 t1]; [done|].
    intros [= _ ->]. simpl. eauto.
Qed.

(** [s.split(c)[-1]] is the text after the last [c] of [s]. *)
Lemma split_last_item c s :
  Str.contains c s = true →
  ∃ before,
    s = before +:+ String c (Str.last_item (Str.split c s))
    ∧ Str.contains c (Str.last_item (Str.split c s)) = false.
Proof.
  unfold Str.last_item.
  induction s as [|a s IH]; simpl; [done|].
  intros Hc. pose proof (split_nonempty c s) as Hne.
  destruct (Str.eqc a c) eqn:Hac.
  - apply Ascii.eqb_eq in Hac as ->.
    rewrite (last_cons_ne _ _ _ Hne).
    destruct (Str.contains c s) eqn:Hs.
    + destruct (IH eq_refl) as (before & Heq & Hno).
      exists (String c before). split; [|exact Hno].
      by rewrite app_String, <- Heq.
    + exists EmptyString. rewrite (split_without _ _ Hs). simpl. done.
  - simpl in Hc. destruct (IH Hc) as (before & Heq & Hno).
    destruct (Str.split c s) as [|h t] eqn:Hsplit; [done|].
    destruct t as [|h' t].
    + apply split_single in Hsplit. congruence.
    + exists (String a before). split; [|exact Hno].
      rewrite app_String. f_equal. exact Heq.
Qed.


(** * The crawl engine *)

Section engine.
Context `{NC : NetlocChecks} `{E : Env}.

(** [download_pdf] never raises, and adds the events of one download. *)
Lemma download_pdf_events pdf_url download_folder w :
  ∃ ok tr c,
    download_pdf pdf_url download_folder w = (Ok ok, mkWorld c (tr ++ log w))
    ∧ download_events pdf_url ok tr.
Proof.
  unfold download_pdf, try_except, mbind, W_bind, make_request_with_retries.
  destruct (attempts_events pdf_url (mkKwargs true 30) RETRIES 0 w)
    as (tr1 & Hlog & Hnet & _ & Hfirst).
  specialize (Hfirst ltac:(unfold RETRIES; lia)).
  destruct (attempts (seq 0 RETRIES) pdf_url (mkKwargs true 30) w)
    as [r1 [c1 l1]] eqn:Hrun.
  cbn [snd log] in Hlog. subst l1.
  assert (Hfalse : ∃ ok tr c,
    (Ok false, mkWorld c1 (tr1 ++ log w)) = (Ok ok, mkWorld c (tr ++ log w))
    ∧ download_events pdf_url ok tr).
  { exists false, tr1, c1. split; [done|]. exists EmptyString, tr1. auto. }
  destruct r1 as [[resp|]|e]; [|exact Hfalse..].
  destruct (urlparse pdf_url EmptyString) as [parsed|]; [|exact Hfalse].
  cbn [lift mret W_ret]. unfold write_file. cbn [clock log].
  set (file_path := path_join download_folder _).
  destruct (write_body c1 file_path resp) eqn:Hw.
  - exists true, (EvWrite pdf_url file_path true :: tr1), (S c1).
    split; [done|]. exists file_path, tr1. auto.
  - exists false, (EvWrite pdf_url file_path false :: tr1), (S c1).
    split; [done|]. exists file_path, tr1. auto.
Qed.

(** A link that [urllib] cannot resolve raises out of the loop body and
    leaves the world as it is. *)
Lemma process_link_raises start_url download_folder current_url href v w :
  build_absolute_url current_url href = None
  ∨ (∃ absolute_url,
       build_absolute_url current_url href = Some absolute_url
       ∧ urldefrag absolute_url = None) →
  process_link start_url download_folder current_url href v w
  = (Raise ValueError, w).
Proof.
  unfold process_link, mbind, W_bind.
  intros [-> | (a & -> & Hd)]; [done|]. cbn [lift mret W_ret].
  by rewrite Hd.
Qed.

(** The loop body on a link that resolves takes one [link_step]. *)
Lemma process_link_step start_url download_folder current_url href v w a n f :
  build_absolute_url current_url href = Some a →
  urldefrag a = Some (n, f) →
  link_step start_url a n v w
    (process_link start_url download_folder current_url href v w).
Proof.
  intros Ha Hn. unfold process_link, mbind, W_bind.
  rewrite Ha. cbn [lift mret W_ret]. rewrite Hn. cbn [lift mret W_ret].
  destruct (is_pdf a) eqn:Hpdf.
  - case_bool_decide as Hdl.
    + unfold emit.
      destruct (download_pdf_events a download_folder
                  (mkWorld (clock w) (EvDownload a :: log w)))
        as (ok & tr & c & Hrun & Hev).
      rewrite Hrun. cbn [log] in *.
      destruct ok; cbn [mret W_ret].
      * by apply (link_pdf_download start_url a n v w true tr).
      * by apply (link_pdf_download start_url a n v w false tr).
    + by apply link_pdf_known.
  - destruct (Str.startswith n start_url) eqn:Hscope; cbn [andb].
    + case_bool_decide as Hvis; cbn [andb].
      * case_bool_decide as Hq.
        -- unfold emit. by apply link_enqueue.
        -- apply link_discard; [done|]. tauto.
      * apply link_discard; [done|]. tauto.
    + apply link_discard; [done|]. intros [? _]. congruence.
Qed.

(** ** Invariants through the loops *)

Lemma for_each_post {A} (I : vars → world → Prop) (F : world → Prop)
    (P : A → Prop) (body : A → vars → W vars) :
  (∀ v w, I v w → F w) →
  (∀ x v w, P x → I v w → post I F (body x v w)) →
  ∀ l v w, Forall P l → I v w → post I F (for_each l body v w).
Proof.
  intros HIF Hbody l. induction l as [|x l IH]; intros v w Hl HI; [done|].
  apply Forall_cons in Hl as [Hx Hl].
  cbn [for_each]. unfold mbind, W_bind.
  specialize (Hbody x v w Hx HI).
  destruct (body x v w) as [[v'|e] w']; cbn [post] in *; auto.
Qed.

(** An invariant [I'] of the loop body that follows from [I] once the head
    of the frontier is taken, that the events of the network keep and that
    every [link_step] of a fetched page keeps, holds after the iteration. *)
Lemma crawl_iteration_post (I I' : vars → world → Prop) (F : world → Prop)
    start_url download_folder current_url rest v w :
  urls_to_visit v = current_url :: rest →
  I v w →
  (∀ w, I v w → F w) →
  (∀ v w, I' v w → F w) →
  (∀ n, normalized current_url = Some n → n ∈ visited_urls v →
        I' (mkVars rest (visited_urls v) (downloaded_pdf_urls v)) w) →
  (∀ n, normalized current_url = Some n → n ∉ visited_urls v →
        I' (mkVars rest ({[n]} ∪ visited_urls v) (downloaded_pdf_urls v))
           (mkWorld (clock w)
                    (EvPageRequest current_url :: EvPoliteDelay :: log w))) →
  (∀ v w c tr, I' v w → Forall (λ e, is_net e = true) tr →
               I' v (mkWorld c (tr ++ log w))) →
  (∀ c kw resp href a n v w x,
     session_get c current_url kw = Returns resp →
     href ∈ find_all_href (text resp) →
     build_absolute_url current_url href = Some a →
     normalized a = Some n →
     I' v w → link_step start_url a n v w x → post I' F x) →
  post I' F (crawl_iteration start_url download_folder current_url rest v w).
Proof.
  intros Hfront HI HIF HIF' Hseen Hnew Hnet Hlink.
  unfold crawl_iteration, mbind, W_bind. cbn [visited_urls downloaded_pdf_urls].
  destruct (urldefrag current_url) as [[n f]|] eqn:Hd; cbn [lift mret W_ret].
  2: { cbn [raise post]. eauto. }
  assert (Hn : normalized current_url = Some n)
    by (unfold normalized; by rewrite Hd).
  case_bool_decide as Hvis.
  { cbn [post]. by apply (Hseen n). }
  unfold emit. cbn [clock log].
  set (w0 := mkWorld (clock w)
               (EvPageRequest current_url :: EvPoliteDelay :: log w)).
  set (v0 := mkVars rest ({[n]} ∪ visited_urls v) (downloaded_pdf_urls v)).
  pose proof (Hnew n Hn Hvis) as HI0. fold w0 v0 in HI0.
  unfold make_request_with_retries.
  destruct (attempts_events current_url (mkKwargs false 15) RETRIES 0 w0)
    as (tr & Hlog & Htr & _).
  pose proof (attempts_response current_url (mkKwargs false 15) RETRIES 0 w0)
    as Hresp.
  destruct (attempts (seq 0 RETRIES) current_url (mkKwargs false 15) w0)
    as [r w1].
  cbn [snd] in Hlog.
  assert (HI1 : I' v0 w1).
  { destruct w1 as [c1 l1]. cbn [log] in Hlog. rewrite Hlog. by apply Hnet. }
  destruct r as [[resp|]|e]; cbn [post]; eauto.
  destruct (Hresp resp w1 eq_refl) as [c Hget].
  apply (for_each_post I' F (λ href, href ∈ find_all_href (text resp)));
    [exact HIF' | | by apply Forall_forall | exact HI1].
  intros href v' w' Hin HI'.
  destruct (build_absolute_url current_url href) as [a|] eqn:Ha.
  2: { rewrite process_link_raises by auto. cbn [post]. eauto. }
  destruct (urldefrag a) as [[na fa]|] eqn:Hda.
  2: { rewrite process_link_raises by eauto. cbn [post]. eauto. }
  eapply Hlink; eauto using process_link_step.
  unfold normalized. by rewrite Hda.
Qed.

(** An invariant of every iteration holds after any number of them. *)
Lemma crawl_steps_post (I : vars → world → Prop) (F : world → Prop)
    start_url download_folder :
  (∀ current_url rest v w,
     urls_to_visit v = current_url :: rest → I v w →
     post I F
       (crawl_iteration start_url download_folder current_url rest v w)) →
  ∀ n v w, I v w → post I F (crawl_steps n start_url download_folder v w).
Proof.
  intros Hiter n. induction n as [|n IH]; intros v w HI; [done|].
  cbn [crawl_steps].
  destruct (urls_to_visit v) as [|current_url rest] eqn:Hfront; [done|].
  specialize (Hiter current_url rest v w Hfront HI).
  destruct (crawl_iteration _ _ _ _ _ _) as [[v'|e] w']; cbn [post] in *; auto.
Qed.

(** A loop that ends is the crawl after that many iterations. *)
Lemma crawl_loop_steps fuel start_url download_folder : ∀ v w x,
  crawl_loop fuel start_url download_folder v w = Some x →
  crawl_steps fuel start_url download_folder v w = x.
Proof.
  induction fuel as [|fuel IH]; intros v w x; [done|].
  cbn [crawl_loop crawl_steps].
  destruct (urls_to_visit v) as [|current_url rest]; [congruence|].
  destruct (crawl_iteration _ _ _ _ _ _) as [[v'|e] w']; [apply IH|congruence].
Qed.

End engine.

(** ** What the events of the network and of a download add to a log *)

Lemma page_requests_app l1 l2 :
  page_requests (l1 ++ l2) = page_requests l1 ++ page_requests l2.
Proof. apply omap_app. Qed.

Lemma enqueued_app l1 l2 : enqueued (l1 ++ l2) = enqueued l1 ++ enqueued l2.
Proof. apply omap_app. Qed.

Lemma downloads_app l1 l2 : downloads (l1 ++ l2) = downloads l1 ++ downloads l2.
Proof. apply omap_app. Qed.

Lemma written_app l1 l2 : written (l1 ++ l2) = written l1 ++ written l2.
Proof. apply omap_app. Qed.

Lemma page_requests_cons e l :
  page_requests (e :: l)
  = match e with EvPageRequest u => u :: page_requests l | _ => page_requests l end.
Proof. by destruct e. Qed.

Lemma enqueued_cons e l :
  enqueued (e :: l)
  = match e with EvEnqueue u => u :: enqueued l | _ => enqueued l end.
Proof. by destruct e. Qed.

Lemma downloads_cons e l :
  downloads (e :: l)
  = match e with EvDownload u => u :: downloads l | _ => downloads l end.
Proof. by destruct e. Qed.

Lemma written_cons e l :
  written (e :: l)
  = match e with EvWrite u _ true => u :: written l | _ => written l end.
Proof. by destruct e as [| | | | |? ? []| | |]. Qed.

Ltac log_cons :=
  rewrite ?page_requests_cons, ?enqueued_cons, ?downloads_cons, ?written_cons;
  cbv beta iota.

Lemma net_is_quiet tr :
  Forall (λ e, is_net e = true) tr →
  page_requests tr = [] ∧ enqueued tr = [] ∧ downloads tr = []
  ∧ written tr = [].
Proof.
  induction 1 as [|e tr He _ (IH1 & IH2 & IH3 & IH4)]; [done|].
  log_cons. by destruct e.
Qed.

Lemma download_events_quiet pdf_url ok tr :
  download_events pdf_url ok tr →
  page_requests tr = [] ∧ enqueued tr = [] ∧ downloads tr = []
  ∧ written tr = (if ok then [pdf_url] else []).
Proof.
  intros (file_path & tr' & Htr & Hnet & _).
  destruct (net_is_quiet tr' Hnet) as (H1 & H2 & H3 & H4).
  destruct Htr as [[-> ->] | ->]; [done|].
  log_cons. rewrite H1, H2, H3, H4. by destruct ok.
Qed.

Section invariants.
Context `{NC : NetlocChecks} `{E : Env}.

(** ** Pages are requested once *)

Lemma pages_inv_initial start_url :
  pages_inv (initial_vars start_url) initial_world.
Proof. split; [constructor|]. intros o Ho. by apply elem_of_nil in Ho. Qed.

Lemma pages_inv_same_keys v w v' w' :
  pages_inv v w →
  page_requests (log w') = page_requests (log w) →
  visited_urls v' = visited_urls v →
  pages_inv v' w'.
Proof.
  unfold pages_inv, page_keys. intros [Hnd Hin] -> ->. done.
Qed.

Lemma pages_inv_link start_url a n v w x :
  pages_inv v w → link_step start_url a n v w x →
  post pages_inv (λ w, NoDup (page_keys (log w))) x.
Proof.
  intros HI Hstep.
  destruct Hstep as [? ? | ok tr w' ? ? Hev Hlog | ? ? ? ? | ? ?]; cbn [post];
    try done.
  - destruct (download_events_quiet _ _ _ Hev) as (Hp & _).
    apply (pages_inv_same_keys v w); [done| |by destruct ok].
    rewrite Hlog, page_requests_app, Hp. done.
Qed.

Lemma pages_inv_iteration start_url download_folder current_url rest v w :
  urls_to_visit v = current_url :: rest →
  pages_inv v w →
  post pages_inv (λ w, NoDup (page_keys (log w)))
    (crawl_iteration start_url download_folder current_url rest v w).
Proof.
  intros Hfront HI.
  apply (crawl_iteration_post pages_inv pages_inv);
    [exact Hfront | exact HI | | | | | | ].
  - by intros ? [? _].
  - by intros ? ? [? _].
  - intros n _ _. by apply (pages_inv_same_keys v w).
  - intros n Hn Hvis. destruct HI as [Hnd Hin].
    unfold pages_inv, page_keys. cbn [log]. log_cons.
    rewrite fmap_cons, Hn. split.
    + apply NoDup_cons. split; [|exact Hnd].
      intros Hk. destruct (Hin _ Hk) as (k & [= <-] & Hk'). done.
    + intros o [Heq | Ho]%elem_of_cons; [subst o|].
      * exists n. split; [done|]. cbn. apply elem_of_union. left.
        by apply elem_of_singleton.
      * destruct (Hin _ Ho) as (k & -> & Hk). exists k. split; [done|].
        cbn. apply elem_of_union. by right.
  - intros v' w' c tr HI' Htr.
    apply (pages_inv_same_keys v' w'); [done| |done].
    cbn [log]. rewrite page_requests_app.
    by destruct (net_is_quiet tr Htr) as (-> & _).
  - intros c kw resp href a n v' w' x _ _ _ _. apply pages_inv_link.
Qed.

Lemma pages_inv_steps start_url download_folder steps :
  post pages_inv (λ w, NoDup (page_keys (log w)))
    (crawl_steps steps start_url download_folder (initial_vars start_url)
                 initial_world).
Proof.
  apply crawl_steps_post; [|apply pages_inv_initial].
  intros. by apply pages_inv_iteration.
Qed.

End invariants.

Section iteration.
Context `{NC : NetlocChecks} `{E : Env}.

(** A dequeued URL whose fragment-stripped form was visited is dropped:
    no event, no change but to the frontier. *)
Lemma crawl_iteration_seen start_url download_folder current_url rest v w n :
  normalized current_url = Some n →
  n ∈ visited_urls v →
  crawl_iteration start_url download_folder current_url rest v w
  = (Ok (mkVars rest (visited_urls v) (downloaded_pdf_urls v)), w).
Proof.
  unfold normalized, crawl_iteration, mbind, W_bind. intros Hn Hvis.
  destruct (urldefrag current_url) as [[n' f]|]; [|done].
  injection Hn as ->. cbn [lift mret W_ret visited_urls].
  by rewrite bool_decide_eq_true_2.
Qed.

(** A dequeued URL whose fragment-stripped form is new is marked visited,
    then requested, then its links are processed. *)
Lemma crawl_iteration_new start_url download_folder current_url rest v w n :
  normalized current_url = Some n →
  n ∉ visited_urls v →
  crawl_iteration start_url download_folder current_url rest v w
  = let v0 := mkVars rest ({[n]} ∪ visited_urls v) (downloaded_pdf_urls v) in
    let w0 := mkWorld (clock w)
                (EvPageRequest current_url :: EvPoliteDelay :: log w) in
    match make_request_with_retries current_url (mkKwargs false 15) w0 with
    | (Ok (Some response), w1) =>
        for_each (find_all_href (text response))
                 (process_link start_url download_folder current_url) v0 w1
    | (Ok None, w1) => (Ok v0, w1)
    | (Raise e, w1) => (Raise e, w1)
    end.
Proof.
  unfold normalized, crawl_iteration, mbind, W_bind. intros Hn Hvis.
  destruct (urldefrag current_url) as [[n' f]|]; [|done].
  injection Hn as ->. cbn [lift mret W_ret visited_urls].
  rewrite bool_decide_eq_false_2 by done. unfold emit. cbn [clock log].
  by destruct (make_request_with_retries _ _ _) as [[[?|]|?] ?].
Qed.

End iteration.

(** C4. A dequeued URL whose fragment-stripped form is in the visited set
    is dropped without a request; any other has that form added to the
    visited set and is then requested.  So, at any point of any crawl, no
    two page requests made so far have the same fragment-stripped form: a
    page linked as [.../page#a] and as [.../page#b] is requested at most
    once. *)
Theorem page_fetched_at_most_once `{NC : NetlocChecks} `{E : Env}
    (start_url download_folder : string) :
  (∀ current_url rest v w n,
     normalized current_url = Some n →
     n ∈ visited_urls v →
     crawl_iteration start_url download_folder current_url rest v w
     = (Ok (mkVars rest (visited_urls v) (downloaded_pdf_urls v)), w))
  ∧ (∀ current_url rest v w n,
       normalized current_url = Some n →
       n ∉ visited_urls v →
       crawl_iteration start_url download_folder current_url rest v w
       = let v0 :=
           mkVars rest ({[n]} ∪ visited_urls v) (downloaded_pdf_urls v) in
         let w0 := mkWorld (clock w)
                     (EvPageRequest current_url :: EvPoliteDelay :: log w) in
         match make_request_with_retries current_url (mkKwargs false 15) w0
         with
         | (Ok (Some response), w1) =>
             for_each (find_all_href (text response))
                      (process_link start_url download_folder current_url)
                      v0 w1
         | (Ok None, w1) => (Ok v0, w1)
         | (Raise e, w1) => (Raise e, w1)
         end)
  ∧ (∀ steps i j a b,
       let requests :=
         page_requests
           (log (crawl_steps steps start_url download_folder
                   (initial_vars start_url) initial_world).2) in
       requests !! i = Some a →
       requests !! j = Some b →
       normalized a = normalized b →
       i = j).
Proof.
  split; [|split].
  - intros. by eapply crawl_iteration_seen.
  - intros. by eapply crawl_iteration_new.
  - intros steps i j a b requests Hi Hj Hab.
    pose proof (pages_inv_steps start_url download_folder steps) as Hpost.
    assert (Hnd : NoDup (normalized <$> requests)).
    { subst requests. destruct (crawl_steps _ _ _ _ _) as [[v|e] w];
        cbn [post snd] in *; [by destruct Hpost|done]. }
    eapply NoDup_lookup; [exact Hnd| |].
    + rewrite list_lookup_fmap, Hi. reflexivity.
    + rewrite list_lookup_fmap, Hj. cbn. by rewrite Hab.
Qed.

Lemma page_fetched_at_most_once_witness :
  @crawl_iteration lenient_checks fragment_env
    "https://s.test/" "pdf_downloads" "https://s.test/page#b" []
    (mkVars ["https://s.test/page#b"%string]
            {["https://s.test/page"%string; "https://s.test/"%string]} ∅)
    initial_world
  = (Ok (mkVars [] {["https://s.test/page"%string; "https://s.test/"%string]}
                ∅),
     initial_world).
Proof.
  refine (proj1 (@page_fetched_at_most_once lenient_checks fragment_env
                   "https://s.test/"%string "pdf_downloads"%string)
            "https://s.test/page#b"%string []
            (mkVars ["https://s.test/page#b"%string]
               {["https://s.test/page"%string; "https://s.test/"%string]} ∅)
            initial_world "https://s.test/page"%string ltac:(evaluated) _).
  by vm_compute.
Defined.

Section frontier.
Context `{NC : NetlocChecks} `{E : Env}.

(** ** The frontier holds each URL once *)








End frontier.

Section fifo.
Context `{NC : NetlocChecks} `{E : Env}.




End fifo.



(** * Termination *)

Section termination.
Context `{NC : NetlocChecks} `{E : Env}.










End termination.


(** * Downloads *)

Section downloads.
Context `{NC : NetlocChecks} `{E : Env}.

Lemma downloads_ok_net tr l :
  Forall (λ e, is_net e = true) tr → downloads_ok l → downloads_ok (tr ++ l).
Proof.
  induction 1 as [|e tr He _ IH]; [done|]. intros Hl.
  cbn [app downloads_ok]. split; [|auto]. by destruct e.
Qed.

Lemma downloads_ok_NoDup l : downloads_ok l → NoDup (written l).
Proof.
  induction l as [|e l IH]; [constructor|]. intros [He Hl]. log_cons.
  destruct e as [| | | | |u p [|]| | |]; auto. apply NoDup_cons. auto.
Qed.

Lemma downloads_ok_split newer older u :
  downloads_ok (newer ++ EvDownload u :: older) → u ∉ written older.
Proof.
  induction newer as [|e newer IH]; cbn [app downloads_ok]; [tauto|].
  intros [_ Hl]. auto.
Qed.

Lemma downloads_inv_initial start_url :
  downloads_inv (initial_vars start_url) initial_world.
Proof. split; [|done]. intros u. cbn. by rewrite elem_of_nil. Qed.

Lemma downloads_inv_quiet v w v' w' :
  downloads_inv v w →
  written (log w') = written (log w) →
  downloads_ok (log w') →
  downloaded_pdf_urls v' = downloaded_pdf_urls v →
  downloads_inv v' w'.
Proof. unfold downloads_inv. by intros [Hiff _] -> ? ->. Qed.

Lemma downloads_inv_link start_url a n v w x :
  downloads_inv v w → link_step start_url a n v w x →
  post downloads_inv (λ w, downloads_ok (log w)) x.
Proof.
  intros HI Hstep.
  destruct Hstep as [? ? | ok tr w' ? Hdl Hev Hlog | ? ? ? ? | ? ?];
    cbn [post]; [exact HI | | | exact HI].
  - destruct HI as [Hiff Hok].
    assert (Hfresh : a ∉ written (log w)) by (by rewrite <- Hiff).
    destruct (download_events_quiet _ _ _ Hev) as (_ & _ & _ & Hw).
    assert (Hwritten : written (log w')
                       = (if ok then [a] else []) ++ written (log w)).
    { rewrite Hlog, written_app, Hw. by log_cons. }
    assert (Hok' : downloads_ok (log w')).
    { rewrite Hlog. destruct Hev as (p & tr' & Htr & Hnet & _).
      assert (Hbase : downloads_ok (tr' ++ EvDownload a :: log w)).
      { apply downloads_ok_net; [done|]. by split. }
      destruct Htr as [[-> ->] | ->]; [done|].
      cbn [app downloads_ok]. split; [|done].
      destruct ok; [|done]. rewrite written_app.
      destruct (net_is_quiet tr' Hnet) as (_ & _ & _ & ->). by log_cons. }
    split; [|exact Hok']. intros u. rewrite Hwritten.
    destruct ok; cbn [downloaded_pdf_urls app]; [|apply Hiff].
    rewrite elem_of_union, elem_of_singleton, elem_of_cons, Hiff. done.
  - apply (downloads_inv_quiet v w); [done| | |done]; cbn [log]; [by log_cons|].
    split; [done|]. by destruct HI.
Qed.

Lemma downloads_inv_iteration start_url download_folder current_url rest v w :
  urls_to_visit v = current_url :: rest →
  downloads_inv v w →
  post downloads_inv (λ w, downloads_ok (log w))
       (crawl_iteration start_url download_folder current_url rest v w).
Proof.
  intros Hfront HI.
  apply (crawl_iteration_post downloads_inv downloads_inv);
    [exact Hfront | exact HI | | | | | | ].
  - by intros ? [_ ?].
  - by intros ? ? [_ ?].
  - intros n _ _. by apply (downloads_inv_quiet v w); [| |destruct HI|].
  - intros n _ _. apply (downloads_inv_quiet v w); [done| | |done].
    + cbn [log]. by log_cons.
    + cbn [log downloads_ok]. by destruct HI.
  - intros v' w' c tr HI' Htr.
    apply (downloads_inv_quiet v' w'); [done| | |done]; cbn [log].
    + rewrite written_app. by destruct (net_is_quiet tr Htr) as (_ & _ & _ & ->).
    + apply downloads_ok_net; [done|]. by destruct HI'.
  - intros c kw resp href a n v' w' x _ _ _ _. apply downloads_inv_link.
Qed.

Lemma downloads_inv_steps start_url download_folder steps :
  post downloads_inv (λ w, downloads_ok (log w))
       (crawl_steps steps start_url download_folder (initial_vars start_url)
                    initial_world).
Proof.
  apply crawl_steps_post; [|apply downloads_inv_initial].
  intros. by apply downloads_inv_iteration.
Qed.

(** A link to a PDF that is not in the downloaded set: the download is
    called, and the set gets the URL exactly when the call returns
    [True]. *)
Lemma process_link_pdf_new start_url download_folder current_url href v w a n :
  build_absolute_url current_url href = Some a →
  normalized a = Some n →
  is_pdf a = true →
  a ∉ downloaded_pdf_urls v →
  ∃ ok w',
    download_pdf a download_folder (mkWorld (clock w) (EvDownload a :: log w))
    = (Ok ok, w')
    ∧ process_link start_url download_folder current_url href v w
      = (Ok (if ok then mkVars (urls_to_visit v) (visited_urls v)
                               ({[a]} ∪ downloaded_pdf_urls v)
             else v), w').
Proof.
  unfold normalized. intros Ha Hn Hpdf Hdl.
  destruct (urldefrag a) as [[n' f]|] eqn:Hd; [|done].
  destruct (download_pdf_events a download_folder
              (mkWorld (clock w) (EvDownload a :: log w)))
    as (ok & tr & c & Hrun & _).
  exists ok, (mkWorld c (tr ++ EvDownload a :: log w)). split; [exact Hrun|].
  unfold process_link, mbind, W_bind. rewrite Ha. cbn [lift mret W_ret].
  rewrite Hd. cbn [lift mret W_ret]. rewrite Hpdf.
  rewrite bool_decide_eq_true_2 by done. unfold emit. rewrite Hrun.
  by destruct ok.
Qed.

(** Any other link leaves the downloaded set as it is and calls no
    download. *)
Lemma process_link_no_download start_url download_folder current_url href
    v w a n v' w' :
  build_absolute_url current_url href = Some a →
  normalized a = Some n →
  is_pdf a = false ∨ a ∈ downloaded_pdf_urls v →
  process_link start_url download_folder current_url href v w = (Ok v', w') →
  downloaded_pdf_urls v' = downloaded_pdf_urls v
  ∧ downloads (log w') = downloads (log w)
  ∧ written (log w') = written (log w).
Proof.
  unfold normalized. intros Ha Hn Hcase Hrun.
  destruct (urldefrag a) as [[n' f]|] eqn:Hd; [|done].
  pose proof (process_link_step start_url download_folder current_url href
                v w a n' f Ha Hd) as Hstep.
  rewrite Hrun in Hstep.
  inversion Hstep as [? ? | ok tr w'' Hpdf Hdl Hev Hlog | |]; subst; auto.
  destruct Hcase; [congruence|done].
Qed.

End downloads.

(** C6. A download is called only for a PDF link whose exact URL is not in
    the downloaded set, and the URL enters the set exactly when the call
    returns [True]; after a failed call the set is as before, so the next
    link to the same URL calls the download again.  At any point of any
    crawl the downloaded set holds exactly the URLs whose file write
    completed, no URL has two completed writes, and no download was called
    for a URL whose write had completed. *)
Theorem downloaded_iff_success `{NC : NetlocChecks} `{E : Env}
    (start_url download_folder : string) :
  (∀ current_url href v w a n,
     build_absolute_url current_url href = Some a →
     normalized a = Some n →
     is_pdf a = true →
     a ∉ downloaded_pdf_urls v →
     ∃ ok w',
       download_pdf a download_folder
         (mkWorld (clock w) (EvDownload a :: log w)) = (Ok ok, w')
       ∧ process_link start_url download_folder current_url href v w
         = (Ok (if ok then mkVars (urls_to_visit v) (visited_urls v)
                                  ({[a]} ∪ downloaded_pdf_urls v)
                else v), w'))
  ∧ (∀ current_url href v w a n v' w',
       build_absolute_url current_url href = Some a →
       normalized a = Some n →
       is_pdf a = false ∨ a ∈ downloaded_pdf_urls v →
       process_link start_url download_folder current_url href v w
       = (Ok v', w') →
       downloaded_pdf_urls v' = downloaded_pdf_urls v
       ∧ downloads (log w') = downloads (log w)
       ∧ written (log w') = written (log w))
  ∧ (∀ steps,
       let x := crawl_steps steps start_url download_folder
                  (initial_vars start_url) initial_world in
       NoDup (written (log x.2))
       ∧ (∀ newer older u,
            log x.2 = newer ++ EvDownload u :: older → u ∉ written older)
       ∧ (∀ v, x.1 = Ok v →
               ∀ u, u ∈ downloaded_pdf_urls v ↔ u ∈ written (log x.2))).
Proof.
  split; [|split].
  - intros. by eapply process_link_pdf_new.
  - intros. by eapply process_link_no_download.
  - intros steps x.
    pose proof (downloads_inv_steps start_url download_folder steps) as Hpost.
    fold x in Hpost.
    assert (Hok : downloads_ok (log x.2)).
    { destruct x as [[v|e] w]; cbn [post snd] in *; [by destruct Hpost|done]. }
    split; [by apply downloads_ok_NoDup|]. split.
    + intros newer older u Hlog. rewrite Hlog in Hok.
      by eapply downloads_ok_split.
    + intros v Hv. destruct x as [r w]. cbn [fst snd] in *. subst r.
      by destruct Hpost.
Qed.

Lemma downloaded_iff_success_witness :
  let a := "https://s.test/doc.pdf"%string in
  let v := mkVars [] {["https://s.test/"%string]} ∅ in
  ∃ ok w',
    @download_pdf lenient_checks pdf_env a "pdf_downloads"
      (mkWorld 1 [EvDownload a]) = (Ok ok, w')
    ∧ @process_link lenient_checks pdf_env "https://s.test/" "pdf_downloads"
        "https://s.test/" "doc.pdf" v (mkWorld 1 [])
      = (Ok (if ok then mkVars [] {["https://s.test/"%string]} ({[a]} ∪ ∅)
             else v), w').
Proof.
  intros a v.
  refine (proj1 (@downloaded_iff_success lenient_checks pdf_env
                   "https://s.test/"%string "pdf_downloads"%string)
            "https://s.test/"%string "doc.pdf"%string v (mkWorld 1 []) a a
            ltac:(evaluated) ltac:(evaluated) ltac:(evaluated) _).
  apply not_elem_of_empty.
Defined.

(** The same PDF linked from two pages is written once. *)
Example same_pdf_from_two_pages :
  let a := "https://s.test/doc.pdf"%string in
  let kw := mkKwargs true 30 in
  ∃ v w,
    @crawl_and_download_pdfs lenient_checks pdf_env fresh_disk 5
      "https://s.test/" "pdf_downloads" "crawl_log.txt" = Some (Ok v, w)
    ∧ downloads (log w) = [a]
    ∧ List.filter (λ e, negb (is_net e) || bool_decide (e = EvGet a kw)) (trace w)
      = [EvLogFile "crawl_log.txt"; EvMakedirs "pdf_downloads";
         EvPoliteDelay; EvPageRequest "https://s.test/";
         EvEnqueue "https://s.test/a";
         EvDownload a; EvGet a kw; EvWrite a "pdf_downloads/doc.pdf" true;
         EvPoliteDelay; EvPageRequest "https://s.test/a"].
Proof. intros a kw. eexists _, _. split; [by vm_compute|]. by vm_compute. Qed.

(** A PDF whose download failed is downloaded again when the next page
    links to it. *)
Example failed_pdf_downloaded_again :
  let a := "https://s.test/doc.pdf"%string in
  ∃ v w,
    @crawl_and_download_pdfs lenient_checks failing_pdf_env fresh_disk 5
      "https://s.test/" "pdf_downloads" "crawl_log.txt" = Some (Ok v, w)
    ∧ downloads (log w) = [a; a]
    ∧ written (log w) = [a]
    ∧ List.filter (λ e, negb (is_net e)) (trace w)
      = [EvLogFile "crawl_log.txt"; EvMakedirs "pdf_downloads";
         EvPoliteDelay; EvPageRequest "https://s.test/";
         EvEnqueue "https://s.test/a";
         EvDownload a;
         EvPoliteDelay; EvPageRequest "https://s.test/a";
         EvDownload a; EvWrite a "pdf_downloads/doc.pdf" true].
Proof. intros a. eexists _, _. split; [by vm_compute|]. by vm_compute. Qed.

(** * Prefixes and suffixes *)

Lemma eqc_refl c : Str.eqc c c = true.
Proof. apply Ascii.eqb_refl. Qed.

(** [s.startswith(p)] says that [s] is [p] followed by something. *)
Lemma startswith_spec s p :
  Str.startswith s p = true ↔ ∃ rest, s = p +:+ rest.
Proof.
  revert s. induction p as [|b p IH]; intros s.
  - split; [|by destruct s]. intros _. by exists s.
  - destruct s as [|a s]; cbn [Str.startswith].
    + split; [done|]. by intros [rest [=]].
    + rewrite andb_true_iff, IH. unfold Str.eqc. rewrite Ascii.eqb_eq.
      split.
      * intros [-> [rest ->]]. by exists rest.
      * intros [rest [= -> ->]]. eauto.
Qed.

Lemma length_app s1 s2 :
  String.length (s1 +:+ s2) = (String.length s1 + String.length s2)%nat.
Proof. induction s1 as [|a s1 IH]; [done|]. rewrite app_String. cbn. by rewrite IH. Qed.

Lemma drop_app_length s1 s2 : Str.drop (String.length s1) (s1 +:+ s2) = s2.
Proof. induction s1 as [|a s1 IH]; [by destruct s2|]. by rewrite app_String. Qed.

Lemma take_drop n s : Str.take n s +:+ Str.drop n s = s.
Proof.
  revert s. induction n as [|n IH]; intros [|a s]; try done.
  cbn [Str.take Str.drop]. by rewrite app_String, IH.
Qed.

(** [s.endswith(p)] says that [s] is something followed by [p]. *)
Lemma endswith_spec s p :
  Str.endswith s p = true ↔ ∃ before, s = before +:+ p.
Proof.
  unfold Str.endswith. rewrite bool_decide_eq_true. split.
  - intros Hdrop. exists (Str.take (String.length s - String.length p) s).
    pose proof (take_drop (String.length s - String.length p) s) as Htd.
    by rewrite Hdrop in Htd.
  - intros [before ->]. rewrite length_app.
    replace (String.length before + String.length p - String.length p)%nat
      with (String.length before) by lia.
    apply drop_app_length.
Qed.

Lemma contains_app_sep c s1 s2 : Str.contains c (s1 +:+ String c s2) = true.
Proof.
  induction s1 as [|a s1 IH].
  - change (EmptyString +:+ String c s2) with (String c s2).
    cbn [Str.contains]. by rewrite eqc_refl.
  - rewrite app_String. cbn [Str.contains]. rewrite IH. apply orb_true_r.
Qed.

(** A suffix of [s1 + c + t] without [c] in it is a suffix of [t]. *)
Lemma suffix_after_sep c p t : ∀ s1 before,
  s1 +:+ String c t = before +:+ p →
  Str.contains c p = false →
  ∃ x, t = x +:+ p.
Proof.
  intros s1. induction s1 as [|a s1 IH]; intros before Heq Hc.
  - destruct before as [|b before].
    + change (EmptyString +:+ String c t) with (String c t) in Heq.
      change (EmptyString +:+ p) with p in Heq. subst p.
      cbn [Str.contains] in Hc. by rewrite eqc_refl in Hc.
    + rewrite app_String in Heq. injection Heq as _ ->. eauto.
  - rewrite app_String in Heq. destruct before as [|b before].
    + change (EmptyString +:+ p) with p in Heq. subst p.
      cbn [Str.contains] in Hc.
      rewrite contains_app_sep in Hc. by destruct (Str.eqc a c).
    + rewrite app_String in Heq. injection Heq as _ Heq. eauto.
Qed.

Lemma lower_app s1 s2 : Str.lower (s1 +:+ s2) = Str.lower s1 +:+ Str.lower s2.
Proof.
  induction s1 as [|a s1 IH]; [done|].
  rewrite app_String. cbn [Str.lower]. by rewrite IH, app_String.
Qed.

(** The PDF test looks at the end of the whole string: a URL that goes on
    after [#] or [?] with text that does not end in [.pdf] fails it. *)
Lemma is_pdf_trailing u sep t :
  sep = "#"%char ∨ sep = "?"%char →
  Str.endswith (Str.lower t) ".pdf" = false →
  is_pdf (u +:+ String sep t) = false.
Proof.
  intros Hsep Ht. unfold is_pdf.
  destruct (Str.endswith (Str.lower (u +:+ String sep t)) ".pdf") eqn:Hend;
    [|done].
  apply endswith_spec in Hend as [before Heq].
  rewrite lower_app in Heq. cbn [Str.lower] in Heq.
  assert (Hc : Str.contains (Str.lower_char sep) ".pdf" = false)
    by (by destruct Hsep as [-> | ->]).
  destruct (suffix_after_sep _ _ _ _ _ Heq Hc) as [x Hx].
  assert (Str.endswith (Str.lower t) ".pdf" = true)
    by (apply endswith_spec; eauto).
  congruence.
Qed.

(** * Link classification *)

Section classification.
Context `{NC : NetlocChecks} `{E : Env}.

(** A link that is not a PDF is enqueued when it passes the scope test and
    the two membership tests, and is dropped otherwise. *)
Lemma process_link_page start_url download_folder current_url href v w a n f :
  build_absolute_url current_url href = Some a →
  urldefrag a = Some (n, f) →
  is_pdf a = false →
  process_link start_url download_folder current_url href v w
  = if Str.startswith n start_url && bool_decide (n ∉ visited_urls v)
       && bool_decide (a ∉ urls_to_visit v)
    then (Ok (mkVars (urls_to_visit v ++ [a]) (visited_urls v)
                     (downloaded_pdf_urls v)),
          mkWorld (clock w) (EvEnqueue a :: log w))
    else (Ok v, w).
Proof.
  intros Ha Hd Hpdf. unfold process_link, mbind, W_bind.
  rewrite Ha. cbn [lift mret W_ret]. rewrite Hd. cbn [lift mret W_ret].
  rewrite Hpdf.
  destruct (Str.startswith n start_url && bool_decide (n ∉ visited_urls v));
    [|done].
  by destruct (bool_decide (a ∉ urls_to_visit v)).
Qed.

(** A link to a PDF not yet downloaded: the download is called and starts
    with a GET of the link. *)
Lemma process_link_downloads start_url download_folder current_url href
    v w a n :
  build_absolute_url current_url href = Some a →
  normalized a = Some n →
  is_pdf a = true →
  a ∉ downloaded_pdf_urls v →
  ∃ tr,
    trace (process_link start_url download_folder current_url href v w).2
    = trace w ++ EvDownload a :: EvGet a (mkKwargs true 30) :: tr.
Proof.
  unfold normalized. intros Ha Hn Hpdf Hdl.
  destruct (urldefrag a) as [[n' f]|] eqn:Hd; [|done].
  pose proof (process_link_step start_url download_folder current_url href
                v w a n' f Ha Hd) as Hstep.
  destruct (process_link _ _ _ _ _ _) as [r w'].
  inversion Hstep as [? ? | ok tr w'' ? ? Hev Hlog | |]; subst;
    [done | | congruence..].
  destruct Hev as (p & tr' & Htr & _ & tr'' & ->).
  unfold trace. cbn [snd]. rewrite Hlog.
  destruct Htr as [[-> _] | ->].
  - exists (rev tr''). rewrite !rev_app_distr. cbn [rev app].
    by rewrite <- !app_assoc.
  - exists (rev tr'' ++ [EvWrite a p ok]). cbn [app rev].
    rewrite !rev_app_distr. cbn [rev app]. rewrite ?rev_app_distr.
    cbn [rev app]. by rewrite <- ?app_assoc.
Qed.

End classification.

(** C2 as stated fails: [https://site.example.evil.com/section/] does not
    start with [https://site.example/section/], whose last [/] comes right
    after the host, and a link to it is dropped. *)
Lemma evil_host_is_out_of_scope :
  let v := mkVars [] {["https://site.example/section/"%string]} ∅ in
  @build_absolute_url lenient_checks "https://site.example/section/"
    "https://site.example.evil.com/section/"
  = Some "https://site.example.evil.com/section/"%string
  ∧ is_pdf "https://site.example.evil.com/section/" = false
  ∧ @process_link lenient_checks fragment_env "https://site.example/section/"
      "pdf_downloads" "https://site.example/section/"
      "https://site.example.evil.com/section/" v initial_world
    = (Ok v, initial_world).
Proof. intros v. split; [evaluated|]. split; [evaluated|]. evaluated. Qed.

(** C2, amended. With the start URL [https://site.example/section/], a
    link that is not a PDF, not visited and not in the frontier is enqueued
    when its fragment-stripped form is [https://site.example/section/sub],
    and dropped when it is [https://site.example/other] or
    [https://site.example.evil.com/section/].  The scope test is a test on
    strings: for any start URL, such a link is enqueued exactly when its
    fragment-stripped form is the start URL followed by any text, so with
    the start URL [https://site.example] the link to
    [https://site.example.evil.com/section/] is enqueued. *)
Theorem scope_is_a_string_prefix `{NC : NetlocChecks} `{E : Env}
    (download_folder current_url href : string) (v : vars) (w : world)
    (a n f : string) :
  build_absolute_url current_url href = Some a →
  urldefrag a = Some (n, f) →
  is_pdf a = false →
  let start := "https://site.example/section/"%string in
  let enqueue :=
    (Ok (mkVars (urls_to_visit v ++ [a]) (visited_urls v)
                (downloaded_pdf_urls v)),
     mkWorld (clock w) (EvEnqueue a :: log w)) in
  (n = "https://site.example/section/sub"%string →
   n ∉ visited_urls v → a ∉ urls_to_visit v →
   process_link start download_folder current_url href v w = enqueue)
  ∧ (n = "https://site.example/other"%string →
     process_link start download_folder current_url href v w = (Ok v, w))
  ∧ (n = "https://site.example.evil.com/section/"%string →
     process_link start download_folder current_url href v w = (Ok v, w))
  ∧ (∀ start_url,
       n ∉ visited_urls v → a ∉ urls_to_visit v →
       (∃ rest, n = start_url +:+ rest)
       ↔ process_link start_url download_folder current_url href v w
         = enqueue)
  ∧ (n = "https://site.example.evil.com/section/"%string →
     n ∉ visited_urls v → a ∉ urls_to_visit v →
     process_link "https://site.example" download_folder current_url href v w
     = enqueue).
Proof.
  intros Ha Hd Hpdf start enqueue.
  pose proof (λ start_url,
                process_link_page start_url download_folder current_url href
                  v w a n f Ha Hd Hpdf) as Hpage.
  split; [|split; [|split; [|split]]].
  - intros -> Hvis Hq. rewrite Hpage.
    by rewrite !bool_decide_eq_true_2 by done.
  - intros ->. by rewrite Hpage.
  - intros ->. by rewrite Hpage.
  - intros start_url Hvis Hq. rewrite Hpage, <- startswith_spec.
    rewrite !bool_decide_eq_true_2 by done.
    destruct (Str.startswith n start_url); cbn [andb]; [done|].
    split; [done|]. intros [= _ Hw].
    apply (f_equal (λ w, length (log w))) in Hw. cbn [log length] in Hw. lia.
  - intros -> Hvis Hq. rewrite Hpage.
    by rewrite !bool_decide_eq_true_2 by done.
Qed.

Lemma scope_is_a_string_prefix_witness :
  let a := "https://site.example/section/sub"%string in
  let v := mkVars [] {["https://site.example/section/"%string]} ∅ in
  @process_link lenient_checks fragment_env "https://site.example/section/"
    "pdf_downloads" "https://site.example/section/" "sub" v initial_world
  = (Ok (mkVars [a] {["https://site.example/section/"%string]} ∅),
     mkWorld 0 [EvEnqueue a]).
Proof.
  intros a v.
  refine (proj1 (@scope_is_a_string_prefix lenient_checks fragment_env
                   "pdf_downloads"%string "https://site.example/section/"%string
                   "sub"%string v initial_world a a EmptyString
                   ltac:(evaluated) ltac:(evaluated) ltac:(evaluated))
            eq_refl _ _).
  - by vm_compute.
  - apply not_elem_of_nil.
Defined.

(** C9 as stated fails: [https://x/doc.pdf#a.pdf] has a path that ends in
    [.pdf] and carries a fragment, and is taken for a PDF. *)
Lemma fragment_ending_in_pdf_is_pdf :
  ¬ (∀ a p,
       @urlparse lenient_checks a EmptyString = Some p →
       Str.endswith (Str.lower (path p)) ".pdf" = true →
       fragment p ≠ EmptyString ∨ query p ≠ EmptyString →
       is_pdf a = false).
Proof.
  intros H.
  set (p := mkParseResult "https" "x" "/doc.pdf" EmptyString EmptyString
                          "a.pdf").
  assert (Hp : @urlparse lenient_checks "https://x/doc.pdf#a.pdf" EmptyString
               = Some p) by evaluated.
  assert (Hpath : Str.endswith (Str.lower (path p)) ".pdf" = true)
    by evaluated.
  assert (Hfrag : fragment p ≠ EmptyString) by discriminate.
  pose proof (H _ p Hp Hpath (or_introl Hfrag)) as Hpdf.
  vm_compute in Hpdf. discriminate Hpdf.
Qed.

(** C9, amended. The PDF test is made on the whole resolved URL, so a link
    that goes on after a [#] or a [?] with text that does not itself end in
    [.pdf], such as [https://x/doc.pdf#page=3] and
    [https://x/doc.pdf?v=2], is not taken for a PDF: no download is
    called, the downloaded set is as before, and the link is enqueued when
    it is in scope, not visited and not in the frontier, and dropped
    otherwise. *)
Theorem pdf_test_on_whole_url `{NC : NetlocChecks} `{E : Env}
    (start_url download_folder current_url href : string) (v : vars)
    (w : world) (u : string) (sep : ascii) (t n f : string) :
  let a := u +:+ String sep t in
  sep = "#"%char ∨ sep = "?"%char →
  Str.endswith (Str.lower t) ".pdf" = false →
  build_absolute_url current_url href = Some a →
  urldefrag a = Some (n, f) →
  is_pdf a = false
  ∧ process_link start_url download_folder current_url href v w
    = (if Str.startswith n start_url && bool_decide (n ∉ visited_urls v)
          && bool_decide (a ∉ urls_to_visit v)
       then (Ok (mkVars (urls_to_visit v ++ [a]) (visited_urls v)
                        (downloaded_pdf_urls v)),
             mkWorld (clock w) (EvEnqueue a :: log w))
       else (Ok v, w))
  ∧ downloads
      (log (process_link start_url download_folder current_url href v w).2)
    = downloads (log w)
  ∧ is_pdf "https://x/doc.pdf#page=3" = false
  ∧ is_pdf "https://x/doc.pdf?v=2" = false.
Proof.
  intros a Hsep Ht Ha Hd.
  pose proof (is_pdf_trailing u sep t Hsep Ht) as Hpdf. fold a in Hpdf.
  pose proof (process_link_page start_url download_folder current_url href
                v w a n f Ha Hd Hpdf) as Hpage.
  split; [exact Hpdf|]. split; [exact Hpage|].
  split; [|split; evaluated].
  rewrite Hpage.
  destruct (_ && _); cbn [snd log]; [by log_cons|done].
Qed.

Lemma pdf_test_on_whole_url_witness :
  let a := "https://x/doc.pdf#page=3"%string in
  is_pdf a = false
  ∧ @process_link lenient_checks fragment_env "https://x/" "pdf_downloads"
      "https://x/" "doc.pdf#page=3" (mkVars [] {["https://x/"%string]} ∅)
      initial_world
    = (Ok (mkVars [a] {["https://x/"%string]} ∅), mkWorld 0 [EvEnqueue a]).
Proof.
  intros a.
  pose proof (@pdf_test_on_whole_url lenient_checks fragment_env
                "https://x/"%string "pdf_downloads"%string "https://x/"%string
                "doc.pdf#page=3"%string (mkVars [] {["https://x/"%string]} ∅)
                initial_world "https://x/doc.pdf"%string "#"%char
                "page=3"%string "https://x/doc.pdf"%string "page=3"%string
                (or_introl eq_refl) ltac:(evaluated) ltac:(evaluated)
                ltac:(evaluated))
    as (Hpdf & Hrun & _).
  split; [exact Hpdf|]. rewrite Hrun. evaluated.
Defined.

(** C10 as stated fails: the link [http:////[a?b?c#d.pdf] on the page
    [https://x/] resolves to [http://[a?c#d.pdf], which ends in [.pdf] and
    is not in the downloaded set, and no download is called: [urldefrag]
    raises [ValueError] on the unclosed bracket of the host before the PDF
    test is made. *)
Lemma unsplittable_pdf_link_is_not_downloaded :
  let v := mkVars [] {["https://x/"%string]} ∅ in
  let a := "http://[a?c#d.pdf"%string in
  @build_absolute_url lenient_checks "https://x/" "http:////[a?b?c#d.pdf"
  = Some a
  ∧ is_pdf a = true
  ∧ (a ∉ downloaded_pdf_urls v)
  ∧ @urldefrag lenient_checks a = None
  ∧ @process_link lenient_checks pdf_env "https://site.example/section/"
      "pdf_downloads" "https://x/" "http:////[a?b?c#d.pdf" v initial_world
    = (Raise ValueError, initial_world)
  ∧ ¬ (∀ current_url href v w a,
         @build_absolute_url lenient_checks current_url href = Some a →
         is_pdf a = true →
         a ∉ downloaded_pdf_urls v →
         EvDownload a
         ∈ log (@process_link lenient_checks pdf_env
                  "https://site.example/section/" "pdf_downloads"
                  current_url href v w).2).
Proof.
  intros v a.
  assert (Ha : @build_absolute_url lenient_checks "https://x/"
                 "http:////[a?b?c#d.pdf" = Some a) by evaluated.
  assert (Hpdf : is_pdf a = true) by evaluated.
  assert (Hdl : a ∉ downloaded_pdf_urls v) by apply not_elem_of_empty.
  assert (Hrun : @process_link lenient_checks pdf_env
                   "https://site.example/section/" "pdf_downloads"
                   "https://x/" "http:////[a?b?c#d.pdf" v initial_world
                 = (Raise ValueError, initial_world)) by evaluated.
  split; [exact Ha|]. split; [exact Hpdf|]. split; [exact Hdl|].
  split; [evaluated|]. split; [exact Hrun|].
  intros H. specialize (H _ _ v initial_world a Ha Hpdf Hdl).
  rewrite Hrun in H. by apply elem_of_nil in H.
Qed.

(** C10, amended. The scope test is made on links that are not PDFs only:
    whatever the start URL, a link from which [urldefrag] can strip the
    fragment, that ends in [.pdf], whatever its case, and is not in the
    downloaded set has its download called, which starts with a GET of the
    link.  So [https://other.example/a.pdf] is downloaded in a crawl of
    [https://site.example/section/]. *)
Theorem pdf_downloaded_whatever_the_scope `{NC : NetlocChecks} `{E : Env}
    (start_url download_folder current_url href : string) (v : vars)
    (w : world) (a n : string) :
  build_absolute_url current_url href = Some a →
  normalized a = Some n →
  is_pdf a = true →
  a ∉ downloaded_pdf_urls v →
  (∃ tr,
     trace (process_link start_url download_folder current_url href v w).2
     = trace w ++ EvDownload a :: EvGet a (mkKwargs true 30) :: tr)
  ∧ Str.startswith "https://other.example/a.pdf"
      "https://site.example/section/" = false
  ∧ is_pdf "https://other.example/a.pdf" = true
  ∧ is_pdf "https://other.example/A.PDF" = true.
Proof.
  intros Ha Hn Hpdf Hdl. split; [|split; [|split]; evaluated].
  by eapply process_link_downloads.
Qed.

Lemma pdf_downloaded_whatever_the_scope_witness :
  let a := "https://other.example/a.pdf"%string in
  ∃ tr,
    trace (@process_link lenient_checks pdf_env
             "https://site.example/section/" "pdf_downloads"
             "https://site.example/section/" "https://other.example/a.pdf"
             (mkVars [] {["https://site.example/section/"%string]} ∅)
             initial_world).2
    = trace initial_world ++ EvDownload a :: EvGet a (mkKwargs true 30) :: tr.
Proof.
  intros a.
  refine (proj1 (@pdf_downloaded_whatever_the_scope lenient_checks pdf_env
                   "https://site.example/section/"%string
                   "pdf_downloads"%string
                   "https://site.example/section/"%string
                   "https://other.example/a.pdf"%string
                   (mkVars [] {["https://site.example/section/"%string]} ∅)
                   initial_world a a ltac:(evaluated) ltac:(evaluated)
                   ltac:(evaluated) _)).
  apply not_elem_of_empty.
Defined.

(** * Failures of the fetcher *)

Section failures.
Context `{NC : NetlocChecks} `{E : Env}.

(** When no GET raises anything but a [RequestException], the retry loop
    returns. *)
Lemma attempts_return url kw n : ∀ i w,
  (∀ j e, (j < n)%nat → ¬ crashes (clock w + j) url kw e) →
  ∃ o, (attempts (seq i n) url kw w).1 = Ok o.
Proof.
  induction n as [|n IH]; intros i w Hsafe; [by exists None|].
  cbn [seq]. rewrite attempts_cons. unfold try_except.
  destruct (attempt_cases (clock w) url kw) as [[resp Hs] | [Hf | [e Hc]]].
  - rewrite (attempt_body_succeeds _ _ _ _ Hs). eauto.
  - rewrite (attempt_body_fails _ _ _ Hf). cbn [is_RequestException].
    destruct (i + 1 =? RETRIES)%nat; [by exists None|].
    unfold sleep, emit, mbind, W_bind. cbn [after_get clock log].
    apply IH. intros j e Hj. cbn [clock].
    replace (S (clock w) + j)%nat with (clock w + S j)%nat by lia.
    apply Hsafe. lia.
  - exfalso. apply (Hsafe 0%nat e); [lia|]. by rewrite Nat.add_0_r.
Qed.

End failures.

(** C7 as stated fails: a status that is not 2xx, such as 304, on every
    attempt does not make [make_request_with_retries] return [None]; the
    first response is returned. *)
Lemma status_304_is_returned :
  ¬ (∀ (E : Env) url kw w,
       (∀ j, (j < 3)%nat →
             session_get (clock w + j) url kw = Throws RequestException
             ∨ ∃ resp, session_get (clock w + j) url kw = Returns resp
                       ∧ ¬ (200 ≤ status_code resp < 300)%Z) →
       (make_request_with_retries url kw w).1 = Ok None).
Proof.
  intros H.
  specialize (H not_modified_env "https://x/"%string (mkKwargs false 15)
                initial_world).
  discriminate H. intros j _. right. eexists. split; [reflexivity|].
  cbn. lia.
Qed.

(** C7, amended. When [session.get] raises nothing but instances of
    [RequestException], [make_request_with_retries] raises nothing.  A 4xx
    or 5xx status or a [RequestException] on each of the three attempts
    makes it return [None] after three GETs; any other status is returned
    as a response.  When the request of a page returns [None] the crawl
    loop goes on with the rest of the frontier: the URL is not put back,
    and its fragment-stripped form stays in the visited set. *)
Theorem fetch_failure_skips_the_url `{NC : NetlocChecks} `{E : Env} :
  (∀ url kw w,
     (∀ j e, (j < 3)%nat → ¬ crashes (clock w + j) url kw e) →
     ∃ o, (make_request_with_retries url kw w).1 = Ok o)
  ∧ (∀ url kw w,
       (∀ j, (j < 3)%nat → fails (clock w + j) url kw) →
       (make_request_with_retries url kw w).1 = Ok None
       ∧ count_gets (trace (make_request_with_retries url kw w).2)
         = (count_gets (trace w) + 3)%nat)
  ∧ (∀ url kw w resp,
       session_get (clock w) url kw = Returns resp →
       ¬ (400 ≤ status_code resp < 600)%Z →
       (make_request_with_retries url kw w).1 = Ok (Some resp))
  ∧ (∀ start_url download_folder current_url rest v w n w1 fuel,
       urls_to_visit v = current_url :: rest →
       normalized current_url = Some n →
       n ∉ visited_urls v →
       make_request_with_retries current_url (mkKwargs false 15)
         (mkWorld (clock w)
                  (EvPageRequest current_url :: EvPoliteDelay :: log w))
       = (Ok None, w1) →
       crawl_loop (S fuel) start_url download_folder v w
       = crawl_loop fuel start_url download_folder
           (mkVars rest ({[n]} ∪ visited_urls v) (downloaded_pdf_urls v)) w1).
Proof.
  split; [|split; [|split]].
  - intros url kw w Hsafe. by apply attempts_return.
  - intros url kw w Hfail.
    destruct (attempts_all_fail url kw 2 0 w eq_refl Hfail)
      as (w' & Hrun & _ & Hlog).
    unfold make_request_with_retries.
    change (seq 0 RETRIES) with (seq 0 3). rewrite Hrun. cbn [fst snd].
    split; [done|]. unfold trace. rewrite Hlog.
    change (EvGet url kw :: rev (backoff_trace url kw 0 2) ++ log w)
      with ((EvGet url kw :: rev (backoff_trace url kw 0 2)) ++ log w).
    rewrite rev_app_distr. unfold count_gets.
    rewrite List.filter_app, List.length_app. cbn. lia.
  - intros url kw w resp Hget Hst.
    destruct (attempts_first_success url kw resp RETRIES 0 0 w)
      as (w' & Hrun & _); [unfold RETRIES; lia | done | lia | |].
    + rewrite Nat.add_0_r. by split.
    + unfold make_request_with_retries. by rewrite Hrun.
  - intros start_url download_folder current_url rest v w n w1 fuel
      Hfront Hn Hvis Hrun.
    cbn [crawl_loop]. rewrite Hfront.
    rewrite (crawl_iteration_new _ _ _ _ _ _ n Hn Hvis). cbn zeta.
    by rewrite Hrun.
Qed.

Lemma fetch_failure_skips_the_url_witness :
  ∃ o,
    (@make_request_with_retries flaky_env "https://x/" (mkKwargs false 15)
       initial_world).1 = Ok o.
Proof.
  refine (proj1 (@fetch_failure_skips_the_url lenient_checks flaky_env)
            "https://x/"%string (mkKwargs false 15) initial_world _).
  intros j e _ [Hget _]. unfold session_get, flaky_env in Hget.
  destruct (_ <? 2)%nat; discriminate Hget.
Defined.

(** * More on the PDF downloader *)

Lemma rfind_None c s : Str.rfind c s = None → Str.contains c s = false.
Proof.
  induction s as [|a s IH]; [done|]. cbn [Str.rfind Str.contains].
  destruct (Str.rfind c s); [done|]. destruct (Str.eqc a c); [done|]. auto.
Qed.

(** [os.path.basename] returns a name without [/]. *)
Lemma basename_no_slash p : Str.contains "/" (basename p) = false.
Proof.
  unfold basename. induction p as [|a p IH]; [done|].
  cbn [Str.rfind]. destruct (Str.rfind "/" p) as [i|] eqn:Hr.
  - replace (S i + 1)%nat with (S (i + 1)) by lia. exact IH.
  - destruct (Str.eqc a "/") eqn:Ha; cbn [Nat.add Str.drop].
    + by apply rfind_None.
    + cbn [Str.contains]. rewrite Ha. by apply rfind_None.
Qed.

(** The name is empty exactly for the empty path and for a path that ends
    in [/]. *)
Lemma basename_empty p :
  basename p = EmptyString ↔ p = EmptyString ∨ Str.endswith p "/" = true.
Proof.
  rewrite endswith_spec. unfold basename.
  induction p as [|a p IH]; [by split; [left|]|].
  cbn [Str.rfind]. destruct (Str.rfind "/" p) as [i|] eqn:Hr.
  - replace (S i + 1)%nat with (S (i + 1)) by lia. cbn [Str.drop].
    rewrite IH. split.
    + intros [-> | [before ->]]; [done|]. right. by exists (String a before).
    + intros [[=] | [before Heq]]. right.
      destruct before as [|b before].
      * injection Heq as -> ->. done.
      * rewrite app_String in Heq. injection Heq as -> ->. eauto.
  - destruct (Str.eqc a "/") eqn:Ha; cbn [Nat.add Str.drop].
    + apply Ascii.eqb_eq in Ha as ->. split.
      * intros ->. right. by exists EmptyString.
      * intros [[=] | [before Heq]]. destruct before as [|b before].
        -- by injection Heq.
        -- rewrite app_String in Heq. injection Heq as _ ->.
           apply rfind_None in Hr. by rewrite contains_app_sep in Hr.
    + split; [done|]. intros [[=] | [before Heq]].
      destruct before as [|b before].
      * injection Heq as -> ->. by rewrite eqc_refl in Ha.
      * rewrite app_String in Heq. injection Heq as -> ->.
        apply rfind_None in Hr. by rewrite contains_app_sep in Hr.
Qed.

Section downloader.
Context `{NC : NetlocChecks} `{E : Env}.

(** The name under which a PDF is stored is never empty and has no [/]:
    the file is a direct child of the download folder. *)
Lemma download_filename_plain pdf_url name :
  download_filename pdf_url = Some name →
  name ≠ EmptyString ∧ Str.contains "/" name = false.
Proof.
  unfold download_filename. destruct (urlparse pdf_url EmptyString) as [p|];
    [|done].
  cbn. intros [= <-].
  destruct (basename (path p)) as [|a s] eqn:Hb; cbn [Str.nonempty].
  - split; [done|]. evaluated.
  - split; [done|]. rewrite <- Hb. apply basename_no_slash.
Qed.

(** [download_pdf] in full: it never raises; it returns [False] without
    touching a file when the request fails or raises, or when the URL does
    not parse; otherwise it writes the body to the file named after the
    URL in the download folder and returns whether the write completed. *)
Lemma download_pdf_cases pdf_url download_folder w :
  let '(r, w1) := make_request_with_retries pdf_url (mkKwargs true 30) w in
  download_pdf pdf_url download_folder w
  = match r, download_filename pdf_url with
    | Ok (Some response), Some name =>
        let file_path := path_join download_folder name in
        let ok := write_body (clock w1) file_path response in
        (Ok ok, mkWorld (S (clock w1))
                  (EvWrite pdf_url file_path ok :: log w1))
    | _, _ => (Ok false, w1)
    end.
Proof.
  unfold download_pdf, try_except, mbind, W_bind, download_filename.
  destruct (make_request_with_retries _ _ _) as [[[resp|]|e] w1]; try done.
  destruct (urlparse pdf_url EmptyString) as [p|]; [|done].
  cbn [lift mret W_ret option_bind mbind]. unfold write_file.
  by destruct (write_body _ _ _).
Qed.

End downloader.

(** X1. [download_pdf] never raises.  It returns [False] and touches no
    file when the request returns [None] or raises (whatever is raised) or
    when the URL does not parse; with a response in hand, and a URL that
    parses, it writes one file, [download_folder/name], right after the
    request, and returns [True] exactly when the write completed.  It
    makes at most 3 GETs and at most one file write. *)
Theorem download_pdf_never_raises `{NC : NetlocChecks} `{E : Env}
    (pdf_url download_folder : string) (w : world) :
  ∃ ok tr c,
    download_pdf pdf_url download_folder w = (Ok ok, mkWorld c (tr ++ log w))
    ∧ (count_gets tr ≤ 3)%nat
    ∧ (length (List.filter is_write tr) ≤ 1)%nat
    ∧ (ok = true ↔ ∃ file_path, EvWrite pdf_url file_path true ∈ tr)
    ∧ (∀ e, e ∈ tr → is_net e = true ∨ is_write e = true)
    ∧ ((∀ response,
          (make_request_with_retries pdf_url (mkKwargs true 30) w).1
          ≠ Ok (Some response)) →
       ok = false ∧ List.filter is_write tr = [])
    ∧ (download_filename pdf_url = None →
       ok = false ∧ List.filter is_write tr = [])
    ∧ (∀ response w1 name,
         make_request_with_retries pdf_url (mkKwargs true 30) w
         = (Ok (Some response), w1) →
         download_filename pdf_url = Some name →
         let file_path := path_join download_folder name in
         ok = write_body (clock w1) file_path response
         ∧ c = S (clock w1)
         ∧ tr ++ log w = EvWrite pdf_url file_path ok :: log w1
         ∧ List.filter is_write tr = [EvWrite pdf_url file_path ok]).
Proof.
  pose proof (download_pdf_cases pdf_url download_folder w) as Hcases.
  destruct (attempts_events pdf_url (mkKwargs true 30) RETRIES 0 w)
    as (tr1 & Hlog & Hnet & Hcount & _).
  fold (make_request_with_retries pdf_url (mkKwargs true 30) w) in Hlog.
  destruct (make_request_with_retries pdf_url (mkKwargs true 30) w)
    as [r [c1 l1]] eqn:Hrun.
  cbn [snd log fst] in *. subst l1.
  assert (Hnowrite : List.filter is_write tr1 = []).
  { clear -Hnet. induction Hnet as [|e tr He _ IH]; [done|].
    cbn [List.filter]. by destruct e. }
  assert (Hnotin : ∀ p b, EvWrite pdf_url p b ∉ tr1).
  { intros p b Hin. rewrite Forall_forall in Hnet. by apply Hnet in Hin. }
  assert (Hfalse :
    download_pdf pdf_url download_folder w
    = (Ok false, mkWorld c1 (tr1 ++ log w)) →
    (∀ response name, r = Ok (Some response) →
                      download_filename pdf_url = Some name → False) →
    ∃ ok tr c,
      download_pdf pdf_url download_folder w
      = (Ok ok, mkWorld c (tr ++ log w))
      ∧ (count_gets tr ≤ 3)%nat
      ∧ (length (List.filter is_write tr) ≤ 1)%nat
      ∧ (ok = true ↔ ∃ file_path, EvWrite pdf_url file_path true ∈ tr)
      ∧ (∀ e, e ∈ tr → is_net e = true ∨ is_write e = true)
      ∧ ((∀ response, r ≠ Ok (Some response)) →
         ok = false ∧ List.filter is_write tr = [])
      ∧ (download_filename pdf_url = None →
         ok = false ∧ List.filter is_write tr = [])
      ∧ (∀ response w1 name,
           (r, mkWorld c1 (tr1 ++ log w)) = (Ok (Some response), w1) →
           download_filename pdf_url = Some name →
           let file_path := path_join download_folder name in
           ok = write_body (clock w1) file_path response
           ∧ c = S (clock w1)
           ∧ tr ++ log w = EvWrite pdf_url file_path ok :: log w1
           ∧ List.filter is_write tr = [EvWrite pdf_url file_path ok])).
  { intros Heq Hno. exists false, tr1, c1. rewrite Hnowrite.
    split; [done|]. split; [done|]. split; [cbn; lia|]. split; [|split].
    - split; [done|]. intros [p Hin]. by apply Hnotin in Hin.
    - intros e He. left. rewrite Forall_forall in Hnet. auto.
    - split; [done|]. split; [done|].
      intros response w1 name [= -> _] Hname. by destruct (Hno response name). }
  destruct r as [[resp|]|e]; [|by apply Hfalse..].
  destruct (download_filename pdf_url) as [name|]; [|by apply Hfalse].
  cbn [clock log] in Hcases.
  set (file_path := path_join download_folder name) in *.
  set (ok := write_body c1 file_path resp) in *.
  exists ok, (EvWrite pdf_url file_path ok :: tr1), (S c1).
  split; [exact Hcases|].
  split; [unfold count_gets in *; cbn [List.filter is_get]; done|].
  split; [cbn [List.filter is_write]; rewrite Hnowrite; cbn; lia|].
  split; [|split; [|split; [|split]]].
  - split.
    + intros ->. exists file_path. by left.
    + intros [p [Hin | Hin]%elem_of_cons]; [by injection Hin|].
      by apply Hnotin in Hin.
  - intros e [-> | He]%elem_of_cons; [by right|]. left.
    rewrite Forall_forall in Hnet. auto.
  - intros Hne. by destruct (Hne resp).
  - done.
  - intros response w1 name' [= <- <-] [= <-]. cbn [clock log].
    fold file_path. fold ok. split; [done|]. split; [done|]. split; [done|].
    cbn [List.filter is_write]. by rewrite Hnowrite.
Qed.

(** X2. When [download_pdf] returns [True], the file it wrote is
    [download_folder], a [/] unless the folder is empty or ends in one, and
    a name that is not empty and has no [/] in it: the last segment of the
    path of the URL or, when the path is empty or ends in [/],
    [downloaded_file.pdf]. *)
Theorem download_file_in_folder `{NC : NetlocChecks} `{E : Env}
    (pdf_url download_folder : string) (w w' : world) :
  download_pdf pdf_url download_folder w = (Ok true, w') →
  ∃ parsed name older,
    urlparse pdf_url EmptyString = Some parsed
    ∧ log w' = EvWrite pdf_url (path_join download_folder name) true :: older
    ∧ name ≠ EmptyString
    ∧ Str.contains "/" name = false
    ∧ (basename (path parsed) ≠ EmptyString → name = basename (path parsed))
    ∧ (path parsed = EmptyString ∨ Str.endswith (path parsed) "/" = true →
       name = "downloaded_file.pdf"%string)
    ∧ path_join download_folder name
      = (if negb (Str.nonempty download_folder)
            || Str.endswith download_folder "/"
         then download_folder +:+ name
         else download_folder +:+ "/" +:+ name).
Proof.
  intros Hrun.
  pose proof (download_pdf_cases pdf_url download_folder w) as Hcases.
  destruct (make_request_with_retries _ _ _) as [r w1].
  rewrite Hrun in Hcases.
  destruct r as [[resp|]|e]; [|done..].
  destruct (download_filename pdf_url) as [name|] eqn:Hname; [|done].
  destruct (download_filename_plain _ _ Hname) as [Hne Hslash].
  cbn zeta in Hcases. injection Hcases as Hok ->.
  unfold download_filename in Hname.
  destruct (urlparse pdf_url EmptyString) as [parsed|]; [|done].
  cbn in Hname. injection Hname as Hname.
  exists parsed, name, (log w1). split; [done|].
  split; [cbn [log]; by rewrite <- Hok|].
  split; [done|]. split; [done|]. split; [|split].
  - intros Hb. rewrite <- Hname. by destruct (basename (path parsed)).
  - intros Hp%basename_empty. rewrite <- Hname, Hp. done.
  - unfold path_join. destruct name as [|a name]; [done|].
    cbn [Str.startswith]. cbn [Str.contains] in Hslash.
    apply orb_false_iff in Hslash as [-> _]. done.
Qed.

Lemma download_file_in_folder_witness :
  ∃ parsed name older,
    @urlparse lenient_checks "https://s.test/doc.pdf" EmptyString = Some parsed
    ∧ [EvWrite "https://s.test/doc.pdf" "pdf_downloads/doc.pdf" true;
       EvGet "https://s.test/doc.pdf" (mkKwargs true 30)]
      = EvWrite "https://s.test/doc.pdf" (path_join "pdf_downloads" name) true
          :: older
    ∧ name ≠ EmptyString
    ∧ Str.contains "/" name = false
    ∧ (basename (path parsed) ≠ EmptyString → name = basename (path parsed))
    ∧ (path parsed = EmptyString ∨ Str.endswith (path parsed) "/" = true →
       name = "downloaded_file.pdf"%string)
    ∧ path_join "pdf_downloads" name
      = (if negb (Str.nonempty "pdf_downloads")
            || Str.endswith "pdf_downloads" "/"
         then "pdf_downloads" +:+ name
         else "pdf_downloads" +:+ "/" +:+ name)%string.
Proof.
  exact (@download_file_in_folder lenient_checks pdf_env
           "https://s.test/doc.pdf"%string "pdf_downloads"%string
           initial_world
           (mkWorld 2 [EvWrite "https://s.test/doc.pdf"
                         "pdf_downloads/doc.pdf" true;
                       EvGet "https://s.test/doc.pdf" (mkKwargs true 30)])
           ltac:(evaluated)).
Defined.

(** * More on the retrying fetcher *)

Section retries.
Context `{E : Env}.

(** A run of the loop in which the first [k] attempts fail and the next
    one raises something that is not a [RequestException]: it goes through
    at once. *)
Lemma attempts_first_crash url kw e n : ∀ i k w,
  (k < n)%nat →
  (i + n = RETRIES)%nat →
  (∀ j, (j < k)%nat → fails (clock w + j) url kw) →
  crashes (clock w + k) url kw e →
  ∃ w', attempts (seq i n) url kw w = (Raise e, w')
        ∧ log w' = EvGet url kw :: rev (backoff_trace url kw i k) ++ log w.
Proof.
  induction n as [|n IH]; intros i k w Hk Hi Hfail Hcrash; [lia|].
  cbn [seq]. rewrite attempts_cons. unfold try_except.
  destruct k as [|k].
  - rewrite Nat.add_0_r in Hcrash.
    rewrite (attempt_body_crashes _ _ _ _ Hcrash).
    destruct Hcrash as [_ Hne]. destruct e; [done|..];
      (eexists; split; [reflexivity|done]).
  - pose proof (Hfail 0%nat ltac:(lia)) as H0. rewrite Nat.add_0_r in H0.
    rewrite (attempt_body_fails _ _ _ H0). cbn [is_RequestException].
    destruct (i + 1 =? RETRIES)%nat eqn:Hlast.
    { apply Nat.eqb_eq in Hlast. lia. }
    unfold sleep, emit, mbind, W_bind. cbn [after_get clock log].
    destruct (IH (S i) k
                (mkWorld (S (clock w))
                   (EvSleep (BACKOFF_FACTOR * 2 ^ Z.of_nat i)
                      :: EvGet url kw :: log w)))
      as (w' & Hrun & Hlog).
    + lia.
    + lia.
    + intros j Hj. cbn [clock].
      replace (S (clock w) + j)%nat with (clock w + S j)%nat by lia.
      apply Hfail. lia.
    + cbn [clock].
      replace (S (clock w) + k)%nat with (clock w + S k)%nat by lia. done.
    + exists w'. split; [exact Hrun|].
      rewrite Hlog. cbn [log]. unfold backoff_trace. cbn [seq flat_map].
      rewrite !rev_app_distr. cbn [rev app].
      rewrite <- !app_assoc. reflexivity.
Qed.

Lemma total_sleep_app tr1 tr2 :
  total_sleep (tr1 ++ tr2) = (total_sleep tr1 + total_sleep tr2)%Z.
Proof.
  induction tr1 as [|e tr1 IH]; [done|].
  cbn [app total_sleep]. destruct e; rewrite ?IH; lia.
Qed.

Lemma count_sleeps_app tr1 tr2 :
  count_sleeps (tr1 ++ tr2) = (count_sleeps tr1 + count_sleeps tr2)%nat.
Proof. unfold count_sleeps. by rewrite List.filter_app, List.length_app. Qed.

Lemma count_gets_app tr1 tr2 :
  count_gets (tr1 ++ tr2) = (count_gets tr1 + count_gets tr2)%nat.
Proof. unfold count_gets. by rewrite List.filter_app, List.length_app. Qed.

(** What the loop over the attempts [i, ..., RETRIES-1] sleeps: after
    attempt [j] only if attempt [j+1] follows, [2^j] seconds. *)
Lemma attempts_sleeps url kw n : ∀ i w,
  (i + S n = RETRIES)%nat →
  ∃ tr, log (attempts (seq i (S n)) url kw w).2 = tr ++ log w
        ∧ (0 ≤ total_sleep tr)%Z
        ∧ (total_sleep tr + 2 ^ Z.of_nat i ≤ 4)%Z
        ∧ (count_sleeps tr < count_gets tr)%nat
        ∧ (count_gets tr ≤ S n)%nat
        ∧ Forall (λ e, ∀ s, e = EvSleep s → s = 1%Z ∨ s = 2%Z) tr.
Proof.
  induction n as [|n IH]; intros i w Hi.
  - cbn [seq]. rewrite attempts_cons.
    unfold try_except, attempt_body, mbind, W_bind, get.
    assert (i = 2%nat) as -> by (unfold RETRIES in Hi; lia).
    exists [EvGet url kw].
    split; [|by repeat split; try lia; repeat constructor].
    destruct (session_get (clock w) url kw) as [resp | e].
    + unfold raise_for_status.
      by destruct ((400 <=? status_code resp)%Z && (status_code resp <? 600)%Z).
    + by destruct e.
  - cbn [seq]. rewrite attempts_cons.
    unfold try_except, attempt_body, mbind, W_bind, get.
    set (w1 := mkWorld (S (clock w)) (EvGet url kw :: log w)).
    assert (Hi2 : (i = 0 ∨ i = 1)%nat) by (unfold RETRIES in Hi; lia).
    assert (Hone : ∃ tr, log w1 = tr ++ log w
              ∧ (0 ≤ total_sleep tr)%Z
              ∧ (total_sleep tr + 2 ^ Z.of_nat i ≤ 4)%Z
              ∧ (count_sleeps tr < count_gets tr)%nat
              ∧ (count_gets tr ≤ S (S n))%nat
              ∧ Forall (λ e, ∀ s, e = EvSleep s → s = 1%Z ∨ s = 2%Z) tr).
    { exists [EvGet url kw]. split; [done|]. cbn.
      split; [lia|]. split; [destruct Hi2 as [-> | ->]; cbn; lia|].
      split; [lia|]. split; [lia|]. by repeat constructor. }
    assert (Hhandler : ∃ tr,
      log ((if (i + 1 =? RETRIES)%nat then mret None
            else sleep (BACKOFF_FACTOR * 2 ^ Z.of_nat i);;
                 attempts (seq (S i) (S n)) url kw) w1).2 = tr ++ log w
      ∧ (0 ≤ total_sleep tr)%Z
      ∧ (total_sleep tr + 2 ^ Z.of_nat i ≤ 4)%Z
      ∧ (count_sleeps tr < count_gets tr)%nat
      ∧ (count_gets tr ≤ S (S n))%nat
      ∧ Forall (λ e, ∀ s, e = EvSleep s → s = 1%Z ∨ s = 2%Z) tr).
    { destruct (i + 1 =? RETRIES)%nat; [exact Hone|].
      unfold sleep, emit, mbind, W_bind. cbn [clock log].
      destruct (IH (S i) (mkWorld (clock w1)
                            (EvSleep (BACKOFF_FACTOR * 2 ^ Z.of_nat i) :: log w1)))
        as (tr & Hlog & H0 & Hsum & Hcnt & Hgets & Hall); [lia|].
      exists (tr ++ [EvSleep (BACKOFF_FACTOR * 2 ^ Z.of_nat i); EvGet url kw]).
      split; [|split; [|split; [|split; [|split]]]].
      - rewrite Hlog. cbn [log]. subst w1. cbn [log].
        rewrite <- app_assoc. reflexivity.
      - rewrite total_sleep_app. cbn [total_sleep]. unfold BACKOFF_FACTOR.
        destruct Hi2 as [-> | ->]; cbn; lia.
      - rewrite total_sleep_app. cbn [total_sleep]. unfold BACKOFF_FACTOR.
        replace (Z.of_nat (S i)) with (Z.of_nat i + 1)%Z in Hsum by lia.
        rewrite Z.pow_add_r in Hsum by lia.
        change (2 ^ 1)%Z with 2%Z in Hsum. lia.
      - rewrite count_sleeps_app, count_gets_app. cbn. lia.
      - rewrite count_gets_app. cbn. lia.
      - apply Forall_app. split; [done|].
        constructor; [|by repeat constructor].
        intros s [= <-]. unfold BACKOFF_FACTOR.
        destruct Hi2 as [-> | ->]; cbn; auto. }
    destruct (session_get (clock w) url kw) as [resp | e].
    + unfold raise_for_status.
      destruct ((400 <=? status_code resp)%Z && (status_code resp <? 600)%Z).
      * cbn [raise is_RequestException]. exact Hhandler.
      * exact Hone.
    + destruct e; cbn [is_RequestException]; [exact Hhandler | exact Hone ..].
Qed.

End retries.

(** X3. Whatever the world answers, one call of
    [make_request_with_retries] sleeps at most twice, 1 or 2 seconds each
    time and at most 3 seconds in all, and only between two GETs: it makes
    more GETs than sleeps. *)
Theorem retry_sleep_budget `{E : Env} (url : string) (kw : kwargs)
    (w : world) :
  ∃ tr,
    trace (make_request_with_retries url kw w).2 = trace w ++ tr
    ∧ (0 ≤ total_sleep tr ≤ 3)%Z
    ∧ (count_sleeps tr ≤ 2)%nat
    ∧ (count_sleeps tr < count_gets tr)%nat
    ∧ ∀ s, EvSleep s ∈ tr → s = 1%Z ∨ s = 2%Z.
Proof.
  destruct (attempts_sleeps url kw 2 0 w eq_refl)
    as (tr & Hlog & H0 & Hsum & Hcnt & Hgets & Hall).
  exists (rev tr). unfold trace, make_request_with_retries.
  change (seq 0 RETRIES) with (seq 0 3). rewrite Hlog.
  split; [apply rev_app_distr|].
  assert (Hts : total_sleep (rev tr) = total_sleep tr).
  { clear. induction tr as [|e tr IH]; [done|].
    cbn [rev]. rewrite total_sleep_app, IH. destruct e; cbn; lia. }
  assert (Hcs : count_sleeps (rev tr) = count_sleeps tr).
  { clear. induction tr as [|e tr IH]; [done|].
    cbn [rev]. rewrite count_sleeps_app, IH. unfold count_sleeps.
    cbn. destruct (is_sleep e); cbn; lia. }
  rewrite Hts, Hcs, count_gets_rev.
  split; [cbn in Hsum; lia|]. split; [lia|]. split; [lia|].
  intros s Hin. rewrite list_elem_of_In, <- in_rev, <- list_elem_of_In in Hin.
  rewrite Forall_forall in Hall. eauto.
Qed.

(** X4. An exception of [session.get] that is not a [RequestException] is
    not caught: when the first [k < 3] attempts fail and the next one raises
    it, [make_request_with_retries] raises it at once, with no sleep and no
    GET after it. *)
Theorem other_exception_goes_through `{E : Env} (url : string) (kw : kwargs)
    (w : world) (k : nat) (e : exn) :
  (k < 3)%nat →
  (∀ j, (j < k)%nat → fails (clock w + j) url kw) →
  crashes (clock w + k) url kw e →
  ∃ w', make_request_with_retries url kw w = (Raise e, w')
        ∧ trace w' = trace w ++ backoff_trace url kw 0 k ++ [EvGet url kw].
Proof.
  intros Hk Hfail Hcrash.
  destruct (attempts_first_crash url kw e RETRIES 0 k w Hk eq_refl Hfail
              Hcrash) as (w' & Hrun & Hlog).
  exists w'. split; [exact Hrun|]. unfold trace. rewrite Hlog.
  cbn [rev]. rewrite rev_app_distr, rev_involutive.
  by rewrite <- app_assoc.
Qed.

Lemma other_exception_goes_through_witness :
  ∃ w',
    @make_request_with_retries crashing_env "https://x/" (mkKwargs false 15)
      initial_world = (Raise OtherException, w')
    ∧ trace w'
      = trace initial_world
        ++ backoff_trace "https://x/" (mkKwargs false 15) 0 1
        ++ [EvGet "https://x/" (mkKwargs false 15)].
Proof.
  refine (@other_exception_goes_through crashing_env "https://x/"%string
            (mkKwargs false 15) initial_world 1 OtherException _ _ _).
  - lia.
  - intros j Hj. assert (j = 0%nat) as -> by lia. by left.
  - by split.
Defined.

(** * More on the crawl engine *)

Lemma download_events_other pdf_url ok tr :
  download_events pdf_url ok tr →
  Forall (λ e, is_net e = true ∨ is_write e = true) tr.
Proof.
  intros (p & tr' & Htr & Hnet & _).
  assert (Hall : Forall (λ e, is_net e = true ∨ is_write e = true) tr').
  { eapply Forall_impl; [exact Hnet|]. auto. }
  destruct Htr as [[-> _] | ->]; [done|]. constructor; [by right|done].
Qed.

Lemma polite_inv_other tr w c :
  Forall (λ e, is_polite e = false ∧ is_page_request e = false) tr →
  polite_inv w → polite_inv (mkWorld c (tr ++ log w)).
Proof.
  intros Htr [Hok Hcount]. unfold polite_inv. cbn [log].
  induction Htr as [|e tr [He1 He2] _ [IH1 IH2]]; [done|].
  cbn [app]. split.
  - by destruct e.
  - rewrite page_requests_cons. cbn [List.filter]. rewrite He1.
    by destruct e.
Qed.

Section engine_extras.
Context `{NC : NetlocChecks} `{E : Env}.

Lemma polite_inv_iteration start_url download_folder current_url rest v w :
  urls_to_visit v = current_url :: rest →
  polite_inv w →
  post (λ _ w, polite_inv w) polite_inv
       (crawl_iteration start_url download_folder current_url rest v w).
Proof.
  intros Hfront HI.
  apply (crawl_iteration_post (λ _ w, polite_inv w) (λ _ w, polite_inv w));
    [exact Hfront | exact HI | done | done | done | | | ].
  - intros n _ _. destruct HI as [Hok Hcount]. split; cbn [log].
    + cbn [polite_ok]. eauto.
    + log_cons. cbn [List.filter is_polite length]. by rewrite Hcount.
  - intros v' w' c tr HI' Htr. apply polite_inv_other; [|done].
    eapply Forall_impl; [exact Htr|]. intros e He. by destruct e.
  - intros c kw resp href a n v' w' x _ _ _ _ HI' Hstep.
    destruct Hstep as [? ? | ok tr w'' ? ? Hev Hlog | ? ? ? ? | ? ?];
      cbn [post]; [done | | | done].
    + assert (Hw : polite_inv w'').
      { destruct w'' as [c'' l'']. cbn [log] in Hlog. subst l''.
        change (tr ++ EvDownload a :: log w')
          with (tr ++ log (mkWorld (clock w') (EvDownload a :: log w'))).
        apply polite_inv_other.
        - eapply Forall_impl; [exact (download_events_other _ _ _ Hev)|].
          intros e [He | He]; by destruct e.
        - by apply (polite_inv_other [EvDownload a] w' (clock w'));
            [repeat constructor|]. }
      by destruct ok.
    + by apply (polite_inv_other [EvEnqueue a] w' (clock w'));
        [repeat constructor|].
Qed.

Lemma polite_ok_split newer older u :
  polite_ok (newer ++ EvPageRequest u :: older) →
  ∃ older', older = EvPoliteDelay :: older'.
Proof.
  induction newer as [|e newer IH]; cbn [app polite_ok]; [tauto|].
  destruct e; tauto.
Qed.

Lemma totals_inv_iteration start_url download_folder current_url rest v w :
  urls_to_visit v = current_url :: rest →
  totals_inv v w →
  post totals_inv (λ _, True)
       (crawl_iteration start_url download_folder current_url rest v w).
Proof.
  intros Hfront HI.
  apply (crawl_iteration_post totals_inv totals_inv);
    [exact Hfront | exact HI | done | done | | | | ].
  - intros n _ _. exact HI.
  - intros n _ Hvis. destruct HI as [Hv Hd]. split; cbn [log visited_urls].
    + log_cons. cbn [length]. rewrite <- Hv.
      rewrite (size_union ({[n]} : gset string)), size_singleton; [done|].
      intros u ->%elem_of_singleton. done.
    + by log_cons.
  - intros v' w' c tr [Hv Hd] Htr.
    destruct (net_is_quiet tr Htr) as (Hp & _ & _ & Hw).
    split; cbn [log]; by rewrite ?page_requests_app, ?written_app, ?Hp, ?Hw.
  - intros c kw resp href a n v' w' x _ _ _ _ [Hv Hd] Hstep.
    destruct Hstep as [? ? | ok tr w'' ? Hdl Hev Hlog | ? ? ? ? | ? ?];
      cbn [post]; [done | | | done].
    + destruct (download_events_quiet _ _ _ Hev) as (Hp & _ & _ & Hw).
      split.
      * rewrite Hlog, page_requests_app, Hp. cbn [app]. log_cons.
        by destruct ok.
      * rewrite Hlog, written_app, Hw. log_cons.
        destruct ok; cbn [downloaded_pdf_urls app length]; [|done].
        rewrite (size_union ({[a]} : gset string)), size_singleton;
          [by rewrite Hd|].
        intros u ->%elem_of_singleton. done.
    + split; cbn [log visited_urls downloaded_pdf_urls]; by log_cons.
Qed.

Lemma queue_inv_iteration start_url download_folder current_url rest v w :
  urls_to_visit v = current_url :: rest →
  queue_inv start_url v w →
  post (queue_inv start_url)
       (λ w, rev (page_requests (log w))
             `sublist_of` start_url :: rev (enqueued (log w)))
       (crawl_iteration start_url download_folder current_url rest v w).
Proof.
  intros Hfront HI.
  assert (HIF : ∀ v w, queue_inv start_url v w →
                rev (page_requests (log w))
                `sublist_of` start_url :: rev (enqueued (log w))).
  { intros v' w' (popped & -> & Hsub). by apply sublist_inserts_r. }
  apply (crawl_iteration_post (queue_inv start_url) (queue_inv start_url));
    [exact Hfront | exact HI | by eauto | exact HIF | | | | ].
  - intros n _ _. destruct HI as (popped & Heq & Hsub).
    exists (popped ++ [current_url]). cbn [urls_to_visit]. split.
    + rewrite Heq, Hfront, <- app_assoc. done.
    + by apply sublist_inserts_r.
  - intros n _ _. destruct HI as (popped & Heq & Hsub).
    exists (popped ++ [current_url]). cbn [urls_to_visit log]. log_cons.
    split.
    + rewrite Heq, Hfront, <- app_assoc. done.
    + cbn [rev]. by apply sublist_app.
  - intros v' w' c tr (popped & Heq & Hsub) Htr.
    destruct (net_is_quiet tr Htr) as (Hp & Hq & _).
    exists popped. cbn [log].
    by rewrite enqueued_app, page_requests_app, Hp, Hq.
  - intros c kw resp href a n v' w' x _ _ _ _ (popped & Heq & Hsub) Hstep.
    destruct Hstep as [? ? | ok tr w'' ? ? Hev Hlog | ? ? ? ? | ? ?];
      cbn [post]; [by exists popped | | | by exists popped].
    + destruct (download_events_quiet _ _ _ Hev) as (Hp & Hq & _).
      exists popped. rewrite Hlog, enqueued_app, page_requests_app, Hp, Hq.
      cbn [app]. log_cons. by destruct ok.
    + exists popped. cbn [urls_to_visit log]. log_cons. cbn [rev].
      split; [|done]. rewrite app_assoc, <- Heq. done.
Qed.

Lemma scope_inv_iteration start_url download_folder current_url rest v w :
  urls_to_visit v = current_url :: rest →
  scope_inv start_url v w →
  post (scope_inv start_url)
       (λ w, ∀ u, u ∈ page_requests (log w) → in_scope start_url u = true)
       (crawl_iteration start_url download_folder current_url rest v w).
Proof.
  intros Hfront HI.
  assert (HIF : ∀ v w, scope_inv start_url v w →
                ∀ u, u ∈ page_requests (log w) → in_scope start_url u = true).
  { intros v' w' HI' u Hu. apply HI'. apply elem_of_app. by right. }
  apply (crawl_iteration_post (scope_inv start_url) (scope_inv start_url));
    [exact Hfront | exact HI | by eauto | exact HIF | | | | ].
  - intros n _ _ u [Hu | Hu]%elem_of_app; apply HI; rewrite Hfront;
      apply elem_of_app; [left; by right | by right].
  - intros n _ _ u. cbn [urls_to_visit log]. log_cons.
    intros [Hu | [-> | Hu]%elem_of_cons]%elem_of_app; apply HI;
      rewrite Hfront; apply elem_of_app;
      [left; by right | left; by left | by right].
  - intros v' w' c tr HI' Htr u. cbn [log]. rewrite page_requests_app.
    destruct (net_is_quiet tr Htr) as (-> & _). apply HI'.
  - intros c kw resp href a n v' w' x _ _ _ Hn HI' Hstep.
    destruct Hstep as [? ? | ok tr w'' ? ? Hev Hlog | Hpdf Hscope ? ? | ? ?];
      cbn [post]; [done | | | done].
    + destruct (download_events_quiet _ _ _ Hev) as (Hp & _).
      intros u. rewrite Hlog, page_requests_app, Hp. cbn [app]. log_cons.
      destruct ok; apply HI'.
    + intros u. cbn [urls_to_visit log]. log_cons.
      rewrite <- app_assoc.
      intros [Hu | [->%list_elem_of_singleton | Hu]%elem_of_app]%elem_of_app.
      * apply HI'. apply elem_of_app. by left.
      * unfold in_scope. rewrite Hpdf, Hn, Hscope. apply orb_true_r.
      * apply HI'. apply elem_of_app. by right.
Qed.

End engine_extras.

(** X5. The crawl is polite: at any point of any crawl, each page request
    comes right after a polite delay, and there are as many polite delays
    as page requests. *)
Theorem page_requests_are_polite `{NC : NetlocChecks} `{E : Env}
    (start_url download_folder : string) (steps : nat) :
  let l := log (crawl_steps steps start_url download_folder
                  (initial_vars start_url) initial_world).2 in
  (∀ newer older u,
     l = newer ++ EvPageRequest u :: older →
     ∃ older', older = EvPoliteDelay :: older')
  ∧ length (List.filter is_polite l) = length (page_requests l).
Proof.
  intros l.
  assert (Hinv : polite_inv (crawl_steps steps start_url download_folder
                               (initial_vars start_url) initial_world).2).
  { pose proof (crawl_steps_post (λ _ w, polite_inv w) polite_inv
                  start_url download_folder) as Hpost.
    specialize (Hpost ltac:(intros; by apply polite_inv_iteration) steps
                  (initial_vars start_url) initial_world ltac:(by split)).
    by destruct (crawl_steps _ _ _ _ _) as [[v|e] w]. }
  destruct Hinv as [Hok Hcount]. fold l in Hok, Hcount. split; [|done].
  intros newer older u Hl. rewrite Hl in Hok. by eapply polite_ok_split.
Qed.

(** X6. The totals that the crawl reports when it ends are exact: the size
    of the visited set is the number of page requests made, and the size
    of the downloaded set is the number of file writes that completed. *)
Theorem reported_totals_are_exact
    `{NC : NetlocChecks} `{E : Env} `{FS : FileSystem}
    (fuel : nat) (start_url download_folder log_file : string)
    (v : vars) (w : world) :
  crawl_and_download_pdfs fuel start_url download_folder log_file
  = Some (Ok v, w) →
  size (visited_urls v) = length (page_requests (log w))
  ∧ size (downloaded_pdf_urls v) = length (written (log w)).
Proof.
  rewrite crawl_and_download_pdfs_loop.
  destruct (set_up download_folder log_file initial_world) as [[[]|e] w0]
    eqn:Hs; [|done].
  destruct (crawl_loop fuel start_url download_folder _ _) as [[r w1]|]
    eqn:Hloop; [|done].
  cbn. intros [= -> <-]. apply crawl_loop_steps in Hloop.
  pose proof (crawl_steps_post totals_inv (λ _, True)
                start_url download_folder) as Hpost.
  specialize (Hpost ltac:(intros; by apply totals_inv_iteration) fuel
                (initial_vars start_url) initial_world ltac:(by split)).
  rewrite Hloop in Hpost. cbn [post] in Hpost.
  destruct (set_up_is_quiet (log w0) (set_up_events _ _ _ _ Hs))
    as (Hp & _ & _ & Hw & _).
  unfold with_older. cbn [log].
  by rewrite page_requests_app, written_app, Hp, Hw, !app_nil_r.
Qed.

Lemma reported_totals_are_exact_witness :
  ∃ v w,
    @crawl_and_download_pdfs lenient_checks pdf_env fresh_disk 5
      "https://s.test/" "pdf_downloads" "crawl_log.txt" = Some (Ok v, w)
    ∧ size (visited_urls v) = 2%nat
    ∧ length (page_requests (log w)) = 2%nat
    ∧ size (downloaded_pdf_urls v) = length (written (log w)).
Proof.
  destruct (@crawl_and_download_pdfs lenient_checks pdf_env fresh_disk 5
              "https://s.test/" "pdf_downloads" "crawl_log.txt")
    as [[[v|e] w]|] eqn:Hrun;
    [|exfalso; revert Hrun; vm_compute; discriminate..].
  exists v, w. split; [done|].
  destruct (@reported_totals_are_exact lenient_checks pdf_env fresh_disk 5
              "https://s.test/"%string "pdf_downloads"%string
              "crawl_log.txt"%string v w Hrun)
    as [Hv Hd].
  split; [|split; [|exact Hd]].
  - rewrite Hv. revert Hrun. vm_compute. by intros [= <- <-].
  - revert Hrun. vm_compute. by intros [= <- <-].
Defined.

(** X7. Pages are requested in the order in which their URLs were put in
    the frontier, the start URL first: the crawl is breadth-first. *)
Theorem pages_requested_in_discovery_order `{NC : NetlocChecks} `{E : Env}
    (start_url download_folder : string) (steps : nat) :
  let l := log (crawl_steps steps start_url download_folder
                  (initial_vars start_url) initial_world).2 in
  rev (page_requests l) `sublist_of` start_url :: rev (enqueued l).
Proof.
  intros l.
  pose proof (crawl_steps_post (queue_inv start_url)
                (λ w, rev (page_requests (log w))
                      `sublist_of` start_url :: rev (enqueued (log w)))
                start_url download_folder) as Hpost.
  specialize (Hpost ltac:(intros; by apply queue_inv_iteration) steps
                (initial_vars start_url) initial_world).
  subst l. destruct (crawl_steps _ _ _ _ _) as [[v|e] w]; cbn [post snd] in *.
  - destruct Hpost as (popped & -> & Hsub).
    + exists []. split; [done|]. apply sublist_nil_l.
    + by apply sublist_inserts_r.
  - apply Hpost. exists []. split; [done|]. apply sublist_nil_l.
Qed.

(** X8. No page outside the scope is requested: at any point of any crawl,
    a URL requested as a page is the start URL or is not a PDF link and
    has a fragment-stripped form that starts with the start URL. *)
Theorem requested_pages_are_in_scope `{NC : NetlocChecks} `{E : Env}
    (start_url download_folder : string) (steps : nat) (u : string) :
  u ∈ page_requests
        (log (crawl_steps steps start_url download_folder
                (initial_vars start_url) initial_world).2) →
  u = start_url
  ∨ is_pdf u = false
    ∧ ∃ n, normalized u = Some n ∧ Str.startswith n start_url = true.
Proof.
  intros Hu.
  pose proof (crawl_steps_post (scope_inv start_url)
                (λ w, ∀ u, u ∈ page_requests (log w) →
                           in_scope start_url u = true)
                start_url download_folder) as Hpost.
  specialize (Hpost ltac:(intros; by apply scope_inv_iteration) steps
                (initial_vars start_url) initial_world).
  assert (Hin : in_scope start_url u = true).
  { destruct (crawl_steps _ _ _ _ _) as [[v|e] w]; cbn [post snd] in *.
    - apply Hpost.
      + intros u' ->%list_elem_of_singleton. unfold in_scope.
        by rewrite bool_decide_eq_true_2.
      + apply elem_of_app. by right.
    - apply Hpost; [|done].
      intros u' ->%list_elem_of_singleton. unfold in_scope.
      by rewrite bool_decide_eq_true_2. }
  unfold in_scope in Hin. apply orb_true_iff in Hin as [Hin | Hin].
  - left. by apply bool_decide_eq_true in Hin.
  - right. apply andb_true_iff in Hin as [Hpdf Hn].
    split; [by destruct (is_pdf u)|].
    destruct (normalized u) as [n|]; [eauto|done].
Qed.

Lemma requested_pages_are_in_scope_witness :
  "https://s.test/a"%string = "https://s.test/"%string
  ∨ is_pdf "https://s.test/a" = false
    ∧ ∃ n, @normalized lenient_checks "https://s.test/a" = Some n
           ∧ Str.startswith n "https://s.test/" = true.
Proof.
  refine (@requested_pages_are_in_scope lenient_checks pdf_env
            "https://s.test/"%string "pdf_downloads"%string 5
            "https://s.test/a"%string _).
  vm_compute. by left.
Defined.

(** * Exceptions in the crawl *)

Section aborts.
Context `{NC : NetlocChecks} `{E : Env}.

Lemma for_each_app {A} (body : A → vars → W vars) l1 l2 v w :
  for_each (l1 ++ l2) body v w
  = match for_each l1 body v w with
    | (Ok v1, w1) => for_each l2 body v1 w1
    | (Raise e, w1) => (Raise e, w1)
    end.
Proof.
  revert v w. induction l1 as [|x l1 IH]; intros v w; [done|].
  cbn [app for_each]. unfold mbind, W_bind.
  destruct (body x v w) as [[v'|e] w']; [apply IH|done].
Qed.

(** The loop body does not raise on a link that resolves. *)
Lemma process_link_returns start_url download_folder current_url href v w :
  resolves current_url href →
  ∃ v' w', process_link start_url download_folder current_url href v w
           = (Ok v', w').
Proof.
  intros (a & n & f & Ha & Hd).
  pose proof (process_link_step start_url download_folder current_url href
                v w a n f Ha Hd) as Hstep.
  destruct (process_link _ _ _ _ _ _) as [r w'].
  inversion Hstep; subst; eauto.
Qed.

Lemma for_each_returns start_url download_folder current_url hrefs : ∀ v w,
  Forall (resolves current_url) hrefs →
  ∃ v' w', for_each hrefs (process_link start_url download_folder current_url)
             v w = (Ok v', w').
Proof.
  induction hrefs as [|href hrefs IH]; intros v w Hall; [by eexists _, _|].
  apply Forall_cons in Hall as [Hhref Hall].
  cbn [for_each]. unfold mbind, W_bind.
  destruct (process_link_returns start_url download_folder current_url href
              v w Hhref) as (v1 & w1 & ->).
  by apply IH.
Qed.

Lemma not_resolves current_url href :
  ¬ resolves current_url href →
  build_absolute_url current_url href = None
  ∨ ∃ a, build_absolute_url current_url href = Some a ∧ urldefrag a = None.
Proof.
  intros Hno. destruct (build_absolute_url current_url href) as [a|] eqn:Ha;
    [|by left].
  right. exists a. split; [done|].
  destruct (urldefrag a) as [[n f]|] eqn:Hd; [|done].
  exfalso. apply Hno. by exists a, n, f.
Qed.

End aborts.

(** X9. A link that [urllib] rejects ends the crawl: when the links of a
    fetched page are some that resolve, then one that does not, then any
    others, the crawl raises [ValueError] after it has processed the first
    ones; the others, and the rest of the frontier, are left unprocessed.
    A link with an unclosed bracket in its host, such as [//[], is
    rejected on any page. *)
Theorem unresolvable_link_ends_the_crawl `{NC : NetlocChecks} `{E : Env}
    (fuel : nat) (start_url download_folder current_url : string)
    (rest : list string) (v : vars) (w w1 : world) (n : string)
    (response : Response) (before after : list string) (href : string) :
  urls_to_visit v = current_url :: rest →
  normalized current_url = Some n →
  n ∉ visited_urls v →
  make_request_with_retries current_url (mkKwargs false 15)
    (mkWorld (clock w) (EvPageRequest current_url :: EvPoliteDelay :: log w))
  = (Ok (Some response), w1) →
  find_all_href (text response) = before ++ href :: after →
  Forall (resolves current_url) before →
  ¬ resolves current_url href →
  (∃ v2 w2,
     for_each before (process_link start_url download_folder current_url)
       (mkVars rest ({[n]} ∪ visited_urls v) (downloaded_pdf_urls v)) w1
     = (Ok v2, w2)
     ∧ crawl_loop (S fuel) start_url download_folder v w
       = Some (Raise ValueError, w2))
  ∧ ∀ page, ¬ resolves page "//[".
Proof.
  intros Hfront Hn Hvis Hrun Hhrefs Hbefore Hhref. split.
  - destruct (for_each_returns start_url download_folder current_url before
                (mkVars rest ({[n]} ∪ visited_urls v) (downloaded_pdf_urls v))
                w1 Hbefore) as (v2 & w2 & Hfor).
    exists v2, w2. split; [exact Hfor|].
    cbn [crawl_loop]. rewrite Hfront.
    rewrite (crawl_iteration_new _ _ _ _ _ _ n Hn Hvis). cbn zeta.
    rewrite Hrun, Hhrefs, for_each_app, Hfor. cbn [for_each].
    unfold mbind, W_bind.
    by rewrite (process_link_raises _ _ _ _ _ _ (not_resolves _ _ Hhref)).
  - intros page (a & n' & f & Ha & _).
    unfold build_absolute_url, urljoin in Ha.
    destruct (Str.nonempty page); cbn [negb] in Ha.
    + destruct (urlparse page EmptyString) as [b|]; [|done].
      cbn in Ha. destruct b as [s ? ? ? ? ?]. cbn [scheme] in Ha.
      assert (Hbad : urlparse "//[" s = None).
      { unfold urlparse, urlsplit. by vm_compute. }
      by rewrite Hbad in Ha.
    + cbn in Ha. revert Ha. by vm_compute.
Qed.

Lemma unresolvable_link_ends_the_crawl_witness :
  ∃ v2 w2,
    @for_each _ _ ["a"%string]
      (@process_link lenient_checks broken_link_env "https://s.test/"
         "pdf_downloads" "https://s.test/")
      (mkVars [] ({["https://s.test/"%string]} ∪ ∅) ∅)
      (mkWorld 1 [EvGet "https://s.test/" (mkKwargs false 15);
                  EvPageRequest "https://s.test/"; EvPoliteDelay])
    = (Ok v2, w2)
    ∧ @crawl_loop lenient_checks broken_link_env 3 "https://s.test/"
        "pdf_downloads" (initial_vars "https://s.test/") initial_world
      = Some (Raise ValueError, w2).
Proof.
  refine (proj1 (@unresolvable_link_ends_the_crawl lenient_checks
                   broken_link_env 2 "https://s.test/"%string
                   "pdf_downloads"%string "https://s.test/"%string []
                   (initial_vars "https://s.test/") initial_world
                   (mkWorld 1 [EvGet "https://s.test/" (mkKwargs false 15);
                               EvPageRequest "https://s.test/"; EvPoliteDelay])
                   "https://s.test/"%string (mkResponse 200 "index")
                   ["a"%string] ["b"%string] "//["%string
                   eq_refl ltac:(evaluated) _ ltac:(evaluated) eq_refl _ _)).
  - apply not_elem_of_empty.
  - constructor; [|constructor].
    exists "https://s.test/a"%string, "https://s.test/a"%string, EmptyString.
    split; evaluated.
  - intros (a & n & f & Ha & _). revert Ha. vm_compute. discriminate.
Defined.

(** X10. An exception that is not a [RequestException] in the request of a
    page ends the crawl: it goes through [make_request_with_retries] and
    through the loop, and the rest of the frontier is never requested. *)
Theorem page_request_exception_ends_the_crawl
    `{NC : NetlocChecks} `{E : Env}
    (fuel : nat) (start_url download_folder current_url : string)
    (rest : list string) (v : vars) (w : world) (n : string) (k : nat)
    (e : exn) :
  urls_to_visit v = current_url :: rest →
  normalized current_url = Some n →
  n ∉ visited_urls v →
  (k < 3)%nat →
  (∀ j, (j < k)%nat → fails (clock w + j) current_url (mkKwargs false 15)) →
  crashes (clock w + k) current_url (mkKwargs false 15) e →
  ∃ w',
    crawl_loop (S fuel) start_url download_folder v w = Some (Raise e, w')
    ∧ page_requests (log w') = current_url :: page_requests (log w).
Proof.
  intros Hfront Hn Hvis Hk Hfail Hcrash.
  destruct (attempts_first_crash current_url (mkKwargs false 15) e RETRIES 0 k
              (mkWorld (clock w)
                 (EvPageRequest current_url :: EvPoliteDelay :: log w))
              Hk eq_refl Hfail Hcrash) as (w' & Hrun & Hlog).
  exists w'. split.
  - cbn [crawl_loop]. rewrite Hfront.
    rewrite (crawl_iteration_new _ _ _ _ _ _ n Hn Hvis). cbn zeta.
    unfold make_request_with_retries. by rewrite Hrun.
  - rewrite Hlog. cbn [log].
    change (EvGet current_url (mkKwargs false 15)
              :: rev (backoff_trace current_url (mkKwargs false 15) 0 k)
              ++ EvPageRequest current_url :: EvPoliteDelay :: log w)
      with ((EvGet current_url (mkKwargs false 15)
               :: rev (backoff_trace current_url (mkKwargs false 15) 0 k))
              ++ EvPageRequest current_url :: EvPoliteDelay :: log w).
    assert (Hq : page_requests
                   (EvGet current_url (mkKwargs false 15)
                      :: rev (backoff_trace current_url (mkKwargs false 15) 0 k))
                 = []).
    { apply net_is_quiet. constructor; [done|].
      apply Forall_forall. intros x Hx.
      unfold backoff_trace in Hx.
      rewrite list_elem_of_In, <- in_rev, in_flat_map in Hx.
      destruct Hx as (j & _ & [<- | [<- | []]]); done. }
    rewrite page_requests_app, Hq. cbn [app]. by log_cons.
Qed.

Lemma page_request_exception_ends_the_crawl_witness :
  ∃ w',
    @crawl_loop lenient_checks crashing_env 1 "https://x/" "pdf_downloads"
      (initial_vars "https://x/") initial_world
    = Some (Raise OtherException, w')
    ∧ page_requests (log w') = "https://x/"%string :: page_requests [].
Proof.
  refine (@page_request_exception_ends_the_crawl lenient_checks crashing_env
            0 "https://x/"%string "pdf_downloads"%string "https://x/"%string
            [] (initial_vars "https://x/") initial_world "https://x/"%string
            1 OtherException eq_refl ltac:(evaluated) _ _ _ _).
  - apply not_elem_of_empty.
  - lia.
  - intros j Hj. assert (j = 0%nat) as -> by lia. by left.
  - by split.
Defined.

(** * The PDF test *)

Lemma lower_length s : String.length (Str.lower s) = String.length s.
Proof. induction s as [|a s IH]; [done|]. cbn. by rewrite IH. Qed.

(** A lower-cased string cut in two is the two lower-cased parts of a cut
    of the string. *)
Lemma lower_app_inv s : ∀ b p,
  Str.lower s = b +:+ p →
  ∃ u ext, s = u +:+ ext ∧ Str.lower u = b ∧ Str.lower ext = p.
Proof.
  induction s as [|a s IH]; intros b p Heq.
  - destruct b; [|done]. exists EmptyString, EmptyString. by destruct p.
  - destruct b as [|c b].
    + exists EmptyString, (String a s). done.
    + cbn [Str.lower] in Heq. rewrite app_String in Heq.
      injection Heq as <- Heq.
      destruct (IH _ _ Heq) as (u & ext & -> & <- & <-).
      by exists (String a u), ext.
Qed.

(** X11. A link is taken for a PDF exactly when it ends in [.pdf] written
    in any mix of upper and lower case; so it has at least four
    characters. *)
Theorem is_pdf_any_case (s : string) :
  (is_pdf s = true ↔ ∃ u ext, s = u +:+ ext ∧ Str.lower ext = ".pdf"%string)
  ∧ (is_pdf s = true → (4 ≤ String.length s)%nat).
Proof.
  assert (Hiff : is_pdf s = true
                 ↔ ∃ u ext, s = u +:+ ext ∧ Str.lower ext = ".pdf"%string).
  { unfold is_pdf. rewrite endswith_spec. split.
    - intros [before Heq].
      destruct (lower_app_inv _ _ _ Heq) as (u & ext & -> & _ & Hext). eauto.
    - intros (u & ext & -> & Hext). exists (Str.lower u).
      by rewrite lower_app, Hext. }
  split; [exact Hiff|].
  intros (u & ext & -> & Hext)%Hiff.
  rewrite length_app, <- (lower_length ext), Hext. cbn. lia.
Qed.

(** * The GETs of a crawl *)

Lemma fetch_events_quiet url kw tr :
  fetch_events url kw tr →
  page_requests tr = [] ∧ downloads tr = []
  ∧ ∀ u kw', EvGet u kw' ∈ tr → u = url ∧ kw' = kw.
Proof.
  intros [Hall _]. split; [|split].
  - induction Hall as [|e tr He _ IH]; [done|]. log_cons.
    by destruct He as [-> | He]; [|destruct e].
  - induction Hall as [|e tr He _ IH]; [done|]. log_cons.
    by destruct He as [-> | He]; [|destruct e].
  - intros u kw' Hin. rewrite Forall_forall in Hall.
    destruct (Hall _ Hin) as [[= -> ->] | ?]; done.
Qed.

Lemma writes_quiet tr :
  Forall (λ e, is_write e = true) tr →
  page_requests tr = [] ∧ downloads tr = [] ∧ count_gets tr = 0%nat
  ∧ ∀ u kw, EvGet u kw ∉ tr.
Proof.
  intros Hall. repeat split.
  - induction Hall as [|e tr He _ IH]; [done|]. log_cons. by destruct e.
  - induction Hall as [|e tr He _ IH]; [done|]. log_cons. by destruct e.
  - induction Hall as [|e tr He _ IH]; [done|].
    unfold count_gets in *. cbn [List.filter]. by destruct e.
  - intros u kw Hin. rewrite Forall_forall in Hall. by apply Hall in Hin.
Qed.

(** The GETs of one fetch are GETs for the call just before them. *)
Lemma calls_ok_fetch u kw l tr :
  Forall (λ e, e = EvGet u kw ∨ is_sleep e = true) tr →
  current_call l = Some (u, kw) →
  gets_since_call l = 0%nat →
  calls_ok l →
  current_call (tr ++ l) = Some (u, kw)
  ∧ gets_since_call (tr ++ l) = count_gets tr
  ∧ ((count_gets tr ≤ 3)%nat → calls_ok (tr ++ l)).
Proof.
  intros Hall Hcur Hzero Hl.
  induction Hall as [|e tr He _ (IH1 & IH2 & IH3)]; [done|].
  unfold count_gets in *.
  destruct He as [-> | He].
  - cbn [app current_call gets_since_call calls_ok List.filter is_get length].
    split; [done|]. split; [by rewrite IH2|]. intros H3.
    split; [split; [done|lia]|]. apply IH3. lia.
  - destruct e; try discriminate He.
    cbn [app current_call gets_since_call calls_ok List.filter is_get].
    auto.
Qed.

Lemma calls_ok_writes tr l :
  Forall (λ e, is_write e = true) tr → calls_ok l → calls_ok (tr ++ l).
Proof.
  induction 1 as [|e tr He _ IH]; [done|]. intros Hl.
  destruct e; try discriminate He. cbn [app calls_ok]. auto.
Qed.

Lemma calls_ok_split newer u kw older :
  calls_ok (newer ++ EvGet u kw :: older) →
  current_call older = Some (u, kw) ∧ (gets_since_call older < 3)%nat.
Proof.
  induction newer as [|e newer IH]; cbn [app calls_ok]; [by intros [? _]|].
  intros [_ ?]. auto.
Qed.

Lemma gets_ok_page u tr l :
  fetch_events u (mkKwargs false 15) tr →
  gets_ok l →
  gets_ok (tr ++ EvPageRequest u :: EvPoliteDelay :: l).
Proof.
  intros Hf (Hget & Hcount & Hpdf & Hcalls).
  destruct (fetch_events_quiet _ _ _ Hf) as (Hp & Hd & Hu).
  destruct Hf as [Hall H3].
  unfold gets_ok. rewrite page_requests_app, downloads_app, Hp, Hd.
  cbn [app]. log_cons. split; [|split; [|split; [done|]]]; cycle 2.
  { by apply (calls_ok_fetch u (mkKwargs false 15)). }
  - intros u' kw [Hin | Hin]%elem_of_app.
    + destruct (Hu _ _ Hin) as [-> ->]. left. split; [done|]. by left.
    + apply elem_of_cons in Hin as [[=] | Hin].
      apply elem_of_cons in Hin as [[=] | Hin].
      destruct (Hget _ _ Hin) as [[-> ?] | [-> ?]]; [left | right]; split;
        try done. by right.
  - rewrite count_gets_app. unfold count_gets in *.
    cbn [List.filter is_get length]. lia.
Qed.

Lemma gets_ok_download a tr1 tr2 l :
  is_pdf a = true →
  Forall (λ e, is_write e = true) tr1 →
  fetch_events a (mkKwargs true 30) tr2 →
  gets_ok l →
  gets_ok (tr1 ++ tr2 ++ EvDownload a :: l).
Proof.
  intros Ha Hw Hf (Hget & Hcount & Hpdf & Hcalls).
  destruct (fetch_events_quiet _ _ _ Hf) as (Hp & Hd & Hu).
  destruct (writes_quiet _ Hw) as (Hp1 & Hd1 & Hc1 & Hn1).
  destruct Hf as [Hall H3].
  unfold gets_ok.
  rewrite !page_requests_app, !downloads_app, Hp, Hd, Hp1, Hd1.
  cbn [app]. log_cons. split; [|split; [|split]]; cycle 3.
  { apply calls_ok_writes; [done|].
    by apply (calls_ok_fetch a (mkKwargs true 30)). }
  - intros u' kw [Hin | [Hin | Hin]%elem_of_app]%elem_of_app.
    + by apply Hn1 in Hin.
    + destruct (Hu _ _ Hin) as [-> ->]. right. split; [done|]. by left.
    + apply elem_of_cons in Hin as [[=] | Hin].
      destruct (Hget _ _ Hin) as [[-> ?] | [-> ?]]; [left | right]; split;
        try done. by right.
  - rewrite !count_gets_app, Hc1. unfold count_gets in *.
    cbn [List.filter is_get length]. lia.
  - by constructor.
Qed.

Lemma gets_ok_enqueue a l : gets_ok l → gets_ok (EvEnqueue a :: l).
Proof.
  intros (Hget & Hcount & Hpdf & Hcalls). unfold gets_ok. log_cons.
  split; [|split; [|done]].
  - intros u kw [[=] | Hin]%elem_of_cons. auto.
  - unfold count_gets in *. by cbn [List.filter is_get].
Qed.

Section gets.
Context `{NC : NetlocChecks} `{E : Env}.

(** One call of the retry loop adds the events of one fetch. *)
Lemma attempts_fetch_events url kw n : ∀ i w,
  ∃ tr, log (attempts (seq i n) url kw w).2 = tr ++ log w
        ∧ Forall (λ e, e = EvGet url kw ∨ is_sleep e = true) tr
        ∧ (count_gets tr ≤ n)%nat.
Proof.
  induction n as [|n IH]; intros i w.
  - exists []. by repeat split.
  - cbn [seq]. rewrite attempts_cons.
    unfold try_except, attempt_body, mbind, W_bind, get.
    set (w1 := mkWorld (S (clock w)) (EvGet url kw :: log w)).
    assert (Hone : ∃ tr, log w1 = tr ++ log w
                         ∧ Forall (λ e, e = EvGet url kw ∨ is_sleep e = true) tr
                         ∧ (count_gets tr ≤ S n)%nat).
    { exists [EvGet url kw]. split; [done|].
      split; [by repeat constructor; left|]. unfold count_gets. cbn. lia. }
    assert (Hhandler : ∃ tr,
      log ((if (i + 1 =? RETRIES)%nat then mret None
            else sleep (BACKOFF_FACTOR * 2 ^ Z.of_nat i);;
                 attempts (seq (S i) n) url kw) w1).2 = tr ++ log w
      ∧ Forall (λ e, e = EvGet url kw ∨ is_sleep e = true) tr
      ∧ (count_gets tr ≤ S n)%nat).
    { destruct (i + 1 =? RETRIES)%nat; [exact Hone|].
      unfold sleep, emit, mbind, W_bind. cbn [clock log].
      destruct (IH (S i) (mkWorld (clock w1)
                            (EvSleep (BACKOFF_FACTOR * 2 ^ Z.of_nat i) :: log w1)))
        as (tr & Hlog & Hall & Hcount).
      exists (tr ++ [EvSleep (BACKOFF_FACTOR * 2 ^ Z.of_nat i); EvGet url kw]).
      split; [|split].
      - rewrite Hlog. cbn [log]. subst w1. cbn [log].
        rewrite <- app_assoc. reflexivity.
      - apply Forall_app. split; [done|].
        constructor; [by right|]. constructor; [by left|constructor].
      - rewrite count_gets_app. unfold count_gets in *. cbn. lia. }
    destruct (session_get (clock w) url kw) as [resp | e].
    + unfold raise_for_status.
      destruct ((400 <=? status_code resp)%Z && (status_code resp <? 600)%Z).
      * cbn [raise is_RequestException]. exact Hhandler.
      * exact Hone.
    + destruct e; cbn [is_RequestException]; [exact Hhandler | exact Hone ..].
Qed.

Lemma gets_ok_process_link start_url download_folder current_url href v w :
  gets_ok (log w) →
  gets_ok (log (process_link start_url download_folder current_url href v w).2).
Proof.
  intros HI. unfold process_link, mbind, W_bind.
  destruct (build_absolute_url current_url href) as [a|]; [|done].
  cbn [lift mret W_ret].
  destruct (urldefrag a) as [[n f]|]; [|done]. cbn [lift mret W_ret].
  destruct (is_pdf a) eqn:Hpdf.
  - case_bool_decide; [|done]. unfold emit.
    set (w0 := mkWorld (clock w) (EvDownload a :: log w)).
    pose proof (download_pdf_cases a download_folder w0) as Hcases.
    destruct (attempts_fetch_events a (mkKwargs true 30) RETRIES 0 w0)
      as (tr & Hlog & Hall & Hcount).
    fold (make_request_with_retries a (mkKwargs true 30) w0) in Hlog.
    destruct (make_request_with_retries a (mkKwargs true 30) w0)
      as [r [c1 l1]].
    cbn [snd log] in Hlog. subst l1. rewrite Hcases.
    assert (Hbase : gets_ok (tr ++ EvDownload a :: log w)).
    { by apply (gets_ok_download a [] tr (log w)). }
    assert (Hfalse : gets_ok
      (log ((if false then mret (M:=W) (mkVars (urls_to_visit v)
                                   (visited_urls v)
                                   ({[a]} ∪ downloaded_pdf_urls v))
             else mret v) (mkWorld c1 (tr ++ log w0))).2)) by done.
    destruct r as [[resp|]|e]; [|exact Hfalse..].
    destruct (download_filename a) as [name|]; [|exact Hfalse].
    cbn zeta. cbn [clock log].
    set (ok := write_body c1 _ resp).
    assert (Hw : gets_ok (EvWrite a (path_join download_folder name) ok
                            :: tr ++ EvDownload a :: log w)).
    { by apply (gets_ok_download a [EvWrite a _ ok] tr (log w));
        [|repeat constructor| |]. }
    by destruct ok.
  - destruct (_ && _); [|done].
    case_bool_decide; [|done]. unfold emit. cbn [snd log].
    by apply gets_ok_enqueue.
Qed.

Lemma gets_ok_iteration start_url download_folder current_url rest v w :
  gets_ok (log w) →
  gets_ok (log (crawl_iteration start_url download_folder current_url rest
                  v w).2).
Proof.
  intros HI. unfold crawl_iteration, mbind, W_bind.
  destruct (urldefrag current_url) as [[n f]|]; [|done].
  cbn [lift mret W_ret]. case_bool_decide; [done|].
  unfold emit. cbn [clock log visited_urls downloaded_pdf_urls urls_to_visit].
  set (w0 := mkWorld (clock w)
               (EvPageRequest current_url :: EvPoliteDelay :: log w)).
  destruct (attempts_fetch_events current_url (mkKwargs false 15) RETRIES 0 w0)
    as (tr & Hlog & Hall & Hcount).
  fold (make_request_with_retries current_url (mkKwargs false 15) w0) in Hlog.
  destruct (make_request_with_retries current_url (mkKwargs false 15) w0)
    as [r [c1 l1]].
  cbn [snd log] in Hlog. subst l1.
  assert (HI1 : gets_ok (tr ++ log w0)) by (by apply gets_ok_page).
  destruct r as [[resp|]|e]; [|done..].
  set (v0 := mkVars _ _ _).
  pose proof (for_each_post (λ _ w, gets_ok (log w)) (λ w, gets_ok (log w))
                (λ _ : string, True)
                (process_link start_url download_folder current_url)) as Hfor.
  specialize (Hfor ltac:(done)).
  specialize (Hfor ltac:(
    intros href v' w' _ HI';
    pose proof (gets_ok_process_link start_url download_folder current_url
                  href v' w' HI') as Hp;
    by destruct (process_link _ _ _ _ _ _) as [[?|?] ?])).
  specialize (Hfor (find_all_href (text resp)) v0
                (mkWorld c1 (tr ++ log w0))
                ltac:(by apply Forall_forall) HI1).
  by destruct (for_each _ _ _ _) as [[?|?] ?].
Qed.

End gets.

(** X12. At any point of any crawl, every GET belongs to a page request
    or to a download: it is a GET, with [timeout=15], of a URL requested
    as a page, or a GET, with [stream=True] and [timeout=30], of a PDF link
    whose download was called.  More precisely, each GET is a GET of the
    URL of the latest page request or download call before it, with the
    keyword arguments of that kind of call, and is the first, second or
    third GET since that call: there are at most 3 GETs for each page
    request and each download.  Every download is of a link that ends in
    [.pdf]. *)
Theorem every_get_is_accounted_for `{NC : NetlocChecks} `{E : Env}
    (start_url download_folder : string) (steps : nat) :
  let l := log (crawl_steps steps start_url download_folder
                  (initial_vars start_url) initial_world).2 in
  (∀ u kw, EvGet u kw ∈ l →
           kw = mkKwargs false 15 ∧ u ∈ page_requests l
           ∨ kw = mkKwargs true 30 ∧ u ∈ downloads l)
  ∧ (count_gets l ≤ 3 * (length (page_requests l) + length (downloads l)))%nat
  ∧ (∀ u, u ∈ downloads l → is_pdf u = true)
  ∧ (∀ newer u kw older,
       l = newer ++ EvGet u kw :: older →
       current_call older = Some (u, kw)
       ∧ (gets_since_call older < 3)%nat).
Proof.
  intros l.
  assert (Hinv : gets_ok l).
  { subst l.
    pose proof (crawl_steps_post (λ _ w, gets_ok (log w))
                  (λ w, gets_ok (log w)) start_url download_folder) as Hpost.
    specialize (Hpost ltac:(
      intros cur rest v w _ HI;
      pose proof (gets_ok_iteration start_url download_folder cur rest v w HI)
        as Hp;
      by destruct (crawl_iteration _ _ _ _ _ _) as [[?|?] ?])).
    specialize (Hpost steps (initial_vars start_url) initial_world).
    destruct (crawl_steps _ _ _ _ _) as [[v|e] w]; cbn [post snd] in *;
      apply Hpost; (split; [by intros ? ? ?%elem_of_nil|]);
      (split; [done|split; [constructor|done]]). }
  destruct Hinv as (Hget & Hcount & Hpdf & Hcalls).
  split; [done|]. split; [done|]. split; [by apply Forall_forall|].
  intros newer u kw older Hl. rewrite Hl in Hcalls.
  by apply calls_ok_split in Hcalls.
Qed.

(** * The visited set *)

Section visited.
Context `{NC : NetlocChecks} `{E : Env}.

Lemma visited_inv_iteration start_url download_folder current_url rest v w :
  urls_to_visit v = current_url :: rest →
  visited_inv v w →
  post visited_inv (λ _, True)
       (crawl_iteration start_url download_folder current_url rest v w).
Proof.
  intros Hfront HI.
  apply (crawl_iteration_post visited_inv visited_inv);
    [exact Hfront | exact HI | done | done | | | | ].
  - intros n _ _. exact HI.
  - intros n Hn _ k. unfold page_keys. cbn [visited_urls log]. log_cons.
    rewrite fmap_cons, Hn, elem_of_union, elem_of_singleton, elem_of_cons.
    rewrite (HI k). unfold page_keys. split.
    + intros [-> | ?]; auto.
    + intros [[= ->] | ?]; auto.
  - intros v' w' c tr HI' Htr k. unfold page_keys. cbn [log].
    rewrite page_requests_app.
    destruct (net_is_quiet tr Htr) as (-> & _). apply HI'.
  - intros c kw resp href a n v' w' x _ _ _ _ HI' Hstep.
    destruct Hstep as [? ? | ok tr w'' ? ? Hev Hlog | ? ? ? ? | ? ?];
      cbn [post]; [done | | | done].
    + intros k. unfold page_keys. rewrite Hlog, page_requests_app.
      destruct (download_events_quiet _ _ _ Hev) as (-> & _).
      cbn [app]. log_cons. destruct ok; apply HI'.
    + intros k. unfold page_keys. cbn [visited_urls log]. log_cons.
      apply HI'.
Qed.

End visited.

(** X13. At any point between two iterations of any crawl, the visited
    set holds exactly the fragment-stripped forms of the URLs requested as
    pages: a URL is marked visited only with its request, also when the
    request then fails. *)
Theorem visited_are_the_pages_requested `{NC : NetlocChecks} `{E : Env}
    (start_url download_folder : string) (steps : nat) (v : vars) (w : world)
    (k : string) :
  crawl_steps steps start_url download_folder (initial_vars start_url)
              initial_world = (Ok v, w) →
  k ∈ visited_urls v
  ↔ ∃ u, u ∈ page_requests (log w) ∧ normalized u = Some k.
Proof.
  intros Hrun.
  pose proof (crawl_steps_post visited_inv (λ _, True)
                start_url download_folder) as Hpost.
  specialize (Hpost ltac:(intros; by apply visited_inv_iteration) steps
                (initial_vars start_url) initial_world).
  rewrite Hrun in Hpost. cbn [post] in Hpost.
  assert (Hinit : visited_inv (initial_vars start_url) initial_world).
  { intros k'. cbn. rewrite elem_of_empty, elem_of_nil. done. }
  rewrite (Hpost Hinit k). unfold page_keys. rewrite list_elem_of_fmap.
  split; intros (u & ? & ?); eauto.
Qed.

Lemma visited_are_the_pages_requested_witness :
  ∃ v w,
    @crawl_steps lenient_checks pdf_env 5 "https://s.test/" "pdf_downloads"
      (initial_vars "https://s.test/") initial_world = (Ok v, w)
    ∧ ("https://s.test/a"%string ∈ visited_urls v
       ↔ ∃ u, u ∈ page_requests (log w)
              ∧ @normalized lenient_checks u = Some "https://s.test/a"%string).
Proof.
  destruct (@crawl_steps lenient_checks pdf_env 5 "https://s.test/"
              "pdf_downloads" (initial_vars "https://s.test/") initial_world)
    as [[v|e] w] eqn:Hrun;
    [|exfalso; revert Hrun; vm_compute; discriminate].
  exists v, w. split; [done|].
  exact (@visited_are_the_pages_requested lenient_checks pdf_env
           "https://s.test/"%string "pdf_downloads"%string 5 v w
           "https://s.test/a"%string Hrun).
Defined.

(** X14. A crawl whose start page cannot be fetched ends normally: when
    the set-up succeeds (the log file can be opened, and the download
    folder exists or can be created) and the three attempts at the start
    URL fail, the crawl makes three GETs, 1 and 2 seconds apart, and ends
    with an empty frontier, the start page as the only page visited and
    nothing downloaded. *)
Theorem failed_start_page_ends_normally
    `{NC : NetlocChecks} `{E : Env} `{FS : FileSystem}
    (start_url download_folder log_file n : string) :
  open_log_file log_file = true →
  path_exists download_folder = true ∨ makedirs download_folder = true →
  normalized start_url = Some n →
  (∀ j, (j < 3)%nat → fails j start_url (mkKwargs false 15)) →
  ∃ w,
    crawl_and_download_pdfs 2 start_url download_folder log_file
    = Some (Ok (mkVars [] {[n]} ∅), w)
    ∧ trace w
      = EvLogFile log_file
        :: (if path_exists download_folder then []
            else [EvMakedirs download_folder])
        ++ [EvPoliteDelay; EvPageRequest start_url;
            EvGet start_url (mkKwargs false 15); EvSleep 1;
            EvGet start_url (mkKwargs false 15); EvSleep 2;
            EvGet start_url (mkKwargs false 15)].
Proof.
  intros Hopen Hfolder Hn Hfail.
  set (w0 := mkWorld 0 [EvPageRequest start_url; EvPoliteDelay]).
  destruct (attempts_all_fail start_url (mkKwargs false 15) 2 0 w0 eq_refl)
    as (w' & Hrun & _ & Hlog); [exact Hfail|].
  assert (Hloop : crawl_loop 2 start_url download_folder
                    (initial_vars start_url) initial_world
                  = Some (Ok (mkVars [] {[n]} ∅), w')).
  { cbn [crawl_loop initial_vars urls_to_visit].
    rewrite (crawl_iteration_new _ _ _ _ _ _ n Hn) by apply not_elem_of_empty.
    cbn zeta. unfold make_request_with_retries.
    change (seq 0 RETRIES) with (seq 0 3).
    cbn [clock log initial_world initial_vars visited_urls
         downloaded_pdf_urls].
    fold w0. rewrite Hrun. cbn [urls_to_visit].
    by rewrite (right_id_L ∅ (∪)). }
  rewrite crawl_and_download_pdfs_loop, set_up_cases, Hopen, Hloop.
  assert (Htrace : rev (log w')
                   = [EvPoliteDelay; EvPageRequest start_url;
                      EvGet start_url (mkKwargs false 15); EvSleep 1;
                      EvGet start_url (mkKwargs false 15); EvSleep 2;
                      EvGet start_url (mkKwargs false 15)]).
  { rewrite Hlog. subst w0. cbn [log].
    cbn [rev app]. rewrite rev_app_distr, rev_involutive. reflexivity. }
  destruct (path_exists download_folder).
  - eexists. split; [reflexivity|]. unfold trace. cbn [snd with_older log].
    by rewrite rev_app_distr, Htrace.
  - destruct Hfolder as [[=] | ->].
    eexists. split; [reflexivity|]. unfold trace. cbn [snd with_older log].
    by rewrite rev_app_distr, Htrace.
Qed.

Lemma failed_start_page_ends_normally_witness :
  ∃ w,
    @crawl_and_download_pdfs lenient_checks down_env fresh_disk 2
      "https://x/" "pdf_downloads" "crawl_log.txt"
    = Some (Ok (mkVars [] {["https://x/"%string]} ∅), w)
    ∧ trace w
      = [EvLogFile "crawl_log.txt"; EvMakedirs "pdf_downloads";
         EvPoliteDelay; EvPageRequest "https://x/";
         EvGet "https://x/" (mkKwargs false 15); EvSleep 1;
         EvGet "https://x/" (mkKwargs false 15); EvSleep 2;
         EvGet "https://x/" (mkKwargs false 15)].
Proof.
  refine (@failed_start_page_ends_normally lenient_checks down_env fresh_disk
            "https://x/"%string "pdf_downloads"%string
            "crawl_log.txt"%string "https://x/"%string
            eq_refl (or_intror eq_refl) ltac:(evaluated) _).
  intros j _. by left.
Defined.

(** * Fragment-stripped URLs *)

Lemma contains_app c s1 s2 :
  Str.contains c (s1 +:+ s2) = Str.contains c s1 || Str.contains c s2.
Proof.
  induction s1 as [|a s1 IH]; [done|].
  rewrite app_String. cbn [Str.contains]. by rewrite IH, orb_assoc.
Qed.

Lemma contains_take c n s :
  Str.contains c s = false → Str.contains c (Str.take n s) = false.
Proof.
  revert s. induction n as [|n IH]; intros [|a s]; try done.
  cbn [Str.take Str.contains]. intros [-> Hs]%orb_false_iff. by apply IH.
Qed.

Lemma contains_drop c n s :
  Str.contains c s = false → Str.contains c (Str.drop n s) = false.
Proof.
  revert s. induction n as [|n IH]; intros [|a s]; try done.
  cbn [Str.drop Str.contains]. intros [_ Hs]%orb_false_iff. by apply IH.
Qed.

Lemma find_None c s : Str.find c s = None → Str.contains c s = false.
Proof.
  induction s as [|a s IH]; [done|]. cbn [Str.find Str.contains].
  destruct (Str.eqc a c); [done|]. destruct (Str.find c s); [done|]. auto.
Qed.

(** No [c] before the first [c]. *)
Lemma contains_take_find c s : ∀ i n,
  Str.find c s = Some i → (n ≤ i)%nat →
  Str.contains c (Str.take n s) = false.
Proof.
  induction s as [|a s IH]; intros i n; [done|]. cbn [Str.find].
  destruct (Str.eqc a c) eqn:Ha.
  - intros [= <-] Hn. by assert (n = 0%nat) as -> by lia.
  - destruct (Str.find c s) as [i'|]; [|done]. intros [= <-] Hn.
    destruct n as [|n]; [done|]. cbn [Str.take Str.contains]. rewrite Ha.
    apply (IH i'); [done|lia].
Qed.

Lemma split1_fst c s : Str.contains c (Str.split1 c s).1 = false.
Proof.
  induction s as [|a s IH]; [done|]. cbn [Str.split1].
  destruct (Str.eqc a c) eqn:Ha; [done|].
  destruct (Str.split1 c s) as [l r]. cbn [fst Str.contains] in *.
  by rewrite Ha.
Qed.

Lemma split1_other c d s :
  Str.contains d s = false →
  Str.contains d (Str.split1 c s).1 = false
  ∧ Str.contains d (Str.split1 c s).2 = false.
Proof.
  induction s as [|a s IH]; [done|]. cbn [Str.split1 Str.contains].
  intros [Ha Hs]%orb_false_iff. destruct (Str.eqc a c); [done|].
  destruct (IH Hs) as [H1 H2]. destruct (Str.split1 c s) as [l r].
  cbn [fst snd Str.contains] in *. by rewrite Ha.
Qed.

Lemma scheme_has_no_hash s :
  Str.all scheme_chars s = true → Str.contains "#" (Str.lower s) = false.
Proof.
  induction s as [|a s IH]; [done|]. cbn [Str.all Str.lower Str.contains].
  intros [Ha Hs]%andb_true_iff. rewrite (IH Hs), orb_false_r.
  clear -Ha. destruct a as [[] [] [] [] [] [] [] []]; by vm_compute in Ha |- *.
Qed.

Section defrag.
Context `{NC : NetlocChecks}.

(** The netloc of [_splitnetloc] stops before the first [#]. *)
Lemma splitnetloc_no_hash url :
  Str.contains "#" (_splitnetloc url 2).1 = false
  ∧ ∃ k, (_splitnetloc url 2).2 = Str.drop k url.
Proof.
  unfold _splitnetloc. cbn [foldl fst snd]. split; [|eauto].
  set (d0 := String.length url).
  set (d1 := match Str.find_from "/" 2 url with
             | Some wdelim => Nat.min d0 wdelim | None => d0 end).
  set (d2 := match Str.find_from "?" 2 url with
             | Some wdelim => Nat.min d1 wdelim | None => d1 end).
  unfold Str.find_from.
  destruct (Str.find "#" (Str.drop 2 url)) as [i|] eqn:Hf; cbn [fmap option_fmap option_map].
  - apply (contains_take_find _ _ i); [done|lia].
  - apply contains_take. by apply find_None.
Qed.

(** The scheme, netloc, path and query that [urlsplit] returns have no
    [#]. *)
Lemma urlsplit_no_hash url s n p q f :
  urlsplit url EmptyString = Some (s, n, p, q, f) →
  Str.contains "#" s = false ∧ Str.contains "#" n = false
  ∧ Str.contains "#" p = false ∧ Str.contains "#" q = false.
Proof.
  unfold urlsplit.
  set (url1 := Str.filter _ (Str.lstrip _ url)).
  change (Str.filter (λ c, negb (unsafe_url_byte c))
            (Str.strip c0_control_or_space EmptyString)) with EmptyString.
  set (sc := match Str.find ":" url1 with Some (S i) => _ | _ => _ end).
  assert (Hsc : Str.contains "#" sc.1 = false).
  { subst sc. destruct (Str.find ":" url1) as [[|i]|]; try done.
    destruct url1 as [|c0 r]; [done|].
    destruct (_ && _) eqn:Hb; [|done]. cbn [fst].
    apply scheme_has_no_hash. by apply andb_true_iff in Hb as [_ ?]. }
  destruct sc as [scheme0 url0]. cbn [fst] in Hsc.
  set (nl := if Str.startswith url0 "//" then _ else _).
  assert (Hnl : Str.contains "#" nl.1.1 = false).
  { subst nl. destruct (Str.startswith url0 "//"); [|done].
    pose proof (splitnetloc_no_hash url0) as [Hh _].
    destruct (_splitnetloc url0 2) as [netloc url2]. cbn [fst] in Hh.
    destruct (_ || _); [done|]. by destruct (_ && _). }
  destruct nl as [[netloc url2] ok]. cbn [fst] in Hnl.
  set (fr := if Str.contains "#" url2 then _ else _).
  assert (Hfr : Str.contains "#" fr.1 = false).
  { subst fr. destruct (Str.contains "#" url2) eqn:Hc; [apply split1_fst|done]. }
  destruct fr as [url3 fragment]. cbn [fst] in Hfr.
  set (qu := if Str.contains "?" url3 then _ else _).
  assert (Hqu : Str.contains "#" qu.1 = false ∧ Str.contains "#" qu.2 = false).
  { subst qu. destruct (Str.contains "?" url3); [by apply split1_other|done]. }
  destruct qu as [url4 query]. cbn [fst snd] in Hqu. destruct Hqu.
  destruct (ok && _); [|done]. by intros [= <- <- <- <- <-].
Qed.

Lemma splitparams_no_hash url :
  Str.contains "#" url = false →
  Str.contains "#" (_splitparams url).1 = false
  ∧ Str.contains "#" (_splitparams url).2 = false.
Proof.
  intros Hu. unfold _splitparams.
  destruct (Str.contains "/" url);
    [destruct (Str.find_from ";" _ url) | destruct (Str.find ";" url)];
    cbn [fst snd]; auto using contains_take, contains_drop.
Qed.

Lemma urlparse_no_hash url p :
  urlparse url EmptyString = Some p →
  Str.contains "#" (scheme p) = false ∧ Str.contains "#" (netloc p) = false
  ∧ Str.contains "#" (path p) = false ∧ Str.contains "#" (params p) = false
  ∧ Str.contains "#" (query p) = false.
Proof.
  unfold urlparse.
  destruct (urlsplit url EmptyString) as [[[[[s n] u] q] f]|] eqn:Hs; [|done].
  destruct (urlsplit_no_hash _ _ _ _ _ _ Hs) as (Hs1 & Hn & Hu & Hq).
  cbn. destruct (splitparams_no_hash u Hu) as [Hp1 Hp2].
  destruct (_ && _); [destruct (_splitparams u) as [u' pa]|];
    intros [= <-]; cbn in *; auto.
Qed.

(** [urlunparse] adds no [#] when the fragment is empty. *)
Lemma urlunparse_no_hash s n u pa q :
  Str.contains "#" s = false → Str.contains "#" n = false →
  Str.contains "#" u = false → Str.contains "#" pa = false →
  Str.contains "#" q = false →
  Str.contains "#" (urlunparse (mkParseResult s n u pa q EmptyString)) = false.
Proof.
  intros Hs Hn Hu Hpa Hq. unfold urlunparse, urlunsplit.
  cbn [scheme netloc path params query fragment Str.nonempty].
  set (u1 := if Str.nonempty pa then u +:+ ";" +:+ pa else u).
  assert (H1 : Str.contains "#" u1 = false).
  { subst u1. destruct (Str.nonempty pa); [|done].
    by rewrite !contains_app, Hu, Hpa. }
  set (u2 := if Str.nonempty n || _ then _ else u1).
  assert (H2 : Str.contains "#" u2 = false).
  { subst u2. destruct (_ || _); [|done].
    destruct (_ && _); by rewrite !contains_app, ?Hn, ?H1. }
  set (u3 := if Str.nonempty s then _ else u2).
  assert (H3 : Str.contains "#" u3 = false).
  { subst u3. destruct (Str.nonempty s); [|done].
    by rewrite !contains_app, Hs, H2. }
  destruct (Str.nonempty q); [|done]. by rewrite !contains_app, H3, Hq.
Qed.

End defrag.

(** X15. The fragment-stripped form of a URL has no [#] in it, and
    stripping it again changes nothing. *)
Theorem normalized_has_no_fragment `{NC : NetlocChecks} (url n : string) :
  normalized url = Some n →
  Str.contains "#" n = false ∧ normalized n = Some n.
Proof.
  intros Hn.
  assert (Hno : Str.contains "#" n = false).
  { unfold normalized, urldefrag in Hn.
    destruct (Str.contains "#" url) eqn:Hc.
    - destruct (urlparse url EmptyString) as [p|] eqn:Hp; [|done].
      cbn in Hn. injection Hn as <-.
      destruct (urlparse_no_hash _ _ Hp) as (? & ? & ? & ? & ?).
      by apply urlunparse_no_hash.
    - cbn in Hn. by injection Hn as <-. }
  split; [exact Hno|]. unfold normalized, urldefrag. by rewrite Hno.
Qed.

Lemma normalized_has_no_fragment_witness :
  Str.contains "#" "https://x/a;p?q=1" = false
  ∧ @normalized lenient_checks "https://x/a;p?q=1"
    = Some "https://x/a;p?q=1"%string.
Proof.
  exact (@normalized_has_no_fragment lenient_checks
           "HTTPS://x/a;p?q=1#frag#2"%string "https://x/a;p?q=1"%string
           ltac:(evaluated)).
Defined.

Section hash_start.
Context `{NC : NetlocChecks} `{E : Env}.

Lemma no_enqueue_iteration start_url download_folder current_url rest v w :
  Str.contains "#" start_url = true →
  urls_to_visit v = current_url :: rest →
  enqueued (log w) = [] →
  post (λ _ w, enqueued (log w) = []) (λ w, enqueued (log w) = [])
       (crawl_iteration start_url download_folder current_url rest v w).
Proof.
  intros Hstart Hfront HI.
  apply (crawl_iteration_post (λ _ w, enqueued (log w) = [])
           (λ _ w, enqueued (log w) = []));
    [exact Hfront | exact HI | done | done | done | | | ].
  - intros n _ _. cbn [log]. by log_cons.
  - intros v' w' c tr HI' Htr. cbn [log]. rewrite enqueued_app, HI'.
    by destruct (net_is_quiet tr Htr) as (_ & -> & _).
  - intros c kw resp href a n v' w' x _ _ _ Hn HI' Hstep.
    destruct Hstep as [? ? | ok tr w'' ? ? Hev Hlog | ? Hscope ? ? | ? ?];
      cbn [post]; [done | | | done].
    + destruct (download_events_quiet _ _ _ Hev) as (_ & Hq & _).
      rewrite Hlog, enqueued_app, Hq. cbn [app]. log_cons. by destruct ok.
    + exfalso. apply startswith_spec in Hscope as [tail ->].
      destruct (normalized_has_no_fragment _ _ Hn) as [Hno _].
      rewrite contains_app, Hstart in Hno. done.
Qed.

Lemma queue_inv_steps start_url download_folder steps :
  let l := log (crawl_steps steps start_url download_folder
                  (initial_vars start_url) initial_world).2 in
  rev (page_requests l) `sublist_of` start_url :: rev (enqueued l).
Proof.
  intros l.
  pose proof (crawl_steps_post (queue_inv start_url)
                (λ w, rev (page_requests (log w))
                      `sublist_of` start_url :: rev (enqueued (log w)))
                start_url download_folder) as Hpost.
  specialize (Hpost ltac:(intros; by apply queue_inv_iteration) steps
                (initial_vars start_url) initial_world).
  assert (Hinit : queue_inv start_url (initial_vars start_url) initial_world).
  { exists []. split; [done|]. apply sublist_nil_l. }
  subst l. destruct (crawl_steps _ _ _ _ _) as [[v|e] w]; cbn [post snd] in *.
  - destruct (Hpost Hinit) as (popped & -> & Hsub).
    by apply sublist_inserts_r.
  - by apply Hpost.
Qed.

End hash_start.

(** X16. A start URL with a [#] in it stops the crawl at the start page:
    no fragment-stripped link starts with it, so no link is ever enqueued
    and no page but the start URL is ever requested. *)
Theorem start_url_with_fragment_is_not_crawled
    `{NC : NetlocChecks} `{E : Env}
    (start_url download_folder : string) (steps : nat) :
  Str.contains "#" start_url = true →
  let l := log (crawl_steps steps start_url download_folder
                  (initial_vars start_url) initial_world).2 in
  enqueued l = [] ∧ ∀ u, u ∈ page_requests l → u = start_url.
Proof.
  intros Hstart l.
  assert (Henq : enqueued l = []).
  { subst l.
    pose proof (crawl_steps_post (λ _ w, enqueued (log w) = [])
                  (λ w, enqueued (log w) = []) start_url download_folder)
      as Hpost.
    specialize (Hpost ltac:(intros; by apply no_enqueue_iteration) steps
                  (initial_vars start_url) initial_world eq_refl).
    by destruct (crawl_steps _ _ _ _ _) as [[v|e] w]. }
  split; [exact Henq|]. intros u Hu.
  pose proof (queue_inv_steps start_url download_folder steps) as Hsub.
  cbn zeta in Hsub. fold l in Hsub. rewrite Henq in Hsub. cbn [rev] in Hsub.
  assert (Hin : u ∈ [start_url]).
  { apply (sublist_subseteq _ _ Hsub).
    by rewrite list_elem_of_In, <- in_rev, <- list_elem_of_In. }
  by apply list_elem_of_singleton in Hin.
Qed.

Lemma start_url_with_fragment_is_not_crawled_witness :
  let l := log (@crawl_steps lenient_checks pdf_env 5 "https://s.test/#top"
                  "pdf_downloads" (initial_vars "https://s.test/#top")
                  initial_world).2 in
  enqueued l = [] ∧ ∀ u, u ∈ page_requests l → u = "https://s.test/#top"%string.
Proof.
  exact (@start_url_with_fragment_is_not_crawled lenient_checks pdf_env
           "https://s.test/#top"%string "pdf_downloads"%string 5 eq_refl).
Defined.

(** * URLs that differ in their fragment *)

Lemma contains_lstrip c p s :
  Str.contains c s = false → Str.contains c (Str.lstrip p s) = false.
Proof.
  induction s as [|a s IH]; [done|]. cbn [Str.lstrip].
  destruct (p a); [|done]. cbn [Str.contains].
  intros [_ Hs]%orb_false_iff. auto.
Qed.

Lemma contains_filter c p s :
  Str.contains c s = false → Str.contains c (Str.filter p s) = false.
Proof.
  induction s as [|a s IH]; [done|]. cbn [Str.filter Str.contains].
  intros [Ha Hs]%orb_false_iff. destruct (p a); [|auto].
  cbn [Str.contains]. by rewrite Ha, IH.
Qed.

Lemma lstrip_app_sep p c u f :
  p c = false →
  Str.lstrip p (u +:+ String c f) = Str.lstrip p u +:+ String c f.
Proof.
  intros Hc. induction u as [|a u IH].
  - change (EmptyString +:+ String c f) with (String c f).
    cbn [Str.lstrip]. by rewrite Hc.
  - rewrite app_String. cbn [Str.lstrip]. destruct (p a); [done|].
    by rewrite app_String.
Qed.

Lemma filter_app_sep p c u f :
  p c = true →
  Str.filter p (u +:+ String c f) = Str.filter p u +:+ String c (Str.filter p f).
Proof.
  intros Hc. induction u as [|a u IH].
  - change (EmptyString +:+ String c f) with (String c f).
    cbn [Str.filter]. by rewrite Hc.
  - rewrite app_String. cbn [Str.filter]. destruct (p a); [|done].
    by rewrite app_String, IH.
Qed.

Lemma find_app c s1 s2 :
  Str.find c (s1 +:+ s2)
  = match Str.find c s1 with
    | Some k => Some k
    | None => (λ j, String.length s1 + j)%nat <$> Str.find c s2
    end.
Proof.
  induction s1 as [|a s1 IH].
  - change (EmptyString +:+ s2) with s2. cbn. by destruct (Str.find c s2).
  - rewrite app_String. cbn [Str.find]. destruct (Str.eqc a c); [done|].
    rewrite IH. destruct (Str.find c s1); [done|].
    by destruct (Str.find c s2).
Qed.

Lemma find_lt c s k : Str.find c s = Some k → (k < String.length s)%nat.
Proof.
  revert k. induction s as [|a s IH]; intros k; [done|]. cbn [Str.find].
  destruct (Str.eqc a c); [intros [= <-]; cbn; lia|].
  destruct (Str.find c s) as [k'|]; [|done]. intros [= <-].
  specialize (IH k' eq_refl). cbn. lia.
Qed.

Lemma take_app_le n s1 s2 :
  (n ≤ String.length s1)%nat → Str.take n (s1 +:+ s2) = Str.take n s1.
Proof.
  revert s1. induction n as [|n IH]; intros [|a s1] Hn; try done.
  - cbn in Hn. lia.
  - rewrite app_String. cbn [Str.take]. rewrite IH; [done|]. cbn in Hn. lia.
Qed.

Lemma drop_app_le n s1 s2 :
  (n ≤ String.length s1)%nat →
  Str.drop n (s1 +:+ s2) = Str.drop n s1 +:+ s2.
Proof.
  revert s1. induction n as [|n IH]; intros [|a s1] Hn; try done.
  - cbn in Hn. lia.
  - rewrite app_String. cbn [Str.drop]. apply IH. cbn in Hn. lia.
Qed.

Lemma take_app_sep_gt c n s1 s2 :
  (String.length s1 < n)%nat →
  Str.contains c (Str.take n (s1 +:+ String c s2)) = true.
Proof.
  revert n. induction s1 as [|a s1 IH]; intros n Hn.
  - destruct n as [|n]; [cbn in Hn; lia|].
    change (EmptyString +:+ String c s2) with (String c s2).
    cbn [Str.take Str.contains]. by rewrite eqc_refl.
  - destruct n as [|n]; [lia|]. rewrite app_String.
    cbn [Str.take Str.contains]. rewrite IH; [apply orb_true_r|].
    cbn in Hn. lia.
Qed.

Lemma all_scheme_chars_no_hash s :
  Str.contains "#" s = true → Str.all scheme_chars s = false.
Proof.
  induction s as [|a s IH]; [done|]. cbn [Str.contains Str.all].
  destruct (Str.eqc a "#") eqn:Ha.
  - apply Ascii.eqb_eq in Ha as ->. done.
  - cbn [orb]. intros Hs. rewrite (IH Hs). apply andb_false_r.
Qed.

Lemma split1_app_sep c s g :
  Str.contains c s = false → Str.split1 c (s +:+ String c g) = (s, g).
Proof.
  induction s as [|a s IH].
  - intros _. change (EmptyString +:+ String c g) with (String c g).
    cbn [Str.split1]. by rewrite eqc_refl.
  - cbn [Str.contains]. intros [Ha Hs]%orb_false_iff.
    rewrite app_String. cbn [Str.split1]. by rewrite Ha, (IH Hs).
Qed.

Lemma startswith_app_sep r c g p :
  Str.contains c p = false →
  Str.startswith (r +:+ String c g) p = Str.startswith r p.
Proof.
  revert r. induction p as [|b p IH]; intros r Hp; [by destruct r|].
  cbn [Str.contains] in Hp. apply orb_false_iff in Hp as [Hb Hp].
  destruct r as [|a r].
  - change (EmptyString +:+ String c g) with (String c g).
    cbn [Str.startswith]. unfold Str.eqc in *.
    rewrite Ascii.eqb_sym in Hb. by rewrite Hb.
  - rewrite app_String. cbn [Str.startswith]. by rewrite IH.
Qed.

Lemma unsafe_hash : negb (unsafe_url_byte "#") = true.
Proof. reflexivity. Qed.

Lemma find_hash_app u g :
  Str.contains "#" u = false →
  Str.find "#" (u +:+ String "#" g) = Some (String.length u).
Proof.
  intros Hu. rewrite find_app.
  destruct (Str.find "#" u) as [k|] eqn:Hf.
  - exfalso. clear -Hu Hf. revert k Hf.
    induction u as [|a u IH]; intros k; [done|].
    cbn [Str.contains Str.find] in *. apply orb_false_iff in Hu as [-> Hu].
    destruct (Str.find "#" u); [|done]. intros _. by eapply IH.
  - cbn. f_equal. lia.
Qed.

Section variants.
Context `{NC : NetlocChecks}.

(** The scheme step of [urlsplit] leaves what follows the first [#]
    alone. *)
Lemma scheme_step_fragment u :
  Str.contains "#" u = false →
  ∃ s r, Str.contains "#" r = false ∧ ∀ g,
    match Str.find ":" (u +:+ String "#" g), u +:+ String "#" g with
    | Some (S i), String c0 _ =>
        if Str.is_ascii_alpha c0
           && Str.all scheme_chars (Str.take (S i) (u +:+ String "#" g))
        then (Str.lower (Str.take (S i) (u +:+ String "#" g)),
              Str.drop (S i + 1) (u +:+ String "#" g))
        else (EmptyString, u +:+ String "#" g)
    | _, _ => (EmptyString, u +:+ String "#" g)
    end = (s, r +:+ String "#" g).
Proof.
  intros Hu. destruct (Str.find ":" u) as [k|] eqn:Hk.
  - pose proof (find_lt _ _ _ Hk) as Hlt.
    destruct u as [|c0 u']; [cbn in Hlt; lia|].
    destruct k as [|i].
    { exists EmptyString, (String c0 u'). split; [done|]. intros g.
      by rewrite find_app, Hk. }
    destruct (Str.is_ascii_alpha c0
              && Str.all scheme_chars (Str.take (S i) (String c0 u'))) eqn:Hb.
    + exists (Str.lower (Str.take (S i) (String c0 u'))),
             (Str.drop (S i + 1) (String c0 u')).
      split; [by apply contains_drop|]. intros g.
      rewrite find_app, Hk. rewrite app_String.
      rewrite <- (app_String c0 u' (String "#" g)).
      rewrite take_app_le by lia. rewrite Hb.
      by rewrite drop_app_le by lia.
    + exists EmptyString, (String c0 u'). split; [done|]. intros g.
      rewrite find_app, Hk. rewrite app_String.
      rewrite <- (app_String c0 u' (String "#" g)).
      rewrite take_app_le by lia. by rewrite Hb.
  - exists EmptyString, u. split; [done|]. intros g.
    rewrite find_app, Hk. cbn [Str.find].
    change (Str.eqc "#" ":") with false. cbv iota.
    destruct (Str.find ":" g) as [j|]; cbn [fmap option_fmap option_map];
      [|done].
    replace (String.length u + S j)%nat with (S (String.length u + j)) by lia.
    destruct (u +:+ String "#" g) as [|c0 x] eqn:Hx; [done|].
    rewrite <- Hx.
    rewrite (all_scheme_chars_no_hash (Str.take _ _)), andb_false_r; [done|].
    apply take_app_sep_gt. lia.
Qed.

(** [_splitnetloc] stops at the first [#] at the latest. *)
Lemma splitnetloc_fragment r :
  Str.contains "#" r = false → Str.startswith r "//" = true →
  ∃ nl tl, Str.contains "#" tl = false ∧ ∀ g,
    _splitnetloc (r +:+ String "#" g) 2 = (nl, tl +:+ String "#" g).
Proof.
  intros Hr [r' ->]%startswith_spec.
  assert (Hr' : Str.contains "#" r' = false) by done.
  set (n := String.length r').
  set (e1 := default n (Str.find "/" r')).
  set (e2 := default n (Str.find "?" r')).
  set (e := Nat.min (Nat.min e1 e2) n).
  exists (Str.take e r'), (Str.drop e r').
  split; [by apply contains_drop|]. intros g.
  unfold _splitnetloc. cbn [foldl]. unfold Str.find_from.
  change (Str.drop 2 (("//" +:+ r') +:+ String "#" g))
    with (r' +:+ String "#" g).
  rewrite (find_hash_app r' g Hr'). fold n.
  cbn [fmap option_fmap option_map].
  set (len := String.length _).
  assert (Hlen : (2 + n < len)%nat).
  { subst len n. rewrite !length_app. cbn. lia. }
  assert (Hf : ∀ c, Str.eqc "#" c = false →
            match (λ i, 2 + i)%nat <$> Str.find c (r' +:+ String "#" g) with
            | Some wd => ∃ k, wd = (2 + k)%nat
                ∧ (default n (Str.find c r') = k ∨
                   (default n (Str.find c r') = n ∧ n < k)%nat)
            | None => default n (Str.find c r') = n
            end).
  { intros c Hc. rewrite find_app.
    destruct (Str.find c r') as [k|] eqn:Hk.
    - cbn. exists k. auto.
    - cbn [Str.find]. rewrite Hc. destruct (Str.find c g) as [j|]; cbn; [|done].
      exists (n + S j)%nat. split; [done|]. right. split; [done|]. lia. }
  pose proof (Hf "/" eq_refl) as H1. pose proof (Hf "?" eq_refl) as H2.
  fold e1 in H1. fold e2 in H2. clear Hf.
  assert (He1 : (e1 ≤ n)%nat).
  { subst e1. destruct (Str.find "/" r') as [k|] eqn:Hk; cbn; [|lia].
    apply find_lt in Hk. fold n in Hk. lia. }
  assert (He2 : (e2 ≤ n)%nat).
  { subst e2. destruct (Str.find "?" r') as [k|] eqn:Hk; cbn; [|lia].
    apply find_lt in Hk. fold n in Hk. lia. }
  set (d := Nat.min _ (2 + n)).
  assert (Hd : d = (2 + e)%nat).
  { subst d e.
    destruct (_ <$> Str.find "/" _) as [w1|];
      destruct (_ <$> Str.find "?" _) as [w2|];
      repeat match goal with
             | H : ∃ _, _ |- _ => destruct H as (? & -> & ?)
             end; lia. }
  rewrite Hd. replace (2 + e - 2)%nat with e by lia.
  assert (He : (e ≤ n)%nat) by (subst e; lia).
  change (Str.drop (2 + e) (("//" +:+ r') +:+ String "#" g))
    with (Str.drop e (r' +:+ String "#" g)).
  by rewrite take_app_le, drop_app_le.
Qed.

(** [urlsplit] splits what precedes the first [#] in the same way
    whatever follows it, and returns what follows it as the fragment. *)
Lemma urlsplit_fragment u :
  Str.contains "#" u = false →
  ∃ r : option (string * string * string * string), ∀ f,
    urlsplit (u +:+ String "#" f) EmptyString
    = (λ '(s, n, p, q),
         (s, n, p, q, Str.filter (λ c, negb (unsafe_url_byte c)) f)) <$> r.
Proof.
  intros Hu. unfold urlsplit.
  change (Str.filter (λ c, negb (unsafe_url_byte c))
            (Str.strip c0_control_or_space EmptyString)) with EmptyString.
  set (u1 := Str.filter (λ c, negb (unsafe_url_byte c))
               (Str.lstrip c0_control_or_space u)).
  assert (Hu1 : Str.contains "#" u1 = false)
    by by apply contains_filter, contains_lstrip.
  destruct (scheme_step_fragment u1 Hu1) as (s & r & Hr & Hsch).
  destruct (Str.startswith r "//") eqn:Hsw.
  - destruct (splitnetloc_fragment r Hr Hsw) as (nl & tl & Htl & Hnl).
    set (ok := if (Str.contains "[" nl && negb (Str.contains "]" nl))
                  || (Str.contains "]" nl && negb (Str.contains "[" nl))
               then false
               else if Str.contains "[" nl && Str.contains "]" nl
                    then check_bracketed_netloc nl else true).
    set (pq := if Str.contains "?" tl then Str.split1 "?" tl
               else (tl, EmptyString)).
    exists (if ok && _checknetloc nl then Some (s, nl, pq.1, pq.2) else None).
    intros f.
    cbv zeta.
    rewrite (lstrip_app_sep c0_control_or_space "#" u f eq_refl).
    rewrite (filter_app_sep _ "#" _ f unsafe_hash).
    fold u1. rewrite Hsch.
    rewrite (startswith_app_sep r "#" _ "//" eq_refl), Hsw, Hnl.
    subst ok pq.
    destruct (_ || _).
    + cbn. by rewrite contains_app_sep, split1_app_sep;
        destruct (Str.contains "?" tl); try destruct (Str.split1 "?" tl).
    + destruct (Str.contains "[" nl && Str.contains "]" nl);
        rewrite contains_app_sep, split1_app_sep by done;
        destruct (Str.contains "?" tl); try destruct (Str.split1 "?" tl);
        cbn [fst snd]; by destruct (_ && _).
  - set (pq := if Str.contains "?" r then Str.split1 "?" r
               else (r, EmptyString)).
    exists (Some (s, EmptyString, pq.1, pq.2)). intros f.
    cbv zeta.
    rewrite (lstrip_app_sep c0_control_or_space "#" u f eq_refl).
    rewrite (filter_app_sep _ "#" _ f unsafe_hash).
    fold u1. rewrite Hsch.
    rewrite (startswith_app_sep r "#" _ "//" eq_refl), Hsw.
    rewrite contains_app_sep, split1_app_sep by done. subst pq.
    by destruct (Str.contains "?" r); try destruct (Str.split1 "?" r).
Qed.

End variants.

(** X17. Two URLs that differ only after their first [#] have the same
    fragment-stripped form: the crawler takes them for the same page. *)
Theorem fragment_variants_are_one_page `{NC : NetlocChecks}
    (u f1 f2 : string) :
  Str.contains "#" u = false →
  normalized (u +:+ String "#" f1) = normalized (u +:+ String "#" f2).
Proof.
  intros Hu. unfold normalized, urldefrag. rewrite !contains_app_sep.
  unfold urlparse. destruct (urlsplit_fragment u Hu) as [r Hr].
  rewrite !Hr. destruct r as [[[[s n] p] q]|]; [|done]. cbn.
  by destruct (_ && _); [destruct (_splitparams p)|].
Qed.

Lemma fragment_variants_are_one_page_witness :
  @normalized lenient_checks "HTTPS://s.test/a?b=1#top"
  = @normalized lenient_checks "HTTPS://s.test/a?b=1#end".
Proof.
  exact (@fragment_variants_are_one_page lenient_checks
           "HTTPS://s.test/a?b=1"%string "top"%string "end"%string eq_refl).
Defined.

(** * Termination of the crawl *)


Section drained.
Context `{NC : NetlocChecks} `{E : Env}.








End drained.



(** * Parsing a URL that was put together *)

Lemma app_assoc_s (a b c : string) : (a +:+ b) +:+ c = a +:+ (b +:+ c).
Proof. induction a as [|x a IH]; [done|]. by rewrite !app_String, IH. Qed.

Lemma app_empty_r (a : string) : a +:+ EmptyString = a.
Proof. induction a as [|x a IH]; [done|]. by rewrite app_String, IH. Qed.

Lemma all_app p a b : Str.all p (a +:+ b) = Str.all p a && Str.all p b.
Proof.
  induction a as [|x a IH]; [done|].
  rewrite app_String. cbn [Str.all]. by rewrite IH, andb_assoc.
Qed.

Lemma all_take p n s : Str.all p s = true → Str.all p (Str.take n s) = true.
Proof.
  revert s. induction n as [|n IH]; intros [|a s]; try done.
  cbn [Str.take Str.all]. intros [-> Hs]%andb_true_iff. by apply IH.
Qed.

Lemma all_drop p n s : Str.all p s = true → Str.all p (Str.drop n s) = true.
Proof.
  revert s. induction n as [|n IH]; intros [|a s]; try done.
  cbn [Str.drop Str.all]. intros [_ Hs]%andb_true_iff. by apply IH.
Qed.

Lemma all_split1 p c s :
  Str.all p s = true →
  Str.all p (Str.split1 c s).1 = true ∧ Str.all p (Str.split1 c s).2 = true.
Proof.
  induction s as [|a s IH]; [done|]. cbn [Str.split1 Str.all].
  intros [Ha Hs]%andb_true_iff. destruct (Str.eqc a c); [done|].
  destruct (IH Hs) as [H1 H2]. destruct (Str.split1 c s) as [l r].
  cbn [fst snd Str.all] in *. by rewrite Ha.
Qed.

Lemma all_filter p s : Str.all p (Str.filter p s) = true.
Proof.
  induction s as [|a s IH]; [done|]. cbn [Str.filter].
  destruct (p a) eqn:Ha; [|done]. cbn [Str.all]. by rewrite Ha.
Qed.

Lemma all_lstrip q p s :
  Str.all q s = true → Str.all q (Str.lstrip p s) = true.
Proof.
  induction s as [|a s IH]; [done|]. cbn [Str.lstrip].
  destruct (p a); [|done]. cbn [Str.all]. intros [_ ?]%andb_true_iff. auto.
Qed.

Lemma filter_id p s : Str.all p s = true → Str.filter p s = s.
Proof.
  induction s as [|a s IH]; [done|]. cbn [Str.all Str.filter].
  intros [-> Hs]%andb_true_iff. by rewrite IH.
Qed.

Lemma contains_false_find c s :
  Str.contains c s = false → Str.find c s = None.
Proof.
  induction s as [|a s IH]; [done|]. cbn [Str.contains Str.find].
  intros [-> Hs]%orb_false_iff. by rewrite IH.
Qed.

Lemma take_length s : Str.take (String.length s) s = s.
Proof. induction s as [|a s IH]; [done|]. cbn. by rewrite IH. Qed.

Lemma drop_length s : Str.drop (String.length s) s = EmptyString.
Proof. induction s as [|a s IH]; [done|]. done. Qed.

Lemma drop_add a b s : Str.drop (a + b) s = Str.drop b (Str.drop a s).
Proof.
  revert s. induction a as [|a IH]; intros s; [done|].
  destruct s as [|x s]; [by destruct b|]. apply IH.
Qed.

Lemma take_app_add s1 m s2 :
  Str.take (String.length s1 + m) (s1 +:+ s2) = s1 +:+ Str.take m s2.
Proof.
  induction s1 as [|a s1 IH]; [done|]. rewrite !app_String. cbn. by rewrite IH.
Qed.

Lemma drop_app_add s1 m s2 :
  Str.drop (String.length s1 + m) (s1 +:+ s2) = Str.drop m s2.
Proof. by rewrite drop_add, drop_app_length. Qed.

(** At the index that [find] returns is the character looked for. *)
Lemma find_drop c s i :
  Str.find c s = Some i → Str.drop i s = String c (Str.drop (S i) s).
Proof.
  revert i. induction s as [|a s IH]; intros i; [done|]. cbn [Str.find].
  destruct (Str.eqc a c) eqn:Ha.
  - intros [= <-]. by apply Ascii.eqb_eq in Ha as ->.
  - destruct (Str.find c s) as [i'|]; [|done]. intros [= <-]. by apply IH.
Qed.

Lemma find_from_drop c k s i :
  Str.find_from c k s = Some i →
  Str.drop i s = String c (Str.drop (i + 1) s) ∧ (k ≤ i)%nat
  ∧ Str.contains c (Str.take (i - k) (Str.drop k s)) = false.
Proof.
  unfold Str.find_from.
  destruct (Str.find c (Str.drop k s)) as [i'|] eqn:Hf; [|done].
  intros [= <-]. rewrite drop_add, (find_drop _ _ _ Hf).
  replace (k + i' + 1)%nat with (k + S i')%nat by lia. rewrite drop_add.
  split; [done|]. split; [lia|].
  replace (k + i' - k)%nat with i' by lia.
  by apply (contains_take_find _ _ i').
Qed.

(** [rfind] returns the index of the last occurrence. *)
Lemma rfind_split c s k :
  Str.rfind c s = Some k →
  ∃ A B, s = A +:+ String c B ∧ String.length A = k
         ∧ Str.contains c B = false.
Proof.
  revert k. induction s as [|a s IH]; intros k; [done|]. cbn [Str.rfind].
  destruct (Str.rfind c s) as [i|] eqn:Hr.
  - intros [= <-]. destruct (IH i eq_refl) as (A & B & -> & <- & HB).
    by exists (String a A), B.
  - destruct (Str.eqc a c) eqn:Ha; [|done]. intros [= <-].
    apply Ascii.eqb_eq in Ha as ->. exists EmptyString, s.
    split; [done|]. split; [done|]. by apply rfind_None.
Qed.

Lemma rfind_app_sep c A B :
  Str.contains c B = false →
  Str.rfind c (A +:+ String c B) = Some (String.length A).
Proof.
  intros HB. induction A as [|a A IH].
  - change (EmptyString +:+ String c B) with (String c B). cbn [Str.rfind].
    destruct (Str.rfind c B) as [i|] eqn:Hr.
    + exfalso. destruct (rfind_split _ _ _ Hr) as (A' & B' & -> & _).
      by rewrite contains_app_sep in HB.
    + by rewrite eqc_refl.
  - rewrite app_String. cbn [Str.rfind]. by rewrite IH.
Qed.

Lemma rfind_contains c s :
  Str.contains c s = true → ∃ k, Str.rfind c s = Some k.
Proof.
  destruct (Str.rfind c s) as [k|] eqn:Hr; [eauto|].
  apply rfind_None in Hr. congruence.
Qed.

Lemma lstrip_id p s :
  match s with String c _ => p c = false | EmptyString => True end →
  Str.lstrip p s = s.
Proof. destruct s as [|c s]; [done|]. cbn. by intros ->. Qed.

(** ** Characters of a scheme *)

Lemma lower_char_scheme c :
  scheme_chars c = true →
  scheme_chars (Str.lower_char c) = true
  ∧ Str.lower_char (Str.lower_char c) = Str.lower_char c
  ∧ Str.eqc (Str.lower_char c) ":" = false
  ∧ negb (unsafe_url_byte (Str.lower_char c)) = true.
Proof.
  destruct c as [[] [] [] [] [] [] [] []]; vm_compute; intros H;
    try discriminate H; done.
Qed.

Lemma lower_char_alpha c :
  Str.is_ascii_alpha c = true →
  Str.is_ascii_alpha (Str.lower_char c) = true
  ∧ c0_control_or_space (Str.lower_char c) = false.
Proof.
  destruct c as [[] [] [] [] [] [] [] []]; vm_compute; intros H;
    try discriminate H; done.
Qed.

Lemma lower_scheme t :
  Str.all scheme_chars t = true →
  Str.all scheme_chars (Str.lower t) = true
  ∧ Str.lower (Str.lower t) = Str.lower t
  ∧ Str.contains ":" (Str.lower t) = false
  ∧ safe (Str.lower t) = true.
Proof.
  unfold safe. induction t as [|c t IH]; [done|].
  cbn [Str.all Str.lower Str.contains].
  intros [Hc Ht]%andb_true_iff. destruct (IH Ht) as (H1 & H2 & H3 & H4).
  destruct (lower_char_scheme c Hc) as (G1 & G2 & G3 & G4).
  by rewrite H1, H2, H3, H4, G1, G2, G3, G4.
Qed.

(** ** The netloc *)

Lemma delimiter_not_hash_cases c :
  delimiter c → Str.eqc c "/" = true ∨ Str.eqc c "?" = true
                ∨ Str.eqc c "#" = true.
Proof. intros [-> | [-> | ->]]; auto. Qed.

Section netloc.
Context `{NC : NetlocChecks}.

(** the index at which [_splitnetloc(url, 2)] cuts *)
Lemma splitnetloc_delim url :
  ∃ d, _splitnetloc url 2 = (Str.take (d - 2) (Str.drop 2 url), Str.drop d url)
       ∧ (∀ c i, delimiter c → Str.find c (Str.drop 2 url) = Some i →
                 (d ≤ 2 + i)%nat)
       ∧ (d = String.length url
          ∨ ∃ c i, delimiter c ∧ Str.find c (Str.drop 2 url) = Some i
                   ∧ d = (2 + i)%nat).
Proof.
  unfold _splitnetloc. cbn [foldl]. unfold Str.find_from.
  eexists. split; [reflexivity|].
  destruct (Str.find "/" (Str.drop 2 url)) as [i1|] eqn:H1;
    destruct (Str.find "?" (Str.drop 2 url)) as [i2|] eqn:H2;
    destruct (Str.find "#" (Str.drop 2 url)) as [i3|] eqn:H3;
    cbn [fmap option_fmap option_map].
  all: split;
    [ intros c i [-> | [-> | ->]] Hf; rewrite ?H1, ?H2, ?H3 in Hf;
      try discriminate Hf; injection Hf as <-; lia |].
  all: repeat match goal with
       | |- context [Nat.min ?a ?b] =>
           destruct (Nat.min_spec a b) as [[? ->] | [? ->]]
       end.
  all: try (left; reflexivity).
  all: try (right; exists "/"%char, i1; split; [by left|]; by split).
  all: try (right; exists "?"%char, i2; split; [by right; left|]; by split).
  all: try (right; exists "#"%char, i3; split; [by right; right|]; by split).
Qed.

(** The netloc has none of [/], [?] and [#]. *)
Lemma splitnetloc_clean url c :
  delimiter c → Str.contains c (_splitnetloc url 2).1 = false.
Proof.
  intros Hc. destruct (splitnetloc_delim url) as (d & -> & Hle & _).
  cbn [fst]. destruct (Str.find c (Str.drop 2 url)) as [i|] eqn:Hf.
  - apply (contains_take_find _ _ i); [done|]. specialize (Hle c i Hc Hf). lia.
  - apply contains_take. by apply find_None.
Qed.

(** What follows the netloc is empty or starts with [/], [?] or [#]. *)
Lemma splitnetloc_tail url :
  (_splitnetloc url 2).2 = EmptyString
  ∨ ∃ d t, (_splitnetloc url 2).2 = String d t ∧ delimiter d.
Proof.
  destruct (splitnetloc_delim url) as (d & -> & _ & [-> | (c & i & Hc & Hf & ->)]).
  - left. apply drop_length.
  - right. cbn [snd]. rewrite drop_add, (find_drop _ _ _ Hf). eauto.
Qed.

Lemma splitnetloc_all p url :
  Str.all p url = true →
  Str.all p (_splitnetloc url 2).1 = true
  ∧ Str.all p (_splitnetloc url 2).2 = true.
Proof.
  intros Hu. destruct (splitnetloc_delim url) as (d & -> & _).
  cbn [fst snd]. auto using all_take, all_drop.
Qed.

(** [_splitnetloc] finds a netloc without [/], [?] and [#] again. *)
Lemma splitnetloc_exact n X :
  (∀ c, delimiter c → Str.contains c n = false) →
  X = EmptyString ∨ (∃ d t, X = String d t ∧ delimiter d) →
  _splitnetloc ("//" +:+ n +:+ X) 2 = (n, X).
Proof.
  intros Hn HX.
  destruct (splitnetloc_delim ("//" +:+ n +:+ X)) as (d & -> & Hle & Hd).
  change (Str.drop 2 ("//" +:+ n +:+ X)) with (n +:+ X) in *.
  assert (Hfind : ∀ c i, delimiter c → Str.find c (n +:+ X) = Some i →
                         (String.length n ≤ i)%nat).
  { intros c i Hc. rewrite find_app, (contains_false_find _ _ (Hn c Hc)).
    destruct (Str.find c X); [|done]. cbn. intros [= <-]. lia. }
  assert (Heq : d = (2 + String.length n)%nat).
  { destruct HX as [-> | (c & t & -> & Hc)].
    - rewrite app_empty_r in *.
      destruct Hd as [-> | (c & i & Hc & Hf & ->)]; [done|].
      rewrite (contains_false_find _ _ (Hn c Hc)) in Hf. done.
    - assert (Hf : Str.find c (n +:+ String c t)
                   = Some (String.length n)).
      { rewrite find_app, (contains_false_find _ _ (Hn c Hc)).
        cbn [Str.find]. rewrite eqc_refl. cbn. f_equal. lia. }
      specialize (Hle c _ Hc Hf).
      destruct Hd as [-> | (c' & i & Hc' & Hf' & ->)].
      + rewrite !length_app in Hle. cbn [String.length] in Hle. lia.
      + specialize (Hfind c' i Hc' Hf'). lia. }
  subst d. replace (2 + String.length n - 2)%nat with (String.length n) by lia.
  change (Str.drop (2 + String.length n) ("//" +:+ n +:+ X))
    with (Str.drop (String.length n) (n +:+ X)).
  rewrite drop_app_length.
  rewrite <- (Nat.add_0_r (String.length n)), take_app_add.
  by destruct X; rewrite app_empty_r.
Qed.

End netloc.

(** ** What [urlsplit] returns *)

Lemma split_keeps_head c d t :
  Str.eqc d c = false →
  ∃ r, (if Str.contains c (String d t) then Str.split1 c (String d t)
        else (String d t, EmptyString)).1 = String d r.
Proof.
  intros Hd. cbn [Str.contains Str.split1]. rewrite Hd. cbn [orb].
  destruct (Str.contains c t); [|by eexists].
  destruct (Str.split1 c t) as [l r]. by eexists.
Qed.

Lemma split_at_head c t :
  (if Str.contains c (String c t) then Str.split1 c (String c t)
   else (String c t, EmptyString)).1 = EmptyString.
Proof. cbn [Str.contains Str.split1]. by rewrite eqc_refl. Qed.

Section facts.
Context `{NC : NetlocChecks}.

(** The parts that [urlsplit] returns: a scheme in lower case, a netloc
    without [/], [?] and [#] that passed the checks, after a netloc a path
    that is empty or starts with [/], no [?] in the path, no [#] but in
    the fragment, and no tab or line break anywhere. *)
Lemma urlsplit_facts url s n u q f :
  urlsplit url EmptyString = Some (s, n, u, q, f) →
  is_scheme s
  ∧ safe n = true ∧ safe u = true ∧ safe q = true ∧ safe f = true
  ∧ (∀ c, delimiter c → Str.contains c n = false)
  ∧ (n ≠ EmptyString → u = EmptyString ∨ Str.startswith u "/" = true)
  ∧ Str.contains "#" u = false ∧ Str.contains "?" u = false
  ∧ Str.contains "#" q = false
  ∧ netloc_ok n = true.
Proof.
  unfold urlsplit.
  set (url1 := Str.filter _ (Str.lstrip _ url)).
  assert (Hsafe1 : safe url1 = true) by apply all_filter.
  change (Str.filter (λ c, negb (unsafe_url_byte c))
            (Str.strip c0_control_or_space EmptyString)) with EmptyString.
  set (sc := match Str.find ":" url1 with Some (S i) => _ | _ => _ end).
  assert (Hsc : is_scheme sc.1 ∧ safe sc.2 = true).
  { subst sc. destruct (Str.find ":" url1) as [[|i]|];
      try (split; [by left|done]).
    destruct url1 as [|c0 r]; [split; [by left|done]|].
    destruct (_ && _) eqn:Hb; [|split; [by left|done]].
    apply andb_true_iff in Hb as [Ha Hall]. cbn [fst snd]. split.
    - right. by exists c0, (Str.take i r).
    - by apply all_drop. }
  destruct sc as [scheme0 url0]. cbn [fst snd] in Hsc.
  destruct Hsc as [Hscheme Hsafe0].
  set (nl := if Str.startswith url0 "//" then _ else _).
  assert (Hnl :
    (∀ c, delimiter c → Str.contains c nl.1.1 = false)
    ∧ safe nl.1.1 = true ∧ safe nl.1.2 = true
    ∧ (nl.1.1 ≠ EmptyString →
       nl.1.2 = EmptyString ∨ ∃ d t, nl.1.2 = String d t ∧ delimiter d)
    ∧ (nl.2 && _checknetloc nl.1.1 = netloc_ok nl.1.1)).
  { subst nl. destruct (Str.startswith url0 "//").
    - pose proof (splitnetloc_clean url0) as Hclean.
      pose proof (splitnetloc_tail url0) as Htail.
      pose proof (splitnetloc_all _ url0 Hsafe0) as [Hs1 Hs2].
      destruct (_splitnetloc url0 2) as [netloc url2]. cbn [fst snd] in *.
      assert (Hb : ∃ b,
        (if Str.contains "[" netloc && negb (Str.contains "]" netloc)
            || Str.contains "]" netloc && negb (Str.contains "[" netloc)
         then (netloc, url2, false)
         else if Str.contains "[" netloc && Str.contains "]" netloc
              then (netloc, url2, check_bracketed_netloc netloc)
              else (netloc, url2, true)) = (netloc, url2, b)
        ∧ b && _checknetloc netloc = netloc_ok netloc).
      { unfold netloc_ok. cbv zeta.
        destruct (_ || _); [by eexists|]. destruct (_ && _); by eexists. }
      destruct Hb as (b & -> & Hb). cbn [fst snd]. auto.
    - cbn [fst snd]. split; [done|]. split; [done|]. split; [done|].
      split; done. }
  destruct nl as [[netloc url2] ok]. cbn [fst snd] in Hnl.
  destruct Hnl as (Hclean & Hsafen & Hsafe2 & Htail & Hok).
  set (fr := if Str.contains "#" url2 then _ else _).
  assert (Hfr : Str.contains "#" fr.1 = false
                ∧ safe fr.1 = true ∧ safe fr.2 = true
                ∧ (netloc ≠ EmptyString →
                   fr.1 = EmptyString
                   ∨ ∃ d t, fr.1 = String d t
                            ∧ (d = "/"%char ∨ d = "?"%char))).
  { split; [|split; [|split]].
    - subst fr. destruct (Str.contains "#" url2) eqn:Hc;
        [apply split1_fst|done].
    - subst fr. destruct (Str.contains "#" url2); [|done].
      by apply all_split1.
    - subst fr. destruct (Str.contains "#" url2); [|done].
      by apply all_split1.
    - intros Hne.
      destruct (Htail Hne) as [-> | (d & t & -> & [-> | [-> | ->]])].
      + by left.
      + right. destruct (split_keeps_head "#" "/" t eq_refl) as [r Hr].
        fold fr in Hr. exists "/"%char, r. auto.
      + right. destruct (split_keeps_head "#" "?" t eq_refl) as [r Hr].
        fold fr in Hr. exists "?"%char, r. auto.
      + left. apply split_at_head. }
  destruct fr as [url3 fragment0]. cbn [fst snd] in Hfr.
  destruct Hfr as (Hh3 & Hsafe3 & Hsafef & Hshape3).
  set (qu := if Str.contains "?" url3 then _ else _).
  assert (Hqu : Str.contains "#" qu.1 = false ∧ Str.contains "#" qu.2 = false
                ∧ Str.contains "?" qu.1 = false
                ∧ safe qu.1 = true ∧ safe qu.2 = true
                ∧ (netloc ≠ EmptyString →
                   qu.1 = EmptyString ∨ Str.startswith qu.1 "/" = true)).
  { assert (H12 : Str.contains "#" qu.1 = false
                  ∧ Str.contains "#" qu.2 = false).
    { subst qu. destruct (Str.contains "?" url3); [by apply split1_other|done]. }
    destruct H12 as [H1 H2]. split; [done|]. split; [done|].
    split; [|split; [|split]].
    - subst qu. destruct (Str.contains "?" url3) eqn:Hc;
        [apply split1_fst|done].
    - subst qu. destruct (Str.contains "?" url3); [|done].
      by apply all_split1.
    - subst qu. destruct (Str.contains "?" url3); [|done].
      by apply all_split1.
    - intros Hne.
      destruct (Hshape3 Hne) as [-> | (d & t & -> & [-> | ->])].
      + by left.
      + right. destruct (split_keeps_head "?" "/" t eq_refl) as [r Hr].
        change (qu.1 = String "/" r) in Hr. rewrite Hr. by destruct r.
      + left. apply split_at_head. }
  destruct qu as [url4 query0]. cbn [fst snd] in Hqu.
  destruct Hqu as (? & ? & ? & ? & ? & ?).
  rewrite Hok. destruct (netloc_ok netloc) eqn:Hcheck; [|done].
  intros [= <- <- <- <- <-]. auto 12.
Qed.

End facts.

(** ** Splitting a URL that [urlunsplit] built *)

Section rebuilt.
Context `{NC : NetlocChecks}.

Lemma urlsplit_steps url :
  urlsplit url EmptyString
  = let '(scheme, url) :=
      scheme_step (Str.filter (λ c, negb (unsafe_url_byte c))
                     (Str.lstrip c0_control_or_space url)) in
    let '(netloc, url, ok) := netloc_step url in
    let '(url, fragment) := cut "#" url in
    let '(url, query) := cut "?" url in
    if ok && _checknetloc netloc
    then Some (scheme, netloc, url, query, fragment)
    else None.
Proof. reflexivity. Qed.

(** the URL that [urlunsplit] builds around a netloc *)
Lemma urlunsplit_netloc s n u q f :
  n ≠ EmptyString →
  u = EmptyString ∨ Str.startswith u "/" = true →
  urlunsplit s n u q f
  = (if Str.nonempty s then s +:+ ":" else EmptyString)
    +:+ "//" +:+ n +:+ u
    +:+ (if Str.nonempty q then String "?" q else EmptyString)
    +:+ (if Str.nonempty f then String "#" f else EmptyString).
Proof.
  intros Hn Hu. unfold urlunsplit. destruct n as [|a n]; [done|].
  cbn [Str.nonempty orb].
  assert (Hu' : (if Str.nonempty u && negb (Str.startswith u "/")
                 then "/" +:+ u else u) = u).
  { destruct Hu as [-> | ->]; [done|]. by rewrite andb_false_r. }
  rewrite Hu'.
  destruct (Str.nonempty s), (Str.nonempty q), (Str.nonempty f);
    rewrite ?app_assoc_s, ?app_empty_r; reflexivity.
Qed.

Lemma scheme_step_rebuilt s rest :
  is_scheme s →
  scheme_step ((if Str.nonempty s then s +:+ ":" else EmptyString)
               +:+ "//" +:+ rest)
  = (s, "//" +:+ rest).
Proof.
  intros [-> | (c0 & t & -> & Ha & Hall)].
  - unfold scheme_step. cbn [Str.nonempty].
    change (EmptyString +:+ "//" +:+ rest) with (String "/" (String "/" rest)).
    by destruct (Str.find ":" _) as [[|i]|].
  - destruct (lower_scheme _ Hall) as (Hall' & Hidem & Hcolon & _).
    destruct (lower_char_alpha _ Ha) as [Ha' _].
    set (s := Str.lower (String c0 t)) in *.
    change (Str.nonempty s) with true. cbv iota.
    rewrite app_assoc_s.
    assert (Hfind : Str.find ":" (s +:+ ":" +:+ "//" +:+ rest)
                    = Some (S (String.length (Str.lower t)))).
    { rewrite find_app, (contains_false_find _ _ Hcolon).
      change (Str.find ":" (":" +:+ "//" +:+ rest)) with (Some 0%nat).
      cbn. f_equal. lia. }
    unfold scheme_step. rewrite Hfind.
    change (s +:+ ":" +:+ "//" +:+ rest)
      with (String (Str.lower_char c0) (Str.lower t +:+ ":" +:+ "//" +:+ rest))
      at 1.
    cbv iota.
    change (S (String.length (Str.lower t))) with (String.length s).
    rewrite (take_app_le (String.length s)) by done.
    rewrite take_length, Ha', Hall', Hidem. cbn [andb].
    replace (String.length s + 1)%nat with (String.length s + 1)%nat by done.
    by rewrite drop_app_add.
Qed.

Lemma bracket_cases (n X : string) :
  ∃ b,
    (if Str.contains "[" n && negb (Str.contains "]" n)
        || Str.contains "]" n && negb (Str.contains "[" n)
     then (n, X, false)
     else if Str.contains "[" n && Str.contains "]" n
          then (n, X, check_bracketed_netloc n)
          else (n, X, true)) = (n, X, b)
    ∧ b && _checknetloc n = netloc_ok n.
Proof.
  unfold netloc_ok. cbv zeta.
  destruct (_ || _); [by exists false|].
  destruct (_ && _); [by exists (check_bracketed_netloc n) | by exists true].
Qed.

Lemma netloc_step_rebuilt n X :
  (∀ c, delimiter c → Str.contains c n = false) →
  X = EmptyString ∨ (∃ d t, X = String d t ∧ delimiter d) →
  ∃ b, netloc_step ("//" +:+ n +:+ X) = (n, X, b)
       ∧ b && _checknetloc n = netloc_ok n.
Proof.
  intros Hn HX. unfold netloc_step.
  assert (Hsw : Str.startswith ("//" +:+ n +:+ X) "//" = true).
  { apply startswith_spec. by eexists. }
  rewrite Hsw, (splitnetloc_exact n X Hn HX). apply bracket_cases.
Qed.

Lemma cut_app c a b :
  Str.contains c a = false →
  cut c (a +:+ (if Str.nonempty b then String c b else EmptyString)) = (a, b).
Proof.
  intros Ha. unfold cut. destruct b as [|x b]; cbn [Str.nonempty].
  - by rewrite app_empty_r, Ha.
  - by rewrite contains_app_sep, split1_app_sep.
Qed.

(** [urlsplit] finds again the parts from which [urlunsplit] built a URL
    around a netloc. *)
Lemma urlsplit_rebuilt s n u q f :
  is_scheme s →
  n ≠ EmptyString →
  safe n = true → safe u = true → safe q = true → safe f = true →
  (∀ c, delimiter c → Str.contains c n = false) →
  u = EmptyString ∨ Str.startswith u "/" = true →
  Str.contains "#" u = false → Str.contains "?" u = false →
  Str.contains "#" q = false →
  netloc_ok n = true →
  urlsplit (urlunsplit s n u q f) EmptyString = Some (s, n, u, q, f).
Proof.
  intros Hs Hn Hsn Hsu Hsq Hsf Hclean Hu Hhu Hqu Hhq Hok.
  rewrite (urlunsplit_netloc s n u q f Hn Hu), urlsplit_steps.
  set (Q := if Str.nonempty q then String "?" q else EmptyString).
  set (F := if Str.nonempty f then String "#" f else EmptyString).
  set (S0 := if Str.nonempty s then s +:+ ":" else EmptyString).
  assert (HsS0 : safe S0 = true).
  { subst S0. destruct Hs as [-> | (c0 & t & -> & _ & Hall)]; [done|].
    destruct (lower_scheme _ Hall) as (_ & _ & _ & Hsafe).
    change (Str.nonempty (Str.lower (String c0 t))) with true. cbv iota.
    unfold safe in *. by rewrite all_app, Hsafe. }
  assert (HsQ : safe Q = true) by (subst Q; by destruct q).
  assert (HsF : safe F = true) by (subst F; by destruct f).
  assert (Hsafe : safe (S0 +:+ "//" +:+ n +:+ u +:+ Q +:+ F) = true).
  { unfold safe in *. rewrite !all_app, HsS0, Hsn, Hsu, HsQ, HsF. done. }
  assert (Hlstrip : Str.lstrip c0_control_or_space
                      (S0 +:+ "//" +:+ n +:+ u +:+ Q +:+ F)
                    = S0 +:+ "//" +:+ n +:+ u +:+ Q +:+ F).
  { apply lstrip_id. subst S0.
    destruct Hs as [-> | (c0 & t & -> & Ha & _)]; [done|].
    destruct (lower_char_alpha _ Ha) as [_ Hc]. exact Hc. }
  rewrite Hlstrip, (filter_id _ _ Hsafe).
  subst S0. rewrite (scheme_step_rebuilt s _ Hs).
  assert (HX : u +:+ Q +:+ F = EmptyString
               ∨ ∃ d t, u +:+ Q +:+ F = String d t ∧ delimiter d).
  { destruct Hu as [-> | Hu].
    - subst Q F. destruct q as [|x q]; cbn [Str.nonempty].
      + destruct f as [|y f]; [by left|]. right. eexists "#"%char, _.
        split; [done|]. by right; right.
      + right. eexists "?"%char, _. split; [done|]. by right; left.
    - destruct u as [|a u]; [done|]. cbn [Str.startswith] in Hu.
      apply andb_true_iff in Hu as [Ha%Ascii.eqb_eq _]. subst a.
      right. eexists "/"%char, _. split; [done|]. by left. }
  destruct (netloc_step_rebuilt n _ Hclean HX) as (b & -> & Hb).
  rewrite <- app_assoc_s. subst F. rewrite cut_app; cycle 1.
  { rewrite contains_app, Hhu. subst Q. destruct q as [|x q]; [done|].
    cbn [Str.nonempty Str.contains orb]. exact Hhq. }
  subst Q. rewrite (cut_app "?" u q Hqu). by rewrite Hb, Hok.
Qed.

End rebuilt.

(** ** Params *)

Section params.
Context `{NC : NetlocChecks}.

(** [_splitparams] cuts at a [;], or not at all. *)
Lemma splitparams_cut url :
  (_splitparams url).1 = url ∧ (_splitparams url).2 = EmptyString
  ∨ url = (_splitparams url).1 +:+ String ";" (_splitparams url).2.
Proof.
  unfold _splitparams. destruct (Str.contains "/" url).
  - destruct (Str.find_from ";" _ url) as [i|] eqn:Hf; [|by left].
    right. cbn [fst snd].
    destruct (find_from_drop _ _ _ _ Hf) as (<- & _). by rewrite take_drop.
  - destruct (Str.find ";" url) as [i|] eqn:Hf; [|by left].
    right. cbn [fst snd]. replace (i + 1)%nat with (S i) by lia.
    by rewrite <- (find_drop _ _ _ Hf), take_drop.
Qed.

(** A path that [_splitparams] returned without params is cut no
    further. *)
Lemma splitparams_again url pa :
  _splitparams url = (pa, EmptyString) → _splitparams pa = (pa, EmptyString).
Proof.
  unfold _splitparams at 1.
  destruct (Str.contains "/" url) eqn:Hslash.
  - destruct (rfind_contains _ _ Hslash) as [k Hk]. rewrite Hk.
    cbn [default from_option id].
    destruct (Str.find_from ";" k url) as [i|] eqn:Hf.
    + intros [= <- _].
      destruct (rfind_split _ _ _ Hk) as (A & B & -> & <- & HB).
      unfold Str.find_from in Hf. rewrite drop_app_length in Hf.
      cbn [Str.find] in Hf. change (Str.eqc "/" ";") with false in Hf.
      cbv iota in Hf.
      destruct (Str.find ";" B) as [m|] eqn:Hm; [|done].
      cbn in Hf. injection Hf as <-.
      rewrite take_app_add. cbn [Str.take].
      set (B1 := Str.take m B).
      assert (H1 : Str.contains "/" B1 = false) by by apply contains_take.
      assert (H2 : Str.contains ";" B1 = false)
        by by apply (contains_take_find _ _ m).
      unfold _splitparams.
      rewrite contains_app_sep, (rfind_app_sep _ _ _ H1). cbn [default from_option id].
      unfold Str.find_from. rewrite drop_app_length.
      cbn [Str.find]. change (Str.eqc "/" ";") with false. cbv iota.
      by rewrite (contains_false_find _ _ H2).
    + intros [= <-]. unfold _splitparams. rewrite Hslash, Hk.
      cbn [default from_option id]. by rewrite Hf.
  - destruct (Str.find ";" url) as [i|] eqn:Hf.
    + intros [= <- _]. unfold _splitparams.
      rewrite (contains_take _ _ _ Hslash).
      by rewrite (contains_false_find _ _ (contains_take_find _ _ i i Hf (le_n i))).
    + intros [= <-]. unfold _splitparams. by rewrite Hslash, Hf.
Qed.

(** The params step of [urlparse] on the path and params put together
    again. *)
Lemma params_step_rebuilt (b : bool) u pa pr :
  (if b && Str.contains ";" u then _splitparams u else (u, EmptyString))
  = (pa, pr) →
  let u' := if Str.nonempty pr then pa +:+ ";" +:+ pr else pa in
  (if b && Str.contains ";" u' then _splitparams u' else (u', EmptyString))
  = (pa, pr)
  ∧ (u' = u ∨ u = u' +:+ ";").
Proof.
  intros H u'. destruct (b && Str.contains ";" u) eqn:Hc.
  - pose proof (splitparams_cut u) as Hcut. rewrite H in Hcut.
    cbn [fst snd] in Hcut. destruct pr as [|x pr]; subst u';
      cbn [Str.nonempty].
    + rewrite (splitparams_again _ _ H).
      split; [by destruct (b && Str.contains ";" pa)|].
      destruct Hcut as [[-> _] | ->]; auto.
    + destruct Hcut as [[_ [=]] | Hu].
      change (pa +:+ ";" +:+ String x pr) with (pa +:+ String ";" (String x pr)).
      rewrite <- Hu, Hc. auto.
  - injection H as <- <-. subst u'. cbn [Str.nonempty]. rewrite Hc. auto.
Qed.

(** [urlparse] finds again the parts of a parsed URL with a netloc that
    [urlunparse] put together, whatever query without [#] was put in. *)
Lemma urlparse_rebuilt url p q' :
  urlparse url EmptyString = Some p →
  netloc p ≠ EmptyString →
  safe q' = true →
  Str.contains "#" q' = false →
  urlparse (urlunparse (mkParseResult (scheme p) (netloc p) (path p)
                                      (params p) q' (fragment p)))
           EmptyString
  = Some (mkParseResult (scheme p) (netloc p) (path p) (params p) q'
                        (fragment p)).
Proof.
  unfold urlparse at 1.
  destruct (urlsplit url EmptyString) as [[[[[s n] u] q] f]|] eqn:Hsplit;
    [|done].
  destruct (urlsplit_facts _ _ _ _ _ _ Hsplit)
    as (Hs & Hsn & Hsu & _ & Hsf & Hclean & Hshape & Hhu & Hqu & _ & Hok).
  cbn [mbind option_bind].
  destruct (if member s uses_params && Str.contains ";" u
            then _splitparams u else (u, EmptyString)) as [pa pr] eqn:Hpar.
  intros [= <-] Hn Hsq Hhq. cbn [scheme netloc path params fragment] in *.
  destruct (params_step_rebuilt _ _ _ _ Hpar) as [Hstep Hrel].
  unfold urlunparse. cbn [scheme netloc path params query fragment].
  set (u' := if Str.nonempty pr then pa +:+ ";" +:+ pr else pa) in *.
  assert (Hu' : safe u' = true ∧ Str.contains "#" u' = false
                ∧ Str.contains "?" u' = false
                ∧ (u' = EmptyString ∨ Str.startswith u' "/" = true)).
  { destruct Hrel as [-> | Hrel]; [auto|].
    rewrite Hrel in Hsu, Hhu, Hqu. unfold safe in *.
    rewrite all_app in Hsu. rewrite contains_app in Hhu, Hqu.
    apply andb_true_iff in Hsu as [? _].
    apply orb_false_iff in Hhu as [? _]. apply orb_false_iff in Hqu as [? _].
    split; [done|]. split; [done|]. split; [done|].
    destruct (Hshape Hn) as [Hu | Hu]; rewrite Hrel in Hu.
    - by destruct u'.
    - destruct u' as [|a r]; [done|]. right. rewrite app_String in Hu.
      cbn [Str.startswith] in Hu |- *.
      apply andb_true_iff in Hu as [-> _]. by destruct r. }
  destruct Hu' as (Hsu' & Hhu' & Hqu' & Hshape').
  unfold urlparse.
  rewrite (urlsplit_rebuilt s n u' q' f) by done.
  cbn [mbind option_bind]. by rewrite Hstep.
Qed.

End params.

Section query.
Context `{NC : NetlocChecks}.

Lemma urlparse_query url p :
  urlparse url EmptyString = Some p →
  safe (query p) = true ∧ Str.contains "#" (query p) = false.
Proof.
  unfold urlparse.
  destruct (urlsplit url EmptyString) as [[[[[s n] u] q] f]|] eqn:Hsplit;
    [|done].
  destruct (urlsplit_facts _ _ _ _ _ _ Hsplit)
    as (_ & _ & _ & Hsq & _ & _ & _ & _ & _ & Hhq & _).
  cbn [mbind option_bind].
  by destruct (if _ && _ then _ else _) as [pa pr]; intros [= <-].
Qed.

End query.

(** * The repair of the query *)

(** C1 as stated fails: the link [http:////foo?a?b] on [https://x/y]
    resolves to itself, a URL with no host, the path [//foo] and the query
    [a?b]; the URL returned for it, [http://foo?b], has the host [foo] and
    an empty path. *)
Lemma repaired_url_has_another_host :
  let joined_url := "http:////foo?a?b"%string in
  let returned := "http://foo?b"%string in
  @urljoin lenient_checks "https://x/y" "http:////foo?a?b" = Some joined_url
  ∧ @urlparse lenient_checks joined_url EmptyString
    = Some (mkParseResult "http" "" "//foo" "" "a?b" "")
  ∧ @build_absolute_url lenient_checks "https://x/y" "http:////foo?a?b"
    = Some returned
  ∧ @urlparse lenient_checks returned EmptyString
    = Some (mkParseResult "http" "foo" "" "" "b" "")
  ∧ ¬ (∀ base href joined_url parsed_join returned parsed_returned,
         @urljoin lenient_checks base href = Some joined_url →
         @urlparse lenient_checks joined_url EmptyString = Some parsed_join →
         Str.contains "?" (query parsed_join) = true →
         @build_absolute_url lenient_checks base href = Some returned →
         @urlparse lenient_checks returned EmptyString
         = Some parsed_returned →
         scheme parsed_returned = scheme parsed_join
         ∧ netloc parsed_returned = netloc parsed_join
         ∧ path parsed_returned = path parsed_join
         ∧ fragment parsed_returned = fragment parsed_join).
Proof.
  intros joined_url returned.
  assert (H1 : @urljoin lenient_checks "https://x/y" "http:////foo?a?b"
               = Some joined_url) by evaluated.
  assert (H2 : @urlparse lenient_checks joined_url EmptyString
               = Some (mkParseResult "http" "" "//foo" "" "a?b" ""))
    by evaluated.
  assert (H3 : @build_absolute_url lenient_checks "https://x/y"
                 "http:////foo?a?b" = Some returned) by evaluated.
  assert (H4 : @urlparse lenient_checks returned EmptyString
               = Some (mkParseResult "http" "foo" "" "" "b" ""))
    by evaluated.
  split; [exact H1|]. split; [exact H2|]. split; [exact H3|].
  split; [exact H4|].
  intros H. specialize (H _ _ _ _ _ _ H1 H2 eq_refl H3 H4).
  destruct H as (_ & Hnetloc & _). discriminate Hnetloc.
Qed.

(** C1, amended. Whenever the standard resolution of [href] against [base]
    gives a URL whose query holds a [?], [build_absolute_url] returns the
    URL that [urlunparse] builds from its scheme, netloc, path, params and
    fragment as they are and, for the query, the text after its last [?].
    When the resolved URL has a netloc, the URL returned parses back to
    these very parts: the same scheme, netloc, path, params and fragment,
    and the new query.  Resolving [?page=2] against [https://x/y?page=1]
    gives [https://x/y?page=2], and so does resolving the malformed
    [?page=1?page=2]. *)
Theorem build_absolute_url_repairs_query `{NC : NetlocChecks} :
  (∀ base href joined_url parsed_join,
     urljoin base href = Some joined_url →
     urlparse joined_url EmptyString = Some parsed_join →
     Str.contains "?" (query parsed_join) = true →
     ∃ before after,
       query parsed_join = (before +:+ "?" +:+ after)%string
       ∧ Str.contains "?" after = false
       ∧ build_absolute_url base href
         = Some (urlunparse
                   (mkParseResult (scheme parsed_join) (netloc parsed_join)
                                  (path parsed_join) (params parsed_join)
                                  after (fragment parsed_join)))
       ∧ (netloc parsed_join ≠ EmptyString →
          urlparse (urlunparse
                      (mkParseResult (scheme parsed_join) (netloc parsed_join)
                                     (path parsed_join) (params parsed_join)
                                     after (fragment parsed_join)))
                   EmptyString
          = Some (mkParseResult (scheme parsed_join) (netloc parsed_join)
                                (path parsed_join) (params parsed_join)
                                after (fragment parsed_join))))
  ∧ build_absolute_url "https://x/y?page=1" "?page=2"
    = Some "https://x/y?page=2"%string
  ∧ build_absolute_url "https://x/y?page=1" "?page=2"
    ≠ Some "https://x/y?page=1?page=2"%string
  ∧ build_absolute_url "https://x/y" "?page=1?page=2"
    = Some "https://x/y?page=2"%string.
Proof.
  split; [|split; [evaluated | split; [vm_compute; discriminate | evaluated]]].
  intros base href joined_url parsed_join Hjoin Hparse Hq.
  destruct (split_last_item "?" (query parsed_join) Hq) as (before & Heq & Hno).
  exists before, (Str.last_item (Str.split "?" (query parsed_join))).
  split; [exact Heq|]. split; [exact Hno|]. split.
  - unfold build_absolute_url. rewrite Hjoin. simpl. rewrite Hparse. simpl.
    by rewrite Hq.
  - intros Hnetloc.
    destruct (urlparse_query _ _ Hparse) as [Hsafe Hhash].
    rewrite Heq in Hsafe, Hhash. unfold safe in Hsafe.
    rewrite all_app in Hsafe. rewrite contains_app in Hhash.
    apply andb_true_iff in Hsafe as [_ Hsafe].
    apply orb_false_iff in Hhash as [_ Hhash].
    apply (urlparse_rebuilt joined_url); [done | done | |].
    + unfold safe. cbn [Str.all] in Hsafe.
      by apply andb_true_iff in Hsafe as [_ ?].
    + cbn [Str.contains] in Hhash. by apply orb_false_iff in Hhash as [_ ?].
Qed.

Lemma build_absolute_url_repairs_query_witness :
  ∃ before after,
    ("page=1?page=2" = before +:+ "?" +:+ after)%string
    ∧ Str.contains "?" after = false
    ∧ @build_absolute_url lenient_checks "https://x/y" "?page=1?page=2"
      = Some (@urlunparse
                (mkParseResult "https" "x" "/y" EmptyString after EmptyString))
    ∧ @urlparse lenient_checks
        (@urlunparse
           (mkParseResult "https" "x" "/y" EmptyString after EmptyString))
        EmptyString
      = Some (mkParseResult "https" "x" "/y" EmptyString after EmptyString).
Proof.
  destruct (proj1 (@build_absolute_url_repairs_query lenient_checks)
              "https://x/y"%string "?page=1?page=2"%string
              "https://x/y?page=1?page=2"%string
              (mkParseResult "https" "x" "/y" EmptyString "page=1?page=2"
                             EmptyString)
              ltac:(evaluated) ltac:(evaluated) ltac:(evaluated))
    as (before & after & H1 & H2 & H3 & H4).
  exists before, after. split; [exact H1|]. split; [exact H2|].
  split; [exact H3|]. apply H4. discriminate.
Defined.
